(** * Citadel: event model, event bus, transports and agent workflow routes

    A shallow embedding of
    - [citadel_frontend/protocol/ag_ui.py]   (EventType, BaseEvent and the
      specialised event classes),
    - [citadel_frontend/protocol/events.py]  (EventBus, the consumers,
      EventProcessor and EventManager),
    - [citadel_frontend/protocol/transport.py] (SSETransport,
      WebSocketTransport, TransportServer),
    - [citadel_api/routes/agent.py]          (the agent workflow endpoints),
    together with the part of Python's [json] module these files call.

    Conventions.
    - A Python [str] is a [string]; each character stands for the code point
      of the same number (0..255). A Python [bytes] is a [string] too; each
      character stands for the byte of the same number.
    - A Python [dict] holding JSON is an association list in insertion
      order whose keys are pairwise distinct; [dict_set] is item
      assignment. The module-level dicts keyed by UUID are finite maps.
    - A Python exception is a value of [exn]; a computation that can raise
      returns [res].
    - An [asyncio.Queue] is an object with identity: a queue id, and the
      store maps the id to the items put so far (oldest first). *)

From Stdlib Require Import ZArith Ascii String List Lia.
From Stdlib Require Import Decimal DecimalString DecimalZ DecimalPos DecimalFacts.
From stdpp Require Import gmap strings list.

Open Scope string_scope.
Open Scope list_scope.

(* ===================================================================== *)
(** * Results of Python computations *)
(* ===================================================================== *)

(** The exceptions the modelled code can raise. *)
Inductive exn : Type :=
  | JSONDecodeError
  | KeyError (key : string)
  | ValueError
  | TypeError
  | AttributeError
  | NotImplementedError
  | TimeoutError
  | CancelledError
  | GeneratorExit
  | HTTPException (status_code : Z) (detail : string)
  | UnicodeDecodeError.

(** Inputs on which [json.loads] leaves the embedded data model. *)
Inductive beyond : Type :=
  | FloatLiteral   (* the text holds a float, NaN or Infinity *)
  | WideChar       (* the text holds a code point above 255 *)
  | Fuel.          (* the recursion bound was reached *)

Inductive res (A : Type) : Type :=
  | Ret (a : A)
  | Raise (e : exn)
  | Outside (b : beyond).
Arguments Ret {A} a.
Arguments Raise {A} e.
Arguments Outside {A} b.

(* ===================================================================== *)
(** * JSON values and Python's json module *)
(* ===================================================================== *)

Module Json.

(** [Any] restricted to what [json] reads and writes: None, bool, int, str,
    list and dict with str keys. Floats are not embedded. *)
#[local] Unset Elimination Schemes.
Inductive JSON : Type :=
  | JNull
  | JBool (b : bool)
  | JInt (z : Z)
  | JStr (s : string)
  | JList (items : list JSON)
  | JDict (members : list (string * JSON)).
#[local] Set Elimination Schemes.

Abbreviation Dict := (list (string * JSON)).

(** ** dict operations *)

(** [d.get(k)]: the value stored under [k], if any. *)
Fixpoint dict_get (d : Dict) (k : string) : option JSON :=
  match d with
  | [] => None
  | (k', v) :: d' => if String.eqb k' k then Some v else dict_get d' k
  end.

(** [d[k] = v]: overwrite in place, or append a new key at the end. *)
Fixpoint dict_set (d : Dict) (k : string) (v : JSON) : Dict :=
  match d with
  | [] => [(k, v)]
  | (k', v') :: d' =>
      if String.eqb k' k then (k', v) :: d' else (k', v') :: dict_set d' k v
  end.

(** [dict(pairs)]. *)
Definition dict_of_pairs (pairs : list (string * JSON)) : Dict :=
  fold_left (fun d kv => dict_set d (fst kv) (snd kv)) pairs [].



(** ** Characters *)

Definition dquote : ascii := "034"%char.
Definition backslash : ascii := "\"%char.

Definition is_ws (c : ascii) : bool :=
  (c =? " ")%char || (c =? "009")%char || (c =? "010")%char || (c =? "013")%char.

Definition is_digit (c : ascii) : bool :=
  let n := N_of_ascii c in (48 <=? n)%N && (n <=? 57)%N.

Definition hex_digit (n : N) : ascii :=
  if (n <? 10)%N then ascii_of_N (48 + n) else ascii_of_N (87 + n).

Definition hex_val (c : ascii) : option N :=
  let n := N_of_ascii c in
  if (48 <=? n)%N && (n <=? 57)%N then Some (n - 48)%N
  else if (97 <=? n)%N && (n <=? 102)%N then Some (n - 87)%N
  else if (65 <=? n)%N && (n <=? 70)%N then Some (n - 55)%N
  else None.

(** ** json.dumps (default options: ensure_ascii, separators ", " and ": ") *)

(** [ESCAPE_DCT] and the [\uXXXX] fallback of [encode_basestring_ascii]. *)
Definition escape_char (c : ascii) : string :=
  let n := N_of_ascii c in
  if (c =? dquote)%char then String backslash (String dquote EmptyString)
  else if (c =? backslash)%char then String backslash (String backslash EmptyString)
  else if (c =? "008")%char then "\b"
  else if (c =? "012")%char then "\f"
  else if (c =? "010")%char then "\n"
  else if (c =? "013")%char then "\r"
  else if (c =? "009")%char then "\t"
  else if (32 <=? n)%N && (n <=? 126)%N then String c EmptyString
  else "\u00" +:+ String (hex_digit (n / 16)) (String (hex_digit (n mod 16)) EmptyString).

Fixpoint escape (s : string) : string :=
  match s with
  | EmptyString => EmptyString
  | String c s' => escape_char c +:+ escape s'
  end.

Definition encode_basestring_ascii (s : string) : string :=
  String dquote (escape s +:+ String dquote EmptyString).

(** [int.__repr__]. *)
Definition repr_int (z : Z) : string := NilZero.string_of_int (Z.to_int z).

(** [sep.join(parts)]. *)
Fixpoint join (sep : string) (parts : list string) : string :=
  match parts with
  | [] => EmptyString
  | p :: ps =>
      match ps with
      | [] => p
      | _ :: _ => p +:+ sep +:+ join sep ps
      end
  end.

Fixpoint dumps (v : JSON) : string :=
  match v with
  | JNull => "null"
  | JBool true => "true"
  | JBool false => "false"
  | JInt z => repr_int z
  | JStr s => encode_basestring_ascii s
  | JList l => "[" +:+ join ", " (map dumps l) +:+ "]"
  | JDict d =>
      "{" +:+ join ", " (map (fun kv => match kv with
                                       | (k, x) => encode_basestring_ascii k +:+ ": " +:+ dumps x
                                       end) d) +:+ "}"
  end.

(** ** json.loads *)

(** Result of scanning a prefix of the text. *)
Inductive scan (A : Type) : Type :=
  | Scanned (a : A) (rest : string)
  | Malformed
  | Beyond (b : beyond).
Arguments Scanned {A} a rest.
Arguments Malformed {A}.
Arguments Beyond {A} b.

Definition scan_map {A B} (f : A -> B) (x : scan A) : scan B :=
  match x with
  | Scanned a r => Scanned (f a) r
  | Malformed => Malformed
  | Beyond b => Beyond b
  end.

(** [WHITESPACE.match(s, idx).end()]. *)
Fixpoint skip_ws (s : string) : string :=
  match s with
  | String c s' => if is_ws c then skip_ws s' else s
  | EmptyString => EmptyString
  end.

(** [BACKSLASH]: the one-letter escapes. *)
Definition unescape (e : ascii) : option ascii :=
  if (e =? dquote)%char then Some dquote
  else if (e =? backslash)%char then Some backslash
  else if (e =? "/")%char then Some "/"%char
  else if (e =? "b")%char then Some "008"%char
  else if (e =? "f")%char then Some "012"%char
  else if (e =? "n")%char then Some "010"%char
  else if (e =? "r")%char then Some "013"%char
  else if (e =? "t")%char then Some "009"%char
  else None.

Definition decode_uXXXX (h1 h2 h3 h4 : ascii) : option N :=
  match hex_val h1, hex_val h2, hex_val h3, hex_val h4 with
  | Some a, Some b, Some c, Some d => Some (((a * 16 + b) * 16 + c) * 16 + d)%N
  | _, _, _, _ => None
  end.

(** [scanstring(s, end, strict=True)], entered after the opening quote. *)
Fixpoint scanstring (s : string) : scan string :=
  match s with
  | EmptyString => Malformed
  | String c s' =>
      if (c =? dquote)%char then Scanned EmptyString s'
      else if (c =? backslash)%char then
        match s' with
        | EmptyString => Malformed
        | String e s'' =>
            if (e =? "u")%char then
              match s'' with
              | String h1 (String h2 (String h3 (String h4 r))) =>
                  match decode_uXXXX h1 h2 h3 h4 with
                  | Some n =>
                      if (n <? 256)%N
                      then scan_map (String (ascii_of_N n)) (scanstring r)
                      else Beyond WideChar
                  | None => Malformed
                  end
              | _ => Malformed
              end
            else
              match unescape e with
              | Some ch => scan_map (String ch) (scanstring s'')
              | None => Malformed
              end
        end
      else if (N_of_ascii c <? 32)%N then Malformed
      else scan_map (String c) (scanstring s')
  end.

(** The maximal run of decimal digits at the head of [s]. *)
Fixpoint scan_digits (s : string) : uint * string :=
  match s with
  | String c s' =>
      if is_digit c then
        let (u, r) := scan_digits s' in
        match uint_of_char c (Some u) with
        | Some u' => (u', r)
        | None => (Nil, s)
        end
      else (Nil, s)
  | EmptyString => (Nil, EmptyString)
  end.

Definition starts_with_digit (s : string) : bool :=
  match s with
  | String c _ => is_digit c
  | EmptyString => false
  end.

(** The fraction group (a dot and digits) and the exponent group (e or E,
    an optional sign, digits) of [NUMBER_RE]. *)
Definition has_frac (s : string) : bool :=
  match s with
  | String c r => (c =? ".")%char && starts_with_digit r
  | EmptyString => false
  end.

Definition has_exp (s : string) : bool :=
  match s with
  | String c r =>
      ((c =? "e")%char || (c =? "E")%char)
      && match r with
         | String g r' =>
             if (g =? "-")%char || (g =? "+")%char
             then starts_with_digit r' else is_digit g
         | EmptyString => false
         end
  | EmptyString => false
  end.

Definition finish_number (neg : bool) (u : uint) (r : string) : scan JSON :=
  if has_frac r || has_exp r then Beyond FloatLiteral
  else Scanned (JInt (Z.of_int (if neg then Neg u else Pos u))) r.

(** [NUMBER_RE.match]: an optional minus sign, then a single 0 or a run
    of digits that starts with 1..9, then the optional groups. *)
Definition match_number (s : string) : option (scan JSON) :=
  let (neg, s1) := match s with
                   | String c r => if (c =? "-")%char then (true, r) else (false, s)
                   | EmptyString => (false, s)
                   end in
  match s1 with
  | String c r =>
      if (c =? "0")%char then Some (finish_number neg (D0 Nil) r)
      else if is_digit c then
        let (u, r') := scan_digits s1 in Some (finish_number neg u r')
      else None
  | EmptyString => None
  end.

Fixpoint starts_with (p s : string) : option string :=
  match p with
  | EmptyString => Some s
  | String a p' =>
      match s with
      | String b s' => if (a =? b)%char then starts_with p' s' else None
      | EmptyString => None
      end
  end.

Definition has_prefix (p s : string) : bool :=
  match starts_with p s with
  | Some _ => true
  | None => false
  end.

(** The constants and numbers: the tail of [_scan_once]. *)
Definition scan_atom (s : string) : scan JSON :=
  match starts_with "null" s with
  | Some r => Scanned JNull r
  | None =>
  match starts_with "true" s with
  | Some r => Scanned (JBool true) r
  | None =>
  match starts_with "false" s with
  | Some r => Scanned (JBool false) r
  | None =>
  match match_number s with
  | Some x => x
  | None =>
      if has_prefix "NaN" s || has_prefix "Infinity" s || has_prefix "-Infinity" s
      then Beyond FloatLiteral
      else Malformed
  end end end end.

(** [_scan_once], [JSONArray] and [JSONObject]. [array_items] is the
    [while True] loop of [JSONArray], entered at a value; [object_members]
    is the loop of [JSONObject], entered after the opening quote of a key. *)
Fixpoint scan_once (fuel : nat) (s : string) : scan JSON :=
  match fuel with
  | O => Beyond Fuel
  | S fuel' =>
      match s with
      | EmptyString => Malformed
      | String c s' =>
          if (c =? dquote)%char then scan_map JStr (scanstring s')
          else if (c =? "{")%char then
            match skip_ws s' with
            | String c1 s1 =>
                if (c1 =? "}")%char then Scanned (JDict []) s1
                else if (c1 =? dquote)%char
                then scan_map (fun ps => JDict (dict_of_pairs ps)) (object_members fuel' s1)
                else Malformed
            | EmptyString => Malformed
            end
          else if (c =? "[")%char then
            match skip_ws s' with
            | String c1 s1 =>
                if (c1 =? "]")%char then Scanned (JList []) s1
                else scan_map JList (array_items fuel' (String c1 s1))
            | EmptyString => Malformed
            end
          else scan_atom s
      end
  end
with array_items (fuel : nat) (s : string) : scan (list JSON) :=
  match fuel with
  | O => Beyond Fuel
  | S fuel' =>
      match scan_once fuel' s with
      | Scanned v r =>
          match skip_ws r with
          | String c r1 =>
              if (c =? "]")%char then Scanned [v] r1
              else if (c =? ",")%char
              then scan_map (cons v) (array_items fuel' (skip_ws r1))
              else Malformed
          | EmptyString => Malformed
          end
      | Malformed => Malformed
      | Beyond b => Beyond b
      end
  end
with object_members (fuel : nat) (s : string) : scan (list (string * JSON)) :=
  match fuel with
  | O => Beyond Fuel
  | S fuel' =>
      match scanstring s with
      | Scanned k r =>
          match skip_ws r with
          | String c r1 =>
              if (c =? ":")%char then
                match scan_once fuel' (skip_ws r1) with
                | Scanned v r2 =>
                    match skip_ws r2 with
                    | String c2 r3 =>
                        if (c2 =? "}")%char then Scanned [(k, v)] r3
                        else if (c2 =? ",")%char then
                          match skip_ws r3 with
                          | String c3 r4 =>
                              if (c3 =? dquote)%char
                              then scan_map (cons (k, v)) (object_members fuel' r4)
                              else Malformed
                          | EmptyString => Malformed
                          end
                        else Malformed
                    | EmptyString => Malformed
                    end
                | Malformed => Malformed
                | Beyond b => Beyond b
                end
              else Malformed
          | EmptyString => Malformed
          end
      | Malformed => Malformed
      | Beyond b => Beyond b
      end
  end.

(** [JSONDecoder.decode]: one value, then only whitespace. Every call of
    the scanner that recurses has consumed a character or is the loop of
    the container just opened, so twice the length bounds the depth. *)
Definition loads (s : string) : res JSON :=
  match scan_once (2 * String.length s + 2) (skip_ws s) with
  | Scanned v r =>
      match skip_ws r with
      | EmptyString => Ret v
      | String _ _ => Raise JSONDecodeError
      end
  | Malformed => Raise JSONDecodeError
  | Beyond b => Outside b
  end.

(** ** The limits of the interpreter *)

(** The functions above describe [json] while the interpreter's limits
    are not met. Two limits can be met: the conversion between [int] and
    [str] raises ValueError beyond [max_str_digits] digits
    ([sys.int_info.default_max_str_digits]), and nesting raises
    RecursionError at the recursion limit (1000 frames by default).
    [safe_nesting] is a depth that stays clear of that limit: [asdict]
    takes two frames a level, the encoder and the scanner one. *)
Definition max_str_digits : nat := 4300.
Definition safe_nesting : nat := 100.





(** The same for a text, before it is known to be JSON: its opening
    brackets bound the nesting the scanner can reach, its longest run of
    digits the length of a number. *)
Fixpoint opening_brackets (s : string) : nat :=
  match s with
  | String c s' =>
      (if (c =? "[")%char || (c =? "{")%char then 1 else 0) + opening_brackets s'
  | EmptyString => 0
  end.

Fixpoint leading_digits (s : string) : nat :=
  match s with
  | String c s' => if is_digit c then S (leading_digits s') else 0
  | EmptyString => 0
  end.

Fixpoint longest_digit_run (s : string) : nat :=
  match s with
  | String _ s' => Nat.max (leading_digits s) (longest_digit_run s')
  | EmptyString => 0
  end.

Definition text_within_limits (s : string) : bool :=
  (opening_brackets s <=? safe_nesting)%nat && (longest_digit_run s <=? max_str_digits)%nat.

End Json.
Import Json.

(** Text written with ['] for the double quote. *)
Fixpoint dq (s : string) : string :=
  match s with
  | EmptyString => EmptyString
  | String c s' => String (if (c =? "'")%char then dquote else c) (dq s')
  end.

(* ===================================================================== *)
(** * ag_ui.py: EventType and BaseEvent *)
(* ===================================================================== *)

Inductive EventType : Type :=
  | RUN_STARTED | RUN_FINISHED
  | TEXT_MESSAGE_START | TEXT_MESSAGE_CONTENT | TEXT_MESSAGE_END
  | TOOL_CALL_START | TOOL_CALL_ARGS | TOOL_CALL_END
  | STATE_SNAPSHOT | STATE_DELTA | MESSAGES_SNAPSHOT
  | ERROR | STATUS_UPDATE
  | THINKING_START | THINKING_END | AGENT_CHANGE.

(** The members of the enumeration, in definition order. *)
Definition EventType_members : list EventType :=
  [ RUN_STARTED; RUN_FINISHED;
    TEXT_MESSAGE_START; TEXT_MESSAGE_CONTENT; TEXT_MESSAGE_END;
    TOOL_CALL_START; TOOL_CALL_ARGS; TOOL_CALL_END;
    STATE_SNAPSHOT; STATE_DELTA; MESSAGES_SNAPSHOT;
    ERROR; STATUS_UPDATE;
    THINKING_START; THINKING_END; AGENT_CHANGE ].

(** [member.value]. *)
Definition value (t : EventType) : string :=
  match t with
  | RUN_STARTED => "RUN_STARTED"
  | RUN_FINISHED => "RUN_FINISHED"
  | TEXT_MESSAGE_START => "TEXT_MESSAGE_START"
  | TEXT_MESSAGE_CONTENT => "TEXT_MESSAGE_CONTENT"
  | TEXT_MESSAGE_END => "TEXT_MESSAGE_END"
  | TOOL_CALL_START => "TOOL_CALL_START"
  | TOOL_CALL_ARGS => "TOOL_CALL_ARGS"
  | TOOL_CALL_END => "TOOL_CALL_END"
  | STATE_SNAPSHOT => "STATE_SNAPSHOT"
  | STATE_DELTA => "STATE_DELTA"
  | MESSAGES_SNAPSHOT => "MESSAGES_SNAPSHOT"
  | ERROR => "ERROR"
  | STATUS_UPDATE => "STATUS_UPDATE"
  | THINKING_START => "THINKING_START"
  | THINKING_END => "THINKING_END"
  | AGENT_CHANGE => "AGENT_CHANGE"
  end.

(** [EventType(x)]: the member whose value is [x]; ValueError when there
    is none (also when [x] is not a str). *)
Definition EventType_call (x : JSON) : res EventType :=
  match x with
  | JStr s =>
      match find (fun t => String.eqb (value t) s) EventType_members with
      | Some t => Ret t
      | None => Raise ValueError
      end
  | _ => Raise ValueError
  end.

Definition EventType_index (t : EventType) : nat :=
  match t with
  | RUN_STARTED => 0 | RUN_FINISHED => 1
  | TEXT_MESSAGE_START => 2 | TEXT_MESSAGE_CONTENT => 3 | TEXT_MESSAGE_END => 4
  | TOOL_CALL_START => 5 | TOOL_CALL_ARGS => 6 | TOOL_CALL_END => 7
  | STATE_SNAPSHOT => 8 | STATE_DELTA => 9 | MESSAGES_SNAPSHOT => 10
  | ERROR => 11 | STATUS_UPDATE => 12
  | THINKING_START => 13 | THINKING_END => 14 | AGENT_CHANGE => 15
  end.

#[global] Instance EventType_eq_dec : EqDecision EventType.
Proof. solve_decision. Defined.

#[global] Program Instance EventType_countable : Countable EventType :=
  inj_countable' EventType_index (fun n => nth n EventType_members RUN_STARTED) _.
Next Obligation. intros []; reflexivity. Qed.

(** The dataclass: [type] and [payload]. The annotation of [payload] is
    [Dict[str, Any]], which is not enforced, so the field holds any value. *)
Record BaseEvent : Type := mkBaseEvent {
  type : EventType;
  payload : JSON
}.

Module BaseEvent.

(** [asdict(self)] with ["type"] replaced by the member's value. *)
Definition to_dict (self : BaseEvent) : JSON :=
  JDict [("type", JStr (value (type self))); ("payload", payload self)].

Definition to_json (self : BaseEvent) : string := dumps (to_dict self).

(** [data["type"]]: KeyError on a dict without the key, TypeError on every
    other kind of value. *)
Definition getitem_type (data : JSON) : res JSON :=
  match data with
  | JDict d =>
      match dict_get d "type" with
      | Some x => Ret x
      | None => Raise (KeyError "type")
      end
  | _ => Raise TypeError
  end.

(** [data.get("payload", {})]. *)
Definition get_payload (data : JSON) : res JSON :=
  match data with
  | JDict d =>
      match dict_get d "payload" with
      | Some x => Ret x
      | None => Ret (JDict [])
      end
  | _ => Raise AttributeError
  end.

Definition from_dict (data : JSON) : res BaseEvent :=
  match getitem_type data with
  | Ret x =>
      match EventType_call x with
      | Ret event_type =>
          match get_payload data with
          | Ret p => Ret (mkBaseEvent event_type p)
          | Raise e => Raise e
          | Outside b => Outside b
          end
      | Raise e => Raise e
      | Outside b => Outside b
      end
  | Raise e => Raise e
  | Outside b => Outside b
  end.

Definition from_json (json_str : string) : res BaseEvent :=
  match loads json_str with
  | Ret data => from_dict data
  | Raise e => Raise e
  | Outside b => Outside b
  end.

End BaseEvent.

(* ===================================================================== *)
(** * asyncio.Queue objects *)
(* ===================================================================== *)

(** The queues created so far. A queue is named by its id; [items] maps the
    id to everything put into it, oldest first. Queues are unbounded
    ([asyncio.Queue()] has maxsize 0), so [put] never waits, and [get]
    hands the items out in this order. *)
Record Queues (A : Type) : Type := mkQueues {
  items : gmap nat (list A);
  next_queue : nat
}.
Arguments mkQueues {A} items next_queue.
Arguments items {A} q.
Arguments next_queue {A} q.

Definition no_queues {A} : Queues A := mkQueues ∅ 0.

(** [asyncio.Queue()]: a new, empty queue. *)
Definition new_queue {A} (qs : Queues A) : nat * Queues A :=
  (next_queue qs, mkQueues (<[next_queue qs := []]> (items qs)) (S (next_queue qs))).

(** [await queue.put(x)]. *)
Definition put {A} (q : nat) (x : A) (qs : Queues A) : Queues A :=
  mkQueues (alter (fun l => l ++ [x]) q (items qs)) (next_queue qs).

(** Everything received by queue [q] so far. *)
Definition received {A} (qs : Queues A) (q : nat) : list A :=
  default [] (items qs !! q).

(* ===================================================================== *)
(** * events.py: EventBus *)
(* ===================================================================== *)

Module EventBus.

(** The argument [event_types] of [subscribe]: None, a [set] or a
    [frozenset] of kinds. *)
Inductive EventTypes : Type :=
  | PyNone
  | PySet (kinds : gset EventType)
  | PyFrozenset (kinds : gset EventType).

(** A key of [self.subscribers]: None or a hashable set of kinds. Two
    frozensets with the same members are the same key. *)
Abbreviation Key := (option (gset EventType)).

(** [hash(event_types)], needed to use it as a dict key: a [set] is
    unhashable. *)
Definition hashable (event_types : EventTypes) : res Key :=
  match event_types with
  | PyNone => Ret None
  | PyFrozenset s => Ret (Some s)
  | PySet _ => Raise TypeError
  end.

(** [QueueEventConsumer(queue, event_types)]. *)
Record QueueEventConsumer : Type := mkConsumer {
  queue : nat;
  event_types : EventTypes
}.

(** [self.subscribers], in insertion order. *)
Abbreviation Subscribers := (list (Key * list nat)).

Record State : Type := mkState {
  subscribers : Subscribers;
  queues : Queues BaseEvent
}.

(** [EventBus()]. *)
Definition init : State := mkState [] no_queues.

(** [event_types is None or event.type in event_types]. *)
Definition matches (k : Key) (event : BaseEvent) : bool :=
  match k with
  | None => true
  | Some s => bool_decide (type event ∈ s)
  end.

Definition put_all (event : BaseEvent) (targets : list nat)
    (qs : Queues BaseEvent) : Queues BaseEvent :=
  fold_left (fun acc q => put q event acc) targets qs.

Definition publish (event : BaseEvent) (self : State) : State :=
  mkState (subscribers self)
    (fold_left
       (fun acc entry =>
          if matches (fst entry) event then put_all event (snd entry) acc else acc)
       (subscribers self) (queues self)).

(** [event_types not in self.subscribers]. *)
Definition has_key (k : Key) (subs : Subscribers) : bool :=
  existsb (fun entry => bool_decide (fst entry = k)) subs.

(** [self.subscribers[k].append(q)] for a key that is present. *)
Fixpoint append_to (k : Key) (q : nat) (subs : Subscribers) : Subscribers :=
  match subs with
  | [] => []
  | (k', l) :: subs' =>
      if bool_decide (k' = k) then (k', l ++ [q]) :: subs'
      else (k', l) :: append_to k q subs'
  end.

(** The queue is created first; hashing a [set] then raises TypeError and
    leaves the bus as it was. *)
Definition subscribe (event_types : EventTypes) (self : State)
    : res QueueEventConsumer * State :=
  let (q, qs) := new_queue (queues self) in
  match hashable event_types with
  | Ret k =>
      let subs := if has_key k (subscribers self) then subscribers self
                  else subscribers self ++ [(k, [])] in
      (Ret (mkConsumer q event_types), mkState (append_to k q subs) qs)
  | Raise e => (Raise e, mkState (subscribers self) qs)
  | Outside b => (Outside b, mkState (subscribers self) qs)
  end.

(** [queues.remove(q)]: drop the first occurrence. *)
Fixpoint list_remove (q : nat) (l : list nat) : list nat :=
  match l with
  | [] => []
  | x :: l' => if Nat.eqb x q then l' else x :: list_remove q l'
  end.

(** The loop of [unsubscribe]: the first bucket holding the queue loses
    it, is deleted when it becomes empty, and the loop stops. *)
Fixpoint remove_queue (q : nat) (subs : Subscribers) : Subscribers :=
  match subs with
  | [] => []
  | (k, l) :: subs' =>
      if existsb (Nat.eqb q) l then
        match list_remove q l with
        | [] => subs'
        | l' => (k, l') :: subs'
        end
      else (k, l) :: remove_queue q subs'
  end.

Definition unsubscribe (consumer : QueueEventConsumer) (self : State) : State :=
  mkState (remove_queue (queue consumer) (subscribers self)) (queues self).

(** A run of the bus: calls made one after the other. *)
Inductive Call : Type :=
  | Publish (event : BaseEvent)
  | Subscribe (event_types : EventTypes)
  | Unsubscribe (consumer : QueueEventConsumer).

Definition call (self : State) (c : Call) : State :=
  match c with
  | Publish event => publish event self
  | Subscribe ets => snd (subscribe ets self)
  | Unsubscribe consumer => unsubscribe consumer self
  end.

Definition run (self : State) (calls : list Call) : State :=
  fold_left call calls self.

(** The events published by [calls] before the first [unsubscribe] of
    queue [q]. *)
Fixpoint published_while_subscribed (q : nat) (calls : list Call) : list BaseEvent :=
  match calls with
  | [] => []
  | Publish event :: calls' => event :: published_while_subscribed q calls'
  | Subscribe _ :: calls' => published_while_subscribed q calls'
  | Unsubscribe consumer :: calls' =>
      if Nat.eqb (queue consumer) q then []
      else published_while_subscribed q calls'
  end.

(** The filter of a consumer, read as a predicate on events. *)
Definition accepts (ets : EventTypes) (event : BaseEvent) : bool :=
  match ets with
  | PyNone => true
  | PySet s | PyFrozenset s => bool_decide (type event ∈ s)
  end.

End EventBus.

(* ===================================================================== *)
(** * transport.py: the inbound event sequences *)
(* ===================================================================== *)

(** How an async generator of events ended. *)
Inductive StreamEnd : Type :=
  | Exhausted                 (* the source ended; the generator returned *)
  | Propagated (e : exn)      (* an exception left the generator *)
  | Unmodelled (b : beyond).  (* a frame left the embedded data model *)

(** [yield event] followed by the rest of the stream. *)
Definition yield_then (event : BaseEvent) (rest : list BaseEvent * StreamEnd)
    : list BaseEvent * StreamEnd :=
  (event :: fst rest, snd rest).

Module SSETransport.

(** [str.isspace] on code points 0..255. *)
Definition is_space (c : ascii) : bool :=
  let n := N_of_ascii c in
  ((9 <=? n)%N && (n <=? 13)%N) || ((28 <=? n)%N && (n <=? 32)%N)
  || (n =? 133)%N || (n =? 160)%N.

Fixpoint lstrip (s : string) : string :=
  match s with
  | String c s' => if is_space c then lstrip s' else s
  | EmptyString => EmptyString
  end.

(** [s.rstrip()]: a character is kept when something that is not white
    space follows it or it is itself not white space. *)
Fixpoint rstrip (s : string) : string :=
  match s with
  | String c s' =>
      match rstrip s' with
      | EmptyString => if is_space c then EmptyString else String c EmptyString
      | t => String c t
      end
  | EmptyString => EmptyString
  end.

Definition strip (s : string) : string := rstrip (lstrip s).

(** The value of a continuation byte (10xxxxxx). *)
Definition continuation (b : ascii) : option N :=
  let n := N_of_ascii b in
  if (128 <=? n)%N && (n <=? 191)%N then Some (n - 128)%N else None.

(** The code points a byte string stands for in UTF-8; None when it is not
    UTF-8. As the codec in its strict mode, this refuses a byte sequence
    that is cut short, an encoding longer than needed, a surrogate
    (D800..DFFF) and a code point above 10FFFF. *)
Fixpoint utf8_code_points (bytes : string) : option (list N) :=
  match bytes with
  | EmptyString => Some []
  | String b0 r0 =>
      let n0 := N_of_ascii b0 in
      if (n0 <? 128)%N then option_map (cons n0) (utf8_code_points r0)
      else if (n0 <? 194)%N then None
      else if (n0 <? 224)%N then
        match r0 with
        | String b1 r1 =>
            match continuation b1 with
            | Some c1 => option_map (cons ((n0 - 192) * 64 + c1)%N) (utf8_code_points r1)
            | None => None
            end
        | EmptyString => None
        end
      else if (n0 <? 240)%N then
        match r0 with
        | String b1 (String b2 r2) =>
            match continuation b1, continuation b2 with
            | Some c1, Some c2 =>
                let cp := (((n0 - 224) * 64 + c1) * 64 + c2)%N in
                if (cp <? 2048)%N || ((55296 <=? cp)%N && (cp <=? 57343)%N) then None
                else option_map (cons cp) (utf8_code_points r2)
            | _, _ => None
            end
        | _ => None
        end
      else if (n0 <? 245)%N then
        match r0 with
        | String b1 (String b2 (String b3 r3)) =>
            match continuation b1, continuation b2, continuation b3 with
            | Some c1, Some c2, Some c3 =>
                let cp := ((((n0 - 240) * 64 + c1) * 64 + c2) * 64 + c3)%N in
                if (cp <? 65536)%N || (1114111 <? cp)%N then None
                else option_map (cons cp) (utf8_code_points r3)
            | _, _, _ => None
            end
        | _ => None
        end
      else None
  end.

(** [line.decode('utf-8')]: UnicodeDecodeError when the bytes are not
    UTF-8; a text with a code point above 255 is outside the embedding. *)
Definition decode (bytes : string) : res string :=
  match utf8_code_points bytes with
  | None => Raise UnicodeDecodeError
  | Some code_points =>
      if forallb (fun n => (n <? 256)%N) code_points
      then Ret (string_of_list_ascii (map ascii_of_N code_points))
      else Outside WideChar
  end.

(** The loop over [self.response.content]; [lines] are the lines of the
    response body, as bytes. The decoding of a line stands outside the
    [try], so its UnicodeDecodeError leaves the generator. The [try] holds
    both [json.loads] and [BaseEvent.from_dict]; only JSONDecodeError is
    caught. *)
Fixpoint receive_events (lines : list string) : list BaseEvent * StreamEnd :=
  match lines with
  | [] => ([], Exhausted)
  | raw :: lines' =>
      match decode raw with
      | Ret text =>
          match strip text with
          | EmptyString => receive_events lines'
          | line =>
              match starts_with "data: " line with
              | Some data =>
                  match loads data with
                  | Ret event_data =>
                      match BaseEvent.from_dict event_data with
                      | Ret event => yield_then event (receive_events lines')
                      | Raise JSONDecodeError => receive_events lines'
                      | Raise e => ([], Propagated e)
                      | Outside b => ([], Unmodelled b)
                      end
                  | Raise JSONDecodeError => receive_events lines'
                  | Raise e => ([], Propagated e)
                  | Outside b => ([], Unmodelled b)
                  end
              | None => receive_events lines'
              end
          end
      | Raise e => ([], Propagated e)
      | Outside b => ([], Unmodelled b)
      end
  end.

End SSETransport.

Module WebSocketTransport.

(** The [while True] loop over [self.websocket.recv()]; [messages] are
    the text frames received before the peer closes the connection, at
    which point [recv] raises ConnectionClosed and the loop breaks. A
    text frame arrives as a [str]; binary frames are not modelled. *)
Fixpoint receive_events (messages : list string) : list BaseEvent * StreamEnd :=
  match messages with
  | [] => ([], Exhausted)
  | message :: messages' =>
      match BaseEvent.from_json message with
      | Ret event => yield_then event (receive_events messages')
      | Raise JSONDecodeError => receive_events messages'
      | Raise e => ([], Propagated e)
      | Outside b => ([], Unmodelled b)
      end
  end.

End WebSocketTransport.

(* ===================================================================== *)
(** * routes/agent.py: the agent workflow endpoints *)
(* ===================================================================== *)

Module Agent.

(** A [UUID] is its 128-bit integer. *)
Abbreviation UUID := N.

Definition nibble (u : N) (i : nat) : ascii :=
  hex_digit ((u / 16 ^ N.of_nat (31 - i)) mod 16)%N.

Definition hex_run (u : N) (start len : nat) : string :=
  string_of_list_ascii (map (nibble u) (seq start len)).

(** [str(workflow_id)]: 32 hexadecimal digits in groups of 8-4-4-4-12. *)
Definition uuid_str (u : UUID) : string :=
  hex_run u 0 8 +:+ "-" +:+ hex_run u 8 4 +:+ "-" +:+ hex_run u 12 4
  +:+ "-" +:+ hex_run u 16 4 +:+ "-" +:+ hex_run u 20 12.

(** ** The external engine (langgraph_citadel.agent.AgentWorkflow) *)

(** What an awaited engine method did. *)
Inductive Outcome : Type :=
  | Returns
  | Raises (message : string).

(** The methods the routes call on a workflow object. *)
Inductive EngineCall : Type :=
  | on_event
  | arun (input_data : JSON)
  | submit_action (action_type : string) (action_data : Dict)
  | submit_feedback (feedback_type : string) (feedback_data : Dict)
  | cancel.

(** An engine-native event handed to the callback: a dict that may hold
    ["type"], ["timestamp"] and ["data"]. *)
Record EngineEvent : Type := mkEngineEvent {
  engine_type : option string;
  engine_timestamp : option Z;
  engine_data : option Dict
}.

(** ** Request and response models *)

Record StartAgentWorkflowRequest : Type := mkStartRequest {
  request_config : Dict;
  request_input : JSON
}.

Record AgentActionRequest : Type := mkActionRequest {
  action_type : string;
  action_data : Dict
}.

Record AgentFeedbackRequest : Type := mkFeedbackRequest {
  feedback_type : string;
  feedback_data : Dict
}.

Record WorkflowResponse : Type := mkWorkflowResponse {
  response_workflow_id : UUID;
  response_status : string;
  message : string
}.

Record AgentStatusResponse : Type := mkStatusResponse {
  status_workflow_id : UUID;
  status_status : string;
  status_config : Dict;
  status_result : option JSON;
  status_error : option string
}.

(** ** The module state *)

(** An entry of [active_workflows]. [result] is None until completion;
    the key ["error"] is absent until a failure. *)
Record WorkflowData : Type := mkWorkflowData {
  workflow : nat;
  status : string;
  config : Dict;
  input : JSON;
  result : option JSON;
  error : option string
}.

(** The [data] argument of [_emit_event]: a plain dict, or the
    [AgentEventResponse.dict()] built by [_handle_workflow_event], whose
    ["workflow_id"] is a UUID object. *)
Inductive EventPayload : Type :=
  | Plain (d : Dict)
  | AgentEventResponse_dict (workflow_id : UUID) (event_type : string)
      (timestamp : option Z) (data : Dict).

(** The [event_data] dict put into the subscriber queues. *)
Record EventData : Type := mkEventData {
  workflow_id : string;
  event_type : string;
  timestamp : Z;
  data : EventPayload
}.

Record State : Type := mkState {
  active_workflows : gmap UUID WorkflowData;
  event_queues : gmap UUID (list nat);
  queues : Queues EventData;
  engine_calls : list (nat * EngineCall);   (* calls made so far, oldest first *)
  next_workflow : nat                       (* workflow objects created so far *)
}.

Definition init : State := mkState ∅ ∅ no_queues [] 0.

Definition set_workflows (f : gmap UUID WorkflowData -> gmap UUID WorkflowData)
    (st : State) : State :=
  mkState (f (active_workflows st)) (event_queues st) (queues st)
    (engine_calls st) (next_workflow st).

Definition set_event_queues (f : gmap UUID (list nat) -> gmap UUID (list nat))
    (st : State) : State :=
  mkState (active_workflows st) (f (event_queues st)) (queues st)
    (engine_calls st) (next_workflow st).

Definition set_queues (f : Queues EventData -> Queues EventData) (st : State) : State :=
  mkState (active_workflows st) (event_queues st) (f (queues st))
    (engine_calls st) (next_workflow st).

(** Record a call on the workflow object [w]. *)
Definition engine_call (w : nat) (c : EngineCall) (st : State) : State :=
  mkState (active_workflows st) (event_queues st) (queues st)
    (engine_calls st ++ [(w, c)]) (next_workflow st).

Definition set_status (s : string) (d : WorkflowData) : WorkflowData :=
  mkWorkflowData (workflow d) s (config d) (input d) (result d) (error d).

Definition set_result (r : JSON) (d : WorkflowData) : WorkflowData :=
  mkWorkflowData (workflow d) (status d) (config d) (input d) (Some r) (error d).

Definition set_error (e : string) (d : WorkflowData) : WorkflowData :=
  mkWorkflowData (workflow d) (status d) (config d) (input d) (result d) (Some e).

(** ** _emit_event *)

Definition _emit_event (wid : UUID) (event_type : string) (data : EventPayload)
    (now : Z) (st : State) : State :=
  match event_queues st !! wid with
  | None => st
  | Some subscribers =>
      let event_data := mkEventData (uuid_str wid) event_type now data in
      set_queues (fun qs => fold_left (fun acc q => put q event_data acc) subscribers qs) st
  end.

(** ** start_agent_workflow and _run_agent_workflow *)

(** [wid] is the value of [uuid4()]. The handler when the constructors
    [AgentConfig(...)] and [AgentWorkflow(...)] of the engine return. *)
Definition start_agent_workflow (wid : UUID) (request : StartAgentWorkflowRequest)
    (st : State) : WorkflowResponse * State :=
  let w := next_workflow st in
  let st1 := set_event_queues (fun m => <[wid := []]> m) st in
  let st2 := mkState
               (<[wid := mkWorkflowData w "initializing" (request_config request)
                          (request_input request) None None]> (active_workflows st1))
               (event_queues st1) (queues st1) (engine_calls st1) (S w) in
  (mkWorkflowResponse wid "initializing" "Agent workflow started successfully", st2).

(** The handler when one of the two constructors raises: the exception
    leaves the handler after [event_queues[workflow_id] = []] and before
    the entry of [active_workflows] is written. *)
Definition start_failure (wid : UUID) (st : State) : State :=
  set_event_queues (fun m => <[wid := []]> m) st.

(** [_run_agent_workflow] up to [await workflow.arun(input_data)]. *)
Definition run_begin (wid : UUID) (now : Z) (st : State) : State :=
  match active_workflows st !! wid with
  | None => st
  | Some d =>
      let st1 := set_workflows (fun m => <[wid := set_status "running" d]> m) st in
      let st2 := _emit_event wid "status_update" (Plain [("status", JStr "running")]) now st1 in
      engine_call (workflow d) (arun (input d)) (engine_call (workflow d) on_event st2)
  end.

(** [_run_agent_workflow] after [arun] returned [r]. *)
Definition run_result (wid : UUID) (r : JSON) (now : Z) (st : State) : State :=
  match active_workflows st !! wid with
  | None => st
  | Some d =>
      let st1 := set_workflows
                   (fun m => <[wid := set_result r (set_status "completed" d)]> m) st in
      _emit_event wid "completion" (Plain [("status", JStr "completed"); ("result", r)]) now st1
  end.

(** The [except] branch of [_run_agent_workflow]: [arun] raised and
    [str(e)] is [msg]. *)
Definition run_failure (wid : UUID) (msg : string) (now : Z) (st : State) : State :=
  match active_workflows st !! wid with
  | None => st
  | Some d =>
      let st1 := set_workflows
                   (fun m => <[wid := set_error msg (set_status "error" d)]> m) st in
      _emit_event wid "error" (Plain [("status", JStr "error"); ("error", JStr msg)]) now st1
  end.

(** ** _handle_workflow_event *)

Definition _handle_workflow_event (wid : UUID) (event : EngineEvent) (now : Z)
    (st : State) : State :=
  let ag_ui_event_type := default "unknown" (engine_type event) in
  let ag_ui_event :=
    AgentEventResponse_dict wid ag_ui_event_type (engine_timestamp event)
      (default [] (engine_data event)) in
  _emit_event wid ag_ui_event_type ag_ui_event now st.

(** ** get_workflow_status *)

Definition not_found (wid : UUID) : exn :=
  HTTPException 404 ("Workflow " +:+ uuid_str wid +:+ " not found").

Definition get_workflow_status (wid : UUID) (st : State) : res AgentStatusResponse :=
  match active_workflows st !! wid with
  | None => Raise (not_found wid)
  | Some d => Ret (mkStatusResponse wid (status d) (config d) (result d) (error d))
  end.

(** ** submit_agent_action *)

(** [status not in ["running", "waiting_for_input"]]. *)
Definition accepts_actions (s : string) : bool :=
  String.eqb s "running" || String.eqb s "waiting_for_input".

(** [engine] is what [await workflow.submit_action(...)] does. *)
Definition submit_agent_action (wid : UUID) (request : AgentActionRequest)
    (engine : Outcome) (now : Z) (st : State) : res WorkflowResponse * State :=
  match active_workflows st !! wid with
  | None => (Raise (not_found wid), st)
  | Some d =>
      if negb (accepts_actions (status d)) then
        (Raise (HTTPException 400
                  ("Workflow is in " +:+ status d +:+ " state and cannot receive actions")),
         st)
      else
        let st1 := engine_call (workflow d)
                     (submit_action (action_type request) (action_data request)) st in
        match engine with
        | Returns =>
            let st2 := _emit_event wid "action_submitted"
                         (Plain [("action_type", JStr (action_type request));
                                 ("action_data", JDict (action_data request))]) now st1 in
            (Ret (mkWorkflowResponse wid (status d) "Action submitted successfully"), st2)
        | Raises msg => (Raise (HTTPException 500 msg), st1)
        end
  end.

(** ** submit_agent_feedback *)

Definition submit_agent_feedback (wid : UUID) (request : AgentFeedbackRequest)
    (engine : Outcome) (now : Z) (st : State) : res WorkflowResponse * State :=
  match active_workflows st !! wid with
  | None => (Raise (not_found wid), st)
  | Some d =>
      let st1 := engine_call (workflow d)
                   (submit_feedback (feedback_type request) (feedback_data request)) st in
      match engine with
      | Returns =>
          let st2 := _emit_event wid "feedback_submitted"
                       (Plain [("feedback_type", JStr (feedback_type request));
                               ("feedback_data", JDict (feedback_data request))]) now st1 in
          (Ret (mkWorkflowResponse wid (status d) "Feedback submitted successfully"), st2)
      | Raises msg => (Raise (HTTPException 500 msg), st1)
      end
  end.

(** ** cancel_workflow *)

Definition cancel_workflow (wid : UUID) (engine : Outcome) (now : Z) (st : State)
    : res WorkflowResponse * State :=
  match active_workflows st !! wid with
  | None => (Raise (not_found wid), st)
  | Some d =>
      let st1 := engine_call (workflow d) cancel st in
      match engine with
      | Returns =>
          let st2 := set_workflows (fun m => <[wid := set_status "cancelled" d]> m) st1 in
          let st3 := _emit_event wid "cancelled" (Plain [("status", JStr "cancelled")]) now st2 in
          (Ret (mkWorkflowResponse wid "cancelled" "Workflow cancelled successfully"), st3)
      | Raises msg => (Raise (HTTPException 500 msg), st1)
      end
  end.

(** ** subscribe_to_workflow_events *)

Definition connection_established (wid : UUID) (now : Z) (d : WorkflowData) : EventData :=
  mkEventData (uuid_str wid) "connection_established" now
    (Plain [("status", JStr (status d))]).

(** The handler up to the definition of [event_generator]: returns the
    queue the generator closes over. *)
Definition subscribe_to_workflow_events (wid : UUID) (now : Z) (st : State)
    : res nat * State :=
  match active_workflows st !! wid with
  | None => (Raise (not_found wid), st)
  | Some d =>
      let (q, qs) := new_queue (queues st) in
      let registry := match event_queues st !! wid with
                      | Some l => l
                      | None => []
                      end in
      let st1 := mkState (active_workflows st) (<[wid := registry ++ [q]]> (event_queues st))
                   (put q (connection_established wid now d) qs)
                   (engine_calls st) (next_workflow st) in
      (Ret q, st1)
  end.

(** ** event_generator *)

(** Where the generator object stands. *)
Inductive Pc : Type :=
  | NotStarted          (* created, body not entered *)
  | AtDataYield         (* suspended at the yield inside the inner [try] *)
  | AtKeepaliveYield    (* suspended at the yield inside the [except] *)
  | Finished.           (* returned or raised *)

(** A generator object with the variables it closes over. [taken] counts
    the items it has got from its queue. [entered] and [finalized] are
    bookkeeping: whether the [try] was entered, and how often the
    [finally] block has run. *)
Record Generator : Type := mkGenerator {
  gen_workflow_id : UUID;
  gen_queue : nat;
  pc : Pc;
  taken : nat;
  entered : bool;
  finalized : nat
}.

Definition event_generator (wid : UUID) (q : nat) : Generator :=
  mkGenerator wid q NotStarted 0 false 0.

(** [await request.is_disconnected()]. *)
Inductive Poll : Type :=
  | Connected
  | Disconnected
  | PollRaises (e : exn).

(** What the consumer of the generator does with it. [ANext poll
    interrupt] resumes it for one iteration: [poll] is the outcome of the
    disconnect check and [interrupt] an exception raised by the wait on
    the queue other than through the queue being empty, if any (a
    cancellation, say); with no interrupt the wait returns the next item,
    or times out when there is none. *)
Inductive GenCall : Type :=
  | ANext (poll : Poll) (interrupt : option exn)
  | AThrow (e : exn)
  | AClose.

(** What the awaited call answers: a chunk, an exception, or None (an
    [aclose()] that ended the generator, and [athrow] or [aclose] on a
    generator that has finished). *)
Inductive GenOut : Type :=
  | Yielded (chunk : string)
  | StopAsyncIteration
  | Raised (e : exn)
  | ReturnedNone.

(** [json.dumps(event)]; None stands for the TypeError raised on the UUID
    object inside an [AgentEventResponse.dict()]. *)
Definition dumps_event (event : EventData) : option string :=
  match data event with
  | Plain d =>
      Some (dumps (JDict [("workflow_id", JStr (workflow_id event));
                          ("event_type", JStr (event_type event));
                          ("timestamp", JInt (timestamp event));
                          ("data", JDict d)]))
  | AgentEventResponse_dict _ _ _ _ => None
  end.

Definition newline : string := String "010"%char EmptyString.

(** The [finally] block. *)
Definition release (g : Generator) (st : State) : State :=
  match event_queues st !! gen_workflow_id g with
  | Some l =>
      if existsb (Nat.eqb (gen_queue g)) l
      then set_event_queues
             (fun m => <[gen_workflow_id g := EventBus.list_remove (gen_queue g) l]> m) st
      else st
  | None => st
  end.

(** Leaving the [try] statement: the [finally] block runs, then the
    generator is finished. *)
Definition leave (out : GenOut) (taken' : nat) (g : Generator) (st : State)
    : GenOut * Generator * State :=
  (out,
   mkGenerator (gen_workflow_id g) (gen_queue g) Finished taken' true (S (finalized g)),
   release g st).

Definition suspend (at_pc : Pc) (chunk : string) (taken' : nat) (g : Generator)
    (st : State) : GenOut * Generator * State :=
  (Yielded chunk,
   mkGenerator (gen_workflow_id g) (gen_queue g) at_pc taken' true (finalized g),
   st).

Definition keepalive : string := ": keepalive" +:+ newline +:+ newline.

(** One pass through the body of [while True]. *)
Definition iteration (poll : Poll) (interrupt : option exn) (g : Generator)
    (st : State) : GenOut * Generator * State :=
  match poll with
  | Disconnected => leave StopAsyncIteration (taken g) g st
  | PollRaises e => leave (Raised e) (taken g) g st
  | Connected =>
      match interrupt with
      | Some TimeoutError => suspend AtKeepaliveYield keepalive (taken g) g st
      | Some e => leave (Raised e) (taken g) g st
      | None =>
          match received (queues st) (gen_queue g) !! taken g with
          | Some event =>
              match dumps_event event with
              | Some text =>
                  suspend AtDataYield ("data: " +:+ text +:+ newline +:+ newline)
                    (S (taken g)) g st
              | None => leave (Raised TypeError) (S (taken g)) g st
              end
          | None => suspend AtKeepaliveYield keepalive (taken g) g st
          end
      end
  end.

(** The generator protocol. *)
Definition resume (c : GenCall) (g : Generator) (st : State)
    : GenOut * Generator * State :=
  match pc g with
  | NotStarted =>
      match c with
      | ANext poll interrupt => iteration poll interrupt g st
      | AThrow e =>
          (Raised e,
           mkGenerator (gen_workflow_id g) (gen_queue g) Finished (taken g) false (finalized g),
           st)
      | AClose =>
          (ReturnedNone,
           mkGenerator (gen_workflow_id g) (gen_queue g) Finished (taken g) false (finalized g),
           st)
      end
  | AtDataYield =>
      match c with
      | ANext poll interrupt => iteration poll interrupt g st
      | AThrow TimeoutError => suspend AtKeepaliveYield keepalive (taken g) g st
      | AThrow e => leave (Raised e) (taken g) g st
      | AClose => leave ReturnedNone (taken g) g st
      end
  | AtKeepaliveYield =>
      match c with
      | ANext poll interrupt => iteration poll interrupt g st
      | AThrow e => leave (Raised e) (taken g) g st
      | AClose => leave ReturnedNone (taken g) g st
      end
  | Finished =>
      match c with
      | ANext _ _ => (StopAsyncIteration, g, st)
      | AThrow _ => (ReturnedNone, g, st)
      | AClose => (ReturnedNone, g, st)
      end
  end.

(** ** The whole module as a transition system *)

(** The module state together with the generator objects alive, keyed by
    the queue each one closes over. *)
Record System : Type := mkSystem {
  state : State;
  generators : gmap nat Generator
}.

Definition boot : System := mkSystem init ∅.

(** What can happen, one event-loop step at a time. *)
Inductive Action : Type :=
  | StartAgentWorkflow (wid : UUID) (request : StartAgentWorkflowRequest)
  | RunBegin (wid : UUID) (now : Z)
  | RunResult (wid : UUID) (r : JSON) (now : Z)
  | RunFailure (wid : UUID) (msg : string) (now : Z)
  | HandleWorkflowEvent (wid : UUID) (event : EngineEvent) (now : Z)
  | SubmitAgentAction (wid : UUID) (request : AgentActionRequest) (engine : Outcome) (now : Z)
  | SubmitAgentFeedback (wid : UUID) (request : AgentFeedbackRequest) (engine : Outcome) (now : Z)
  | CancelWorkflow (wid : UUID) (engine : Outcome) (now : Z)
  | SubscribeToWorkflowEvents (wid : UUID) (now : Z)
  | Resume (q : nat) (c : GenCall)
  | StartFailure (wid : UUID).

Definition step (sys : System) (a : Action) : System :=
  match a with
  | StartAgentWorkflow wid request =>
      mkSystem (snd (start_agent_workflow wid request (state sys))) (generators sys)
  | RunBegin wid now => mkSystem (run_begin wid now (state sys)) (generators sys)
  | RunResult wid r now => mkSystem (run_result wid r now (state sys)) (generators sys)
  | RunFailure wid msg now => mkSystem (run_failure wid msg now (state sys)) (generators sys)
  | HandleWorkflowEvent wid event now =>
      mkSystem (_handle_workflow_event wid event now (state sys)) (generators sys)
  | SubmitAgentAction wid request engine now =>
      mkSystem (snd (submit_agent_action wid request engine now (state sys))) (generators sys)
  | SubmitAgentFeedback wid request engine now =>
      mkSystem (snd (submit_agent_feedback wid request engine now (state sys))) (generators sys)
  | CancelWorkflow wid engine now =>
      mkSystem (snd (cancel_workflow wid engine now (state sys))) (generators sys)
  | SubscribeToWorkflowEvents wid now =>
      match subscribe_to_workflow_events wid now (state sys) with
      | (Ret q, st) => mkSystem st (<[q := event_generator wid q]> (generators sys))
      | (_, st) => mkSystem st (generators sys)
      end
  | Resume q c =>
      match generators sys !! q with
      | Some g =>
          match resume c g (state sys) with
          | (_, g', st) => mkSystem st (<[q := g']> (generators sys))
          end
      | None => sys
      end
  | StartFailure wid => mkSystem (start_failure wid (state sys)) (generators sys)
  end.

Definition run (sys : System) (trace : list Action) : System :=
  fold_left step trace sys.

End Agent.

(* ===================================================================== *)
(** * events.py: the consumers *)
(* ===================================================================== *)

Module QueueEventConsumer.

(** The generator [consume]: [handed] are the items [self.queue.get()]
    has returned so far, oldest first; the result is what the generator
    has yielded by then. The loop never ends by itself. *)
Definition consume (self : EventBus.QueueEventConsumer) (handed : list BaseEvent)
    : list BaseEvent :=
  List.filter (EventBus.accepts (EventBus.event_types self)) handed.

End QueueEventConsumer.

Module TransportEventConsumer.

(** The generator [consume] over [self.transport.receive_events()]: the
    events of the transport that pass the filter; the stream ends the way
    the transport's stream ends. *)
Definition consume (event_types : EventBus.EventTypes)
    (stream : list BaseEvent * StreamEnd) : list BaseEvent * StreamEnd :=
  (List.filter (EventBus.accepts event_types) (fst stream), snd stream).

End TransportEventConsumer.

(* ===================================================================== *)
(** * transport.py: the transport objects and the server side *)
(* ===================================================================== *)

(** Whether an awaited network call returns or raises. *)
Inductive Network : Type :=
  | Succeeds
  | Fails.

(** How a method of a transport object ends. *)
Inductive Ending : Type :=
  | Returned
  | NetworkError               (* the exception of the failed network call *)
  | AssertionFailed            (* an [assert] statement failed *)
  | NotImplemented.            (* NotImplementedError *)


Module SSETransportObject.

(** The attributes of an [SSETransport]; a session or response object is
    named by a number. The three counters are bookkeeping: the sessions
    created so far and the calls of [session.close()] and
    [response.close()] made so far. *)
Record SSE : Type := mkSSE {
  session : option nat;
  response : option nat;
  _closed : bool;
  sessions_created : nat;
  session_closes : nat;
  response_closes : nat
}.

(** [SSETransport(url, headers)]. *)
Definition init : SSE := mkSSE None None false 0 0 0.

(** [net] is what [await self.session.get(...)] does. *)
Definition connect (net : Network) (self : SSE) : Ending * SSE :=
  match session self with
  | None =>
      let s := sessions_created self in
      match net with
      | Succeeds =>
          (Returned,
           mkSSE (Some s) (Some s) (_closed self) (S s) (session_closes self)
             (response_closes self))
      | Fails =>
          (NetworkError,
           mkSSE (Some s) (response self) (_closed self) (S s) (session_closes self)
             (response_closes self))
      end
  | Some _ => (Returned, self)
  end.

Definition send_event (event : BaseEvent) (self : SSE) : Ending * SSE :=
  (NotImplemented, self).

(** [receive_events] up to the loop over the response: the connection
    attempt and the [assert]. *)
Definition receive_events (net : Network) (self : SSE) : Ending * SSE :=
  let (ending, self1) :=
    match session self, response self with
    | Some _, Some _ => (Returned, self)
    | _, _ => connect net self
    end in
  match ending with
  | Returned =>
      match response self1 with
      | Some _ => (Returned, self1)
      | None => (AssertionFailed, self1)
      end
  | _ => (ending, self1)
  end.

Definition close (self : SSE) : SSE :=
  match session self with
  | Some _ =>
      if _closed self then self
      else mkSSE (session self) (response self) true (sessions_created self)
             (S (session_closes self))
             (match response self with
              | Some _ => S (response_closes self)
              | None => response_closes self
              end)
  | None => self
  end.

Inductive Call : Type :=
  | Connect (net : Network)
  | SendEvent (event : BaseEvent)
  | ReceiveEvents (net : Network)
  | Close.

Definition call (self : SSE) (c : Call) : SSE :=
  match c with
  | Connect net => snd (connect net self)
  | SendEvent event => snd (send_event event self)
  | ReceiveEvents net => snd (receive_events net self)
  | Close => close self
  end.

Definition run (self : SSE) (calls : list Call) : SSE := fold_left call calls self.

End SSETransportObject.

Module WebSocketTransportObject.

(** A connection object of the [websockets] library. *)
Inductive SocketState : Type :=
  | Open
  | ClosedByClient            (* [websocket.close()] was called *)
  | ClosedByPeer.

Record Socket : Type := mkSocket {
  socket_state : SocketState;
  sent : list string
}.

(** The attributes of a [WebSocketTransport], and the connections it has
    opened so far; a connection is named by its position in [sockets]. *)
Record WS : Type := mkWS {
  websocket : option nat;
  _closed : bool;
  sockets : list Socket
}.

(** [WebSocketTransport(url, headers)]. *)
Definition init : WS := mkWS None false [].

(** [self.websocket is None or self.websocket.closed]. *)
Definition disconnected (self : WS) : bool :=
  match websocket self with
  | None => true
  | Some i =>
      match sockets self !! i with
      | Some (mkSocket Open _) => false
      | _ => true
      end
  end.

(** [net] is what [await websockets.connect(...)] does. *)
Definition connect (net : Network) (self : WS) : Ending * WS :=
  if disconnected self then
    match net with
    | Succeeds =>
        (Returned,
         mkWS (Some (length (sockets self))) (_closed self)
           (sockets self ++ [mkSocket Open []]))
    | Fails => (NetworkError, self)
    end
  else (Returned, self).

Definition send (i : nat) (message : string) (self : WS) : WS :=
  mkWS (websocket self) (_closed self)
    (alter (fun s => mkSocket (socket_state s) (sent s ++ [message])) i (sockets self)).

Definition send_event (event : BaseEvent) (net : Network) (self : WS) : Ending * WS :=
  let (ending, self1) := if disconnected self then connect net self else (Returned, self) in
  match ending with
  | Returned =>
      match websocket self1 with
      | Some i => (Returned, send i (BaseEvent.to_json event) self1)
      | None => (AssertionFailed, self1)
      end
  | _ => (ending, self1)
  end.

(** [receive_events] up to its loop. *)
Definition receive_events (net : Network) (self : WS) : Ending * WS :=
  let (ending, self1) := if disconnected self then connect net self else (Returned, self) in
  match ending with
  | Returned =>
      match websocket self1 with
      | Some _ => (Returned, self1)
      | None => (AssertionFailed, self1)
      end
  | _ => (ending, self1)
  end.

Definition close (self : WS) : WS :=
  if _closed self then self
  else
    match websocket self with
    | Some i =>
        if disconnected self then self
        else mkWS (websocket self) true
               (alter (fun s => mkSocket ClosedByClient (sent s)) i (sockets self))
    | None => self
    end.

(** The other end closes connection [i]. *)
Definition peer_closes (i : nat) (self : WS) : WS :=
  mkWS (websocket self) (_closed self)
    (alter (fun s => match socket_state s with
                     | Open => mkSocket ClosedByPeer (sent s)
                     | _ => s
                     end) i (sockets self)).

Inductive Call : Type :=
  | Connect (net : Network)
  | SendEvent (event : BaseEvent) (net : Network)
  | ReceiveEvents (net : Network)
  | Close
  | PeerCloses (i : nat).

Definition call (self : WS) (c : Call) : WS :=
  match c with
  | Connect net => snd (connect net self)
  | SendEvent event net => snd (send_event event net self)
  | ReceiveEvents net => snd (receive_events net self)
  | Close => close self
  | PeerCloses i => peer_closes i self
  end.

Definition run (self : WS) (calls : list Call) : WS := fold_left call calls self.

End WebSocketTransportObject.

Module TransportServer.


(** [websocket_handler]: [messages] are the text frames the connection
    delivers before it closes. [event_callback] tells what the callback
    raises for an event, if anything. The result lists the events the
    callback was called with, and how the handler ended: a
    JSONDecodeError is swallowed wherever it comes from, the closing of
    the connection ends the loop, every other exception leaves the
    handler. *)
Fixpoint websocket_handler (event_callback : BaseEvent -> option exn)
    (messages : list string) : list BaseEvent * StreamEnd :=
  match messages with
  | [] => ([], Exhausted)
  | message :: messages' =>
      match BaseEvent.from_json message with
      | Ret event =>
          match event_callback event with
          | None | Some JSONDecodeError =>
              yield_then event (websocket_handler event_callback messages')
          | Some e => ([event], Propagated e)
          end
      | Raise JSONDecodeError => websocket_handler event_callback messages'
      | Raise e => ([], Propagated e)
      | Outside b => ([], Unmodelled b)
      end
  end.

End TransportServer.

(* ===================================================================== *)
(** * ag_ui.py: the specialised event classes *)
(* ===================================================================== *)

Module EventClasses.

(** [BaseEvent] and its subclasses. *)
Inductive EventClass : Type :=
  | BaseEvent_class
  | RunStartedEvent_class | RunFinishedEvent_class
  | TextMessageStartEvent_class | TextMessageContentEvent_class | TextMessageEndEvent_class
  | ToolCallStartEvent_class | ToolCallArgsEvent_class | ToolCallEndEvent_class
  | StateSnapshotEvent_class | StateDeltaEvent_class
  | ErrorEvent_class.

(** An instance: its class and the two dataclass fields. *)
Record Instance : Type := mkInstance {
  class_of : EventClass;
  fields : BaseEvent
}.

(** The parameters of [__init__] after [self], each with whether it has a
    default. [BaseEvent] has the one [@dataclass] generates; a subclass
    defines its own, which [@dataclass] leaves in place. *)
Definition init_parameters (cls : EventClass) : list (string * bool) :=
  match cls with
  | BaseEvent_class => [("type", false); ("payload", true)]
  | RunStartedEvent_class | RunFinishedEvent_class => [("run_id", false)]
  | TextMessageStartEvent_class => [("message_id", false); ("sender", false)]
  | TextMessageContentEvent_class => [("message_id", false); ("content", false)]
  | TextMessageEndEvent_class => [("message_id", false)]
  | ToolCallStartEvent_class => [("tool_call_id", false); ("tool", false)]
  | ToolCallArgsEvent_class => [("tool_call_id", false); ("args", false)]
  | ToolCallEndEvent_class => [("tool_call_id", false); ("result", false)]
  | StateSnapshotEvent_class => [("state", false)]
  | StateDeltaEvent_class => [("patch", false)]
  | ErrorEvent_class => [("error_code", false); ("message", false); ("details", true)]
  end.

(** A call that passes keyword arguments only binds when every keyword
    names a parameter and every parameter without default is given;
    otherwise the call raises TypeError. *)
Definition keywords_bind (parameters : list (string * bool)) (keywords : list string)
    : bool :=
  forallb (fun k => existsb (fun p => String.eqb (fst p) k) parameters) keywords
  && forallb (fun p => snd p || existsb (String.eqb (fst p)) keywords) parameters.
















(** The methods every class inherits from [BaseEvent]. *)
Definition to_json (self : Instance) : string := BaseEvent.to_json (fields self).

(** The classmethod [from_dict] called on the class [cls]: the last line
    is the call [cls(type=event_type, payload=payload)]. *)
Definition from_dict (cls : EventClass) (data : JSON) : res Instance :=
  match BaseEvent.from_dict data with
  | Ret event =>
      if keywords_bind (init_parameters cls) ["type"; "payload"]
      then Ret (mkInstance cls event)
      else Raise TypeError
  | Raise e => Raise e
  | Outside b => Outside b
  end.

Definition from_json (cls : EventClass) (json_str : string) : res Instance :=
  match loads json_str with
  | Ret data => from_dict cls data
  | Raise e => Raise e
  | Outside b => Outside b
  end.


End EventClasses.

(* ===================================================================== *)
(** * events.py: emitters, EventProcessor and EventManager *)
(* ===================================================================== *)

Module EventManager.

(** The objects a [TransportEventEmitter] is built on in this code base:
    the two transports, and the [EventBus] that [create_emitter] passes. *)
Inductive TransportObject : Type :=
  | AnSSETransport
  | AWebSocketTransport
  | AnEventBus.

(** The methods the class of the object defines. *)
Definition methods (t : TransportObject) : list string :=
  match t with
  | AnSSETransport | AWebSocketTransport =>
      ["connect"; "send_event"; "receive_events"; "close"]
  | AnEventBus => ["publish"; "subscribe"; "unsubscribe"]
  end.

(** [self.transport.<name>] finds a method. *)
Definition has_method (t : TransportObject) (name : string) : bool :=
  existsb (String.eqb name) (methods t).

(** What [TransportEventEmitter.emit] raises, if anything: AttributeError
    when the object has no [send_event]; the [send_event] of
    [SSETransport] raises NotImplementedError, that of
    [WebSocketTransport] sends the event (the network call is taken to
    succeed). *)
Definition TransportEventEmitter_emit (t : TransportObject) (event : BaseEvent)
    : option exn :=
  if has_method t "send_event" then
    match t with
    | AWebSocketTransport => None
    | _ => Some NotImplementedError
    end
  else Some AttributeError.

(** What [TransportEventEmitter.close] raises, if anything. *)
Definition TransportEventEmitter_close (t : TransportObject) : option exn :=
  if has_method t "close" then None else Some AttributeError.

(** An [asyncio.Task]. *)
Inductive Task : Type :=
  | Running
  | Failed (e : exn)          (* done: the coroutine raised *)
  | Cancelled.

(** [task.done()]. *)
Definition done (t : Task) : bool :=
  match t with
  | Running => false
  | _ => true
  end.

(** An [EventProcessor] as [create_emitter] builds it: the consumer is
    a [QueueEventConsumer] without filter on the queue of the emitter
    handed out, the emitter a [TransportEventEmitter] on [transport],
    and there is no [transform_fn]. [consumed] counts the items the
    consumer has taken from its queue. *)
Record EventProcessor : Type := mkProcessor {
  consumer_queue : nat;
  transport : TransportObject;
  task : option Task;
  consumed : nat
}.

(** [EventProcessor.start]. *)
Definition start (p : EventProcessor) : EventProcessor :=
  match task p with
  | Some Running => p
  | _ => mkProcessor (consumer_queue p) (transport p) (Some Running) (consumed p)
  end.

(** The task of the processor runs until it blocks: [process_events]
    takes the items that are in the queue, one by one, and emits each; an
    exception of [emit] ends the task. [pending] are the items not yet
    taken. *)
Fixpoint process_events (t : TransportObject) (pending : list BaseEvent)
    : nat * option exn :=
  match pending with
  | [] => (0, None)
  | event :: pending' =>
      match TransportEventEmitter_emit t event with
      | None => let (n, e) := process_events t pending' in (S n, e)
      | Some e => (1, Some e)
      end
  end.

Definition task_step (queue_items : list BaseEvent) (p : EventProcessor) : EventProcessor :=
  match task p with
  | Some Running =>
      let (n, e) := process_events (transport p) (drop (consumed p) queue_items) in
      mkProcessor (consumer_queue p) (transport p)
        (match e with
         | Some e => Some (Failed e)
         | None => Some Running
         end)
        (consumed p + n)
  | _ => p
  end.

(** [EventProcessor.stop]: the task is cancelled if it is not done, then
    consumer and emitter are closed; closing a queue consumer does
    nothing. *)
Definition stop (p : EventProcessor) : option exn * EventProcessor :=
  let p1 := match task p with
            | Some Running =>
                mkProcessor (consumer_queue p) (transport p) (Some Cancelled) (consumed p)
            | _ => p
            end in
  (TransportEventEmitter_close (transport p), p1).

(** The attributes of an [EventManager]; [emitter_queues] are the queues
    of the emitters handed out by [create_emitter]. *)
Record Manager : Type := mkManager {
  event_bus : EventBus.State;
  processors : list EventProcessor;
  run_id : string;
  emitter_queues : Queues BaseEvent
}.

(** [EventManager()]; [id] is the value of [str(uuid.uuid4())]. *)
Definition init (id : string) : Manager := mkManager EventBus.init [] id no_queues.

Definition start_run (id : string) (self : Manager) : Manager :=
  mkManager
    (EventBus.publish (mkBaseEvent RUN_STARTED (JDict [("runId", JStr id)])) (event_bus self))
    (processors self) id (emitter_queues self).

Definition end_run (self : Manager) : Manager :=
  mkManager
    (EventBus.publish (mkBaseEvent RUN_FINISHED (JDict [("runId", JStr (run_id self))]))
       (event_bus self))
    (processors self) (run_id self) (emitter_queues self).

(** Returns the queue of the [QueueEventEmitter] handed out. *)
Definition create_emitter (self : Manager) : nat * Manager :=
  let (q, qs) := new_queue (emitter_queues self) in
  let processor := start (mkProcessor q AnEventBus None 0) in
  (q, mkManager (event_bus self) (processors self ++ [processor]) (run_id self) qs).

Definition create_consumer (event_types : EventBus.EventTypes) (self : Manager)
    : res EventBus.QueueEventConsumer * Manager :=
  let (r, bus) := EventBus.subscribe event_types (event_bus self) in
  (r, mkManager bus (processors self) (run_id self) (emitter_queues self)).

(** [QueueEventEmitter.emit] on the emitter with queue [q]. *)
Definition emit (q : nat) (event : BaseEvent) (self : Manager) : Manager :=
  mkManager (event_bus self) (processors self) (run_id self)
    (put q event (emitter_queues self)).

(** The event loop runs the task of processor [i]. *)
Definition run_task (i : nat) (self : Manager) : Manager :=
  mkManager (event_bus self)
    (alter (fun p => task_step (received (emitter_queues self) (consumer_queue p)) p)
       i (processors self))
    (run_id self) (emitter_queues self).

(** The loop of [close] over [self.processors]: it ends at the first
    [stop] that raises. *)
Fixpoint stop_all (ps : list EventProcessor) : option exn * list EventProcessor :=
  match ps with
  | [] => (None, [])
  | p :: ps' =>
      match stop p with
      | (None, p1) => let (r, ps1) := stop_all ps' in (r, p1 :: ps1)
      | (Some e, p1) => (Some e, p1 :: ps')
      end
  end.

(** [close]: [self.processors.clear()] is reached when no [stop]
    raised. *)
Definition close (self : Manager) : option exn * Manager :=
  match stop_all (processors self) with
  | (None, _) => (None, mkManager (event_bus self) [] (run_id self) (emitter_queues self))
  | (Some e, ps) =>
      (Some e, mkManager (event_bus self) ps (run_id self) (emitter_queues self))
  end.

Inductive Call : Type :=
  | StartRun (id : string)
  | EndRun
  | CreateEmitter
  | CreateConsumer (event_types : EventBus.EventTypes)
  | Emit (q : nat) (event : BaseEvent)
  | RunTask (i : nat)
  | Close.

Definition call (self : Manager) (c : Call) : Manager :=
  match c with
  | StartRun id => start_run id self
  | EndRun => end_run self
  | CreateEmitter => snd (create_emitter self)
  | CreateConsumer event_types => snd (create_consumer event_types self)
  | Emit q event => emit q event self
  | RunTask i => run_task i self
  | Close => snd (close self)
  end.

Definition run (self : Manager) (calls : list Call) : Manager := fold_left call calls self.

End EventManager.

(* ===================================================================== *)
(** * Facts about json.dumps and json.loads *)
(* ===================================================================== *)

Module JsonFacts.
Import Json.
#[local] Arguments String.append !s1 s2 : simpl nomatch.





(** ** Numbers *)



(** The text that may follow a value written by [dumps]. *)
Definition closes (rest : string) : Prop :=
  match rest with
  | EmptyString => True
  | String c _ => c = ","%char \/ c = "]"%char \/ c = "}"%char
  end.


Lemma closes_skip_ws (rest : string) : closes rest -> skip_ws rest = rest.
Proof.
  destruct rest as [|c r]; simpl; [auto|].
  intros [-> | [-> | ->]]; reflexivity.
Qed.





(** ** Induction on JSON values *)

Section JSON_induction.
Variable P : JSON -> Prop.
Hypothesis Hnull : P JNull.
Hypothesis Hbool : forall b, P (JBool b).
Hypothesis Hint : forall z, P (JInt z).
Hypothesis Hstr : forall s, P (JStr s).
Hypothesis Hlist : forall l, Forall P l -> P (JList l).
Hypothesis Hdict : forall d, Forall (fun kv => P (snd kv)) d -> P (JDict d).

Fixpoint JSON_ind (v : JSON) : P v :=
  match v with
  | JNull => Hnull
  | JBool b => Hbool b
  | JInt z => Hint z
  | JStr s => Hstr s
  | JList l =>
      Hlist l ((fix go (l : list JSON) : Forall P l :=
                  match l with
                  | [] => @List.Forall_nil _ P
                  | x :: l' => @List.Forall_cons _ P x l' (JSON_ind x) (go l')
                  end) l)
  | JDict d =>
      Hdict d ((fix go (d : list (string * JSON)) : Forall (fun kv => P (snd kv)) d :=
                  match d with
                  | [] => @List.Forall_nil _ _
                  | kv :: d' =>
                      @List.Forall_cons _ (fun kv => P (snd kv)) kv d'
                        (JSON_ind (snd kv)) (go d')
                  end) d)
  end.
End JSON_induction.










(** ** dict(pairs) on distinct keys *)




(** ** Reading back what [dumps] wrote *)





Lemma join_cons2 (sep a b : string) (l : list string) :
  join sep (a :: b :: l) = a +:+ sep +:+ join sep (b :: l).
Proof. reflexivity. Qed.


Lemma colon_space (s : string) : ": " +:+ s = String ":" (String " " s).
Proof. reflexivity. Qed.













(** ** The default fuel of [loads] is enough *)







(** ** The recursion bound of [loads] is never reached *)

Lemma skip_ws_length (s : string) : String.length (skip_ws s) <= String.length s.
Proof.
  induction s as [|c s IH]; simpl; [lia|]. destruct (is_ws c); simpl; lia.
Qed.

Lemma scan_map_scanned {A B} (f : A -> B) (x : scan A) (b : B) (r : string) :
  scan_map f x = Scanned b r -> exists a, x = Scanned a r /\ b = f a.
Proof. destruct x; simpl; intros H; inversion H; eauto. Qed.

Lemma scan_map_fuel {A B} (f : A -> B) (x : scan A) :
  scan_map f x = Beyond Fuel -> x = Beyond Fuel.
Proof. destruct x; simpl; intros H; inversion H; reflexivity. Qed.

Lemma scanstring_length (s t r : string) :
  scanstring s = Scanned t r -> String.length r < String.length s.
Proof.
  remember (String.length s) as n eqn:Hn. revert s t r Hn.
  induction n as [n IH] using lt_wf_ind. intros s t r Hn H.
  destruct s as [|c s]; [discriminate|]. simpl in Hn. cbn [scanstring] in H.
  destruct (c =? dquote)%char.
  { inversion H; subst. lia. }
  destruct (c =? backslash)%char.
  - destruct s as [|e s]; [discriminate|].
    destruct (e =? "u")%char.
    + destruct s as [|h1 [|h2 [|h3 [|h4 s]]]]; try discriminate.
      destruct (decode_uXXXX h1 h2 h3 h4); [|discriminate].
      destruct (_ <? 256)%N; [|discriminate].
      apply scan_map_scanned in H as (t0 & H & _).
      eapply IH in H; [| |reflexivity]; simpl in *; lia.
    + destruct (unescape e); [|discriminate].
      apply scan_map_scanned in H as (t0 & H & _).
      eapply IH in H; [| |reflexivity]; simpl in *; lia.
  - destruct (_ <? 32)%N; [discriminate|].
    apply scan_map_scanned in H as (t0 & H & _).
    eapply IH in H; [| |reflexivity]; simpl in *; lia.
Qed.

Lemma scanstring_no_fuel (s : string) : scanstring s <> Beyond Fuel.
Proof.
  remember (String.length s) as n eqn:Hn. revert s Hn.
  induction n as [n IH] using lt_wf_ind. intros s Hn H.
  destruct s as [|c s]; [discriminate|]. simpl in Hn. cbn [scanstring] in H.
  destruct (c =? dquote)%char; [discriminate|].
  destruct (c =? backslash)%char.
  - destruct s as [|e s]; [discriminate|].
    destruct (e =? "u")%char.
    + destruct s as [|h1 [|h2 [|h3 [|h4 s]]]]; try discriminate.
      destruct (decode_uXXXX h1 h2 h3 h4); [|discriminate].
      destruct (_ <? 256)%N; [|discriminate].
      apply scan_map_fuel in H. revert H. eapply IH; [|reflexivity]. simpl in *; lia.
    + destruct (unescape e); [|discriminate].
      apply scan_map_fuel in H. revert H. eapply IH; [|reflexivity]. simpl in *; lia.
  - destruct (_ <? 32)%N; [discriminate|].
    apply scan_map_fuel in H. revert H. eapply IH; [|reflexivity]. simpl in *; lia.
Qed.

Lemma starts_with_length (p s r : string) :
  starts_with p s = Some r -> String.length s = String.length p + String.length r.
Proof.
  revert s. induction p as [|a p IH]; intros s H; simpl in *.
  - inversion H; reflexivity.
  - destruct s as [|b s]; [discriminate|]. destruct (a =? b)%char; [|discriminate].
    apply IH in H. simpl. lia.
Qed.

Lemma scan_digits_length (s : string) :
  String.length (snd (scan_digits s)) <= String.length s.
Proof.
  induction s as [|c s IH]; cbn [scan_digits]; [simpl; lia|].
  destruct (is_digit c); [|simpl; lia].
  destruct (scan_digits s) as [u r]. cbn [snd] in IH.
  destruct (uint_of_char c (Some u)); cbn [snd String.length]; lia.
Qed.

Lemma digit_uint_of_char (c : ascii) (u : uint) :
  is_digit c = true -> uint_of_char c (Some u) <> None.
Proof.
  destruct c as [[] [] [] [] [] [] [] []]; simpl; intros H; try discriminate H; discriminate.
Qed.

Lemma finish_number_scanned (neg : bool) (u : uint) (r : string) (v : JSON) (r' : string) :
  finish_number neg u r = Scanned v r' -> r' = r.
Proof.
  unfold finish_number. destruct (_ || _); intros H; inversion H; reflexivity.
Qed.

Lemma match_number_length (s : string) (v : JSON) (r : string) :
  match_number s = Some (Scanned v r) -> String.length r < String.length s.
Proof.
  unfold match_number.
  assert (G : forall neg s1,
             String.length s1 <= String.length s ->
             match s1 with
             | String c r0 =>
                 if (c =? "0")%char then Some (finish_number neg (D0 Nil) r0)
                 else if is_digit c
                      then let (u, r') := scan_digits s1 in Some (finish_number neg u r')
                      else None
             | EmptyString => None
             end = Some (Scanned v r) -> String.length r < String.length s).
  { intros neg s1 Hlen H. destruct s1 as [|c r0]; [discriminate|].
    simpl in Hlen. destruct (c =? "0")%char.
    - inversion H as [H1]. apply finish_number_scanned in H1. subst. lia.
    - destruct (is_digit c) eqn:Hd; [|discriminate].
      pose proof (scan_digits_length r0) as Hl.
      cbn [scan_digits] in H. rewrite Hd in H.
      destruct (scan_digits r0) as [u r1]. simpl in Hl.
      pose proof (digit_uint_of_char c u Hd) as Hu.
      destruct (uint_of_char c (Some u)); [|congruence].
      inversion H as [H1]. apply finish_number_scanned in H1. subst. lia. }
  destruct s as [|c r0]; [discriminate|].
  destruct (c =? "-")%char; intros H.
  - apply (G true r0); [simpl; lia | exact H].
  - apply (G false (String c r0)); [simpl; lia | exact H].
Qed.

Lemma match_number_no_fuel (s : string) : match_number s <> Some (Beyond Fuel).
Proof.
  assert (F : forall neg u r, finish_number neg u r <> Beyond Fuel).
  { intros neg u r. unfold finish_number. destruct (_ || _); discriminate. }
  unfold match_number.
  destruct (match s with
            | String c r => if (c =? "-")%char then (true, r) else (false, s)
            | EmptyString => (false, s)
            end) as [neg s1].
  destruct s1 as [|c r]; [discriminate|].
  destruct (c =? "0")%char; [intros H; inversion H as [H1]; apply F in H1; exact H1|].
  destruct (is_digit c); [|discriminate].
  destruct (scan_digits (String c r)) as [u r'].
  intros H; inversion H as [H1]; apply F in H1; exact H1.
Qed.

Lemma scan_atom_length (s : string) (v : JSON) (r : string) :
  scan_atom s = Scanned v r -> String.length r < String.length s.
Proof.
  unfold scan_atom.
  destruct (starts_with "null" s) eqn:E1.
  { intros H; inversion H; subst. apply starts_with_length in E1. simpl in E1. lia. }
  destruct (starts_with "true" s) eqn:E2.
  { intros H; inversion H; subst. apply starts_with_length in E2. simpl in E2. lia. }
  destruct (starts_with "false" s) eqn:E3.
  { intros H; inversion H; subst. apply starts_with_length in E3. simpl in E3. lia. }
  destruct (match_number s) as [x|] eqn:E4.
  { intros ->. apply match_number_length in E4. exact E4. }
  destruct (_ || _); discriminate.
Qed.

Lemma scan_atom_no_fuel (s : string) : scan_atom s <> Beyond Fuel.
Proof.
  unfold scan_atom.
  destruct (starts_with "null" s); [discriminate|].
  destruct (starts_with "true" s); [discriminate|].
  destruct (starts_with "false" s); [discriminate|].
  destruct (match_number s) as [x|] eqn:E4.
  { intros ->. apply (match_number_no_fuel s E4). }
  destruct (_ || _); discriminate.
Qed.

Ltac skip_len E :=
  match type of E with
  | skip_ws ?x = _ =>
      let H := fresh "Hlen" in
      pose proof (skip_ws_length x) as H; rewrite E in H; cbn [String.length] in H
  end.

Lemma scan_consumes (fuel : nat) :
  (forall s v r, scan_once fuel s = Scanned v r -> String.length r < String.length s)
  /\ (forall s l r, array_items fuel s = Scanned l r -> String.length r < String.length s)
  /\ (forall s d r, object_members fuel s = Scanned d r -> String.length r < String.length s).
Proof.
  induction fuel as [|fuel (IHv & IHa & IHo)]; [repeat split; discriminate|].
  repeat split.
  - intros s v r H. cbn [scan_once] in H.
    destruct s as [|c s']; [discriminate|]. cbn [String.length].
    destruct (c =? dquote)%char.
    { apply scan_map_scanned in H as (t & H & _). apply scanstring_length in H. lia. }
    destruct (c =? "{")%char.
    { destruct (skip_ws s') as [|c1 s1] eqn:E; [discriminate|]. skip_len E.
      destruct (c1 =? "}")%char; [inversion H; subst; lia|].
      destruct (c1 =? dquote)%char; [|discriminate].
      apply scan_map_scanned in H as (t & H & _). apply IHo in H. lia. }
    destruct (c =? "[")%char.
    { destruct (skip_ws s') as [|c1 s1] eqn:E; [discriminate|]. skip_len E.
      destruct (c1 =? "]")%char; [inversion H; subst; lia|].
      apply scan_map_scanned in H as (t & H & _). apply IHa in H.
      cbn [String.length] in H. lia. }
    apply scan_atom_length in H. cbn [String.length] in H. exact H.
  - intros s l r H. cbn [array_items] in H.
    destruct (scan_once fuel s) as [v r0| |] eqn:Ev; try discriminate.
    apply IHv in Ev.
    destruct (skip_ws r0) as [|c r1] eqn:E; [discriminate|]. skip_len E.
    destruct (c =? "]")%char; [inversion H; subst; lia|].
    destruct (c =? ",")%char; [|discriminate].
    apply scan_map_scanned in H as (t & H & _). apply IHa in H.
    pose proof (skip_ws_length r1). lia.
  - intros s d r H. cbn [object_members] in H.
    destruct (scanstring s) as [k r0| |] eqn:Ek; try discriminate.
    apply scanstring_length in Ek.
    destruct (skip_ws r0) as [|c r1] eqn:E; [discriminate|]. skip_len E.
    destruct (c =? ":")%char; [|discriminate].
    destruct (scan_once fuel (skip_ws r1)) as [v r2| |] eqn:Ev; try discriminate.
    apply IHv in Ev. pose proof (skip_ws_length r1).
    destruct (skip_ws r2) as [|c2 r3] eqn:E2; [discriminate|]. skip_len E2.
    destruct (c2 =? "}")%char; [inversion H; subst; lia|].
    destruct (c2 =? ",")%char; [|discriminate].
    destruct (skip_ws r3) as [|c3 r4] eqn:E3; [discriminate|]. skip_len E3.
    destruct (c3 =? dquote)%char; [|discriminate].
    apply scan_map_scanned in H as (t & H & _). apply IHo in H. lia.
Qed.

Lemma scan_fuel_enough (fuel : nat) :
  (forall s, 2 * String.length s + 1 <= fuel -> scan_once fuel s <> Beyond Fuel)
  /\ (forall s, 2 * String.length s + 2 <= fuel -> array_items fuel s <> Beyond Fuel)
  /\ (forall s, 2 * String.length s + 1 <= fuel -> object_members fuel s <> Beyond Fuel).
Proof.
  induction fuel as [|fuel (IHv & IHa & IHo)]; [repeat split; intros; lia|].
  destruct (scan_consumes fuel) as (Cv & Ca & Co).
  repeat split.
  - intros s Hf H. cbn [scan_once] in H.
    destruct s as [|c s']; [discriminate|]. cbn [String.length] in Hf.
    destruct (c =? dquote)%char.
    { apply scan_map_fuel in H. apply (scanstring_no_fuel _ H). }
    destruct (c =? "{")%char.
    { destruct (skip_ws s') as [|c1 s1] eqn:E; [discriminate|]. skip_len E.
      destruct (c1 =? "}")%char; [discriminate|].
      destruct (c1 =? dquote)%char; [|discriminate].
      apply scan_map_fuel in H. revert H. apply IHo. lia. }
    destruct (c =? "[")%char.
    { destruct (skip_ws s') as [|c1 s1] eqn:E; [discriminate|]. skip_len E.
      destruct (c1 =? "]")%char; [discriminate|].
      apply scan_map_fuel in H. revert H. apply IHa. cbn [String.length]. lia. }
    apply (scan_atom_no_fuel _ H).
  - intros s Hf H. cbn [array_items] in H.
    destruct (scan_once fuel s) as [v r0| |b] eqn:Ev; try discriminate.
    + apply Cv in Ev.
      destruct (skip_ws r0) as [|c r1] eqn:E; [discriminate|]. skip_len E.
      destruct (c =? "]")%char; [discriminate|].
      destruct (c =? ",")%char; [|discriminate].
      apply scan_map_fuel in H. revert H. apply IHa.
      pose proof (skip_ws_length r1). lia.
    + inversion H; subst. revert Ev. apply IHv. lia.
  - intros s Hf H. cbn [object_members] in H.
    destruct (scanstring s) as [k r0| |b] eqn:Ek; try discriminate.
    + apply scanstring_length in Ek.
      destruct (skip_ws r0) as [|c r1] eqn:E; [discriminate|]. skip_len E.
      destruct (c =? ":")%char; [|discriminate].
      pose proof (skip_ws_length r1).
      destruct (scan_once fuel (skip_ws r1)) as [v r2| |b] eqn:Ev; try discriminate.
      * apply Cv in Ev.
        destruct (skip_ws r2) as [|c2 r3] eqn:E2; [discriminate|]. skip_len E2.
        destruct (c2 =? "}")%char; [discriminate|].
        destruct (c2 =? ",")%char; [|discriminate].
        destruct (skip_ws r3) as [|c3 r4] eqn:E3; [discriminate|]. skip_len E3.
        destruct (c3 =? dquote)%char; [|discriminate].
        apply scan_map_fuel in H. revert H. apply IHo. lia.
      * inversion H; subst. revert Ev. apply IHv. lia.
    + inversion H; subst. apply (scanstring_no_fuel _ Ek).
Qed.

Theorem loads_fuel_enough (s : string) : loads s <> Outside Fuel.
Proof.
  unfold loads. pose proof (skip_ws_length s) as Hl.
  destruct (scan_fuel_enough (2 * String.length s + 2)) as (Hv & _).
  specialize (Hv (skip_ws s) ltac:(lia)).
  destruct (scan_once _ (skip_ws s)) as [v r| |b]; try discriminate.
  - destruct (skip_ws r); discriminate.
  - intros H. inversion H; subst. apply Hv. reflexivity.
Qed.

End JsonFacts.

(* ===================================================================== *)
(** * Facts about BaseEvent *)
(* ===================================================================== *)

Module BaseEventFacts.
Import Json JsonFacts.
#[local] Arguments String.append !s1 s2 : simpl nomatch.

Lemma EventType_call_value (t : EventType) : EventType_call (JStr (value t)) = Ret t.
Proof. destruct t; reflexivity. Qed.




(** ** C10 *)

(** C10: a dict with a recognized ["type"] and no ["payload"] key decodes
    to the event of that type with the empty dict as payload. *)
Theorem from_dict_without_payload (d : Dict) (t : EventType) :
  dict_get d "type" = Some (JStr (value t)) ->
  dict_get d "payload" = None ->
  BaseEvent.from_dict (JDict d) = Ret (mkBaseEvent t (JDict [])).
Proof.
  intros Ht Hp. unfold BaseEvent.from_dict, BaseEvent.getitem_type, BaseEvent.get_payload.
  rewrite Ht, EventType_call_value, Hp. reflexivity.
Qed.

Lemma from_dict_without_payload_witness :
  dict_get [("type", JStr "RUN_STARTED")] "type" = Some (JStr (value RUN_STARTED))
  /\ dict_get [("type", JStr "RUN_STARTED")] "payload" = None
  /\ BaseEvent.from_dict (JDict [("type", JStr "RUN_STARTED")])
     = Ret (mkBaseEvent RUN_STARTED (JDict [])).
Proof.
  split; [reflexivity|]. split; [reflexivity|].
  apply (from_dict_without_payload [("type", JStr "RUN_STARTED")] RUN_STARTED); reflexivity.
Defined.

End BaseEventFacts.

(* ===================================================================== *)
(** * Facts about the transports *)
(* ===================================================================== *)

Module TransportFacts.
Import Json JsonFacts BaseEventFacts.
#[local] Arguments String.append !s1 s2 : simpl nomatch.

(** ** C4 *)

(** A well-formed JSON object whose kind is not a member of [EventType]. *)
Definition unknown_kind_frame : string := dq "{'type': 'NOT_A_KIND', 'payload': {}}".

Definition run_started_frame : string :=
  dq "{'type': 'RUN_STARTED', 'payload': {'runId': 'r1'}}".

Definition run_started_event : BaseEvent :=
  mkBaseEvent RUN_STARTED (JDict [("runId", JStr "r1")]).

(** C4, the code at the failing input: a frame with an unknown kind is
    not skipped. [EventType(...)] raises ValueError, which the handlers
    for JSONDecodeError do not catch, so the exception leaves the
    generator and the frame that follows is never delivered, on both
    transports; without the bad frame the event is delivered. *)
Theorem unknown_kind_frame_ends_the_stream :
  SSETransport.receive_events
    ["data: " +:+ unknown_kind_frame +:+ Agent.newline; Agent.newline; "data: " +:+ run_started_frame +:+ Agent.newline; Agent.newline]
  = ([], Propagated ValueError)
  /\ SSETransport.receive_events ["data: " +:+ run_started_frame +:+ Agent.newline; Agent.newline]
     = ([run_started_event], Exhausted)
  /\ WebSocketTransport.receive_events [unknown_kind_frame; run_started_frame]
     = ([], Propagated ValueError)
  /\ WebSocketTransport.receive_events [run_started_frame]
     = ([run_started_event], Exhausted).
Proof. vm_compute. repeat split. Qed.

(** The part of C4 the code does implement: a frame that is not JSON is
    skipped and the stream goes on. *)
Lemma sse_malformed_json_is_skipped (raw text data : string) (lines : list string) :
  SSETransport.decode raw = Ret text ->
  SSETransport.strip text = "data: " +:+ data ->
  loads data = Raise JSONDecodeError ->
  SSETransport.receive_events (raw :: lines) = SSETransport.receive_events lines.
Proof.
  intros Hd Hs Hl. cbn [SSETransport.receive_events]. rewrite Hd, Hs.
  cbn [String.append starts_with]. simpl (_ =? _)%char. cbv iota. rewrite Hl. reflexivity.
Qed.

Lemma ws_malformed_json_is_skipped (message : string) (messages : list string) :
  loads message = Raise JSONDecodeError ->
  WebSocketTransport.receive_events (message :: messages)
  = WebSocketTransport.receive_events messages.
Proof.
  intros Hl. cbn [WebSocketTransport.receive_events]. unfold BaseEvent.from_json.
  rewrite Hl. reflexivity.
Qed.

(** Every frame that is JSON but not an event ends the stream: no
    exception of [from_dict] is a JSONDecodeError. *)
Lemma from_dict_never_JSONDecodeError (data : JSON) :
  BaseEvent.from_dict data <> Raise JSONDecodeError.
Proof.
  unfold BaseEvent.from_dict, BaseEvent.getitem_type, BaseEvent.get_payload, EventType_call.
  destruct data as [| | | | |d]; try discriminate.
  destruct (dict_get d "type") as [x|]; [|discriminate].
  destruct x; try discriminate.
  destruct (find _ _); [|discriminate].
  destruct (dict_get d "payload"); discriminate.
Qed.

Lemma ws_undecodable_event_ends_the_stream
    (message : string) (messages : list string) (data : JSON) (e : exn) :
  loads message = Ret data ->
  BaseEvent.from_dict data = Raise e ->
  WebSocketTransport.receive_events (message :: messages) = ([], Propagated e).
Proof.
  intros Hl Hd. cbn [WebSocketTransport.receive_events]. unfold BaseEvent.from_json.
  rewrite Hl, Hd. destruct e; try reflexivity.
  exfalso. apply (from_dict_never_JSONDecodeError data Hd).
Qed.

Lemma sse_undecodable_event_ends_the_stream
    (raw line text : string) (lines : list string) (data : JSON) (e : exn) :
  SSETransport.decode raw = Ret line ->
  SSETransport.strip line = "data: " +:+ text ->
  loads text = Ret data ->
  BaseEvent.from_dict data = Raise e ->
  SSETransport.receive_events (raw :: lines) = ([], Propagated e).
Proof.
  intros Hr Hs Hl Hd. cbn [SSETransport.receive_events]. rewrite Hr, Hs.
  cbn [String.append starts_with]. simpl (_ =? _)%char. cbv iota. rewrite Hl, Hd.
  destruct e; try reflexivity.
  exfalso. apply (from_dict_never_JSONDecodeError data Hd).
Qed.

End TransportFacts.

(* ===================================================================== *)
(** * Facts about queues and lists of queues *)
(* ===================================================================== *)

Lemma received_put_same {A} (q : nat) (x : A) (qs : Queues A) :
  is_Some (items qs !! q) ->
  received (put q x qs) q = received qs q ++ [x].
Proof.
  intros [l Hl]. unfold received, put. simpl.
  rewrite lookup_alter_eq, Hl. reflexivity.
Qed.

Lemma received_put_other {A} (q q' : nat) (x : A) (qs : Queues A) :
  q <> q' -> received (put q' x qs) q = received qs q.
Proof.
  intros Hne. unfold received, put. simpl.
  rewrite lookup_alter_ne by congruence. reflexivity.
Qed.

Lemma put_is_Some {A} (q q' : nat) (x : A) (qs : Queues A) :
  is_Some (items (put q' x qs) !! q) <-> is_Some (items qs !! q).
Proof.
  unfold put. simpl. destruct (decide (q' = q)) as [->|Hne].
  - rewrite lookup_alter_eq. destruct (items qs !! q); simpl; split; intros [? ?]; eauto; discriminate.
  - rewrite lookup_alter_ne by exact Hne. reflexivity.
Qed.

Lemma put_next_queue {A} (q : nat) (x : A) (qs : Queues A) :
  next_queue (put q x qs) = next_queue qs.
Proof. reflexivity. Qed.

(** [for queue in targets: await queue.put(x)]. *)
Definition put_each {A} (x : A) (targets : list nat) (qs : Queues A) : Queues A :=
  fold_left (fun acc q => put q x acc) targets qs.

Lemma put_each_next {A} (x : A) (l : list nat) (qs : Queues A) :
  next_queue (put_each x l qs) = next_queue qs.
Proof.
  revert qs. induction l as [|y l IH]; intros qs; [reflexivity|].
  cbn [put_each fold_left]. fold (put_each x l (put y x qs)). rewrite IH. reflexivity.
Qed.

Lemma put_each_is_Some {A} (x : A) (l : list nat) (qs : Queues A) (q : nat) :
  is_Some (items (put_each x l qs) !! q) <-> is_Some (items qs !! q).
Proof.
  revert qs. induction l as [|y l IH]; intros qs; [reflexivity|].
  cbn [put_each fold_left]. fold (put_each x l (put y x qs)). rewrite IH. apply put_is_Some.
Qed.

Lemma put_each_notin {A} (x : A) (l : list nat) (qs : Queues A) (q : nat) :
  q ∉ l -> received (put_each x l qs) q = received qs q.
Proof.
  revert qs. induction l as [|y l IH]; intros qs Hn; [reflexivity|].
  apply not_elem_of_cons in Hn as [Hne Hn].
  cbn [put_each fold_left]. fold (put_each x l (put y x qs)).
  rewrite IH by exact Hn. apply received_put_other. exact Hne.
Qed.

Lemma put_each_in {A} (x : A) (l : list nat) (qs : Queues A) (q : nat) :
  NoDup l -> q ∈ l -> is_Some (items qs !! q) ->
  received (put_each x l qs) q = received qs q ++ [x].
Proof.
  revert qs. induction l as [|y l IH]; intros qs Hnd Hin Hs.
  - apply elem_of_nil in Hin. contradiction.
  - apply NoDup_cons in Hnd as [Hy Hnd].
    cbn [put_each fold_left]. fold (put_each x l (put y x qs)).
    apply elem_of_cons in Hin as [->|Hin].
    + rewrite put_each_notin by exact Hy. apply received_put_same. exact Hs.
    + rewrite IH; [| exact Hnd | exact Hin | apply put_is_Some; exact Hs].
      rewrite received_put_other; [reflexivity|]. intros ->. contradiction.
Qed.

(** Whatever is put, a queue only grows at its end. *)
Lemma put_each_grows {A} (x : A) (l : list nat) (qs : Queues A) (q : nat) :
  exists more, received (put_each x l qs) q = received qs q ++ more.
Proof.
  revert qs. induction l as [|y l IH]; intros qs.
  - exists []. rewrite app_nil_r. reflexivity.
  - cbn [put_each fold_left]. fold (put_each x l (put y x qs)).
    destruct (IH (put y x qs)) as [more Hm]. rewrite Hm.
    destruct (decide (q = y)) as [->|Hne].
    + unfold received at 1, put. simpl. rewrite lookup_alter_eq.
      unfold received. destruct (items qs !! y); simpl.
      * exists ([x] ++ more). rewrite app_assoc. reflexivity.
      * exists more. reflexivity.
    + rewrite received_put_other by exact Hne. exists more. reflexivity.
Qed.

Lemma existsb_eqb_elem (q : nat) (l : list nat) :
  existsb (Nat.eqb q) l = true <-> q ∈ l.
Proof.
  rewrite existsb_exists. split.
  - intros (x & Hin & Heq). apply Nat.eqb_eq in Heq. subst. apply list_elem_of_In. exact Hin.
  - intros H. exists q. split; [apply list_elem_of_In; exact H | apply Nat.eqb_refl].
Qed.

Lemma existsb_eqb_not_elem (q : nat) (l : list nat) :
  existsb (Nat.eqb q) l = false <-> q ∉ l.
Proof.
  rewrite <- existsb_eqb_elem.
  split; [intros ->; discriminate | apply not_true_is_false].
Qed.

Lemma elem_of_list_remove (q x : nat) (l : list nat) :
  x ∈ EventBus.list_remove q l -> x ∈ l.
Proof.
  induction l as [|y l IH]; simpl; [auto|].
  destruct (Nat.eqb y q); intros H.
  - apply elem_of_cons. auto.
  - apply elem_of_cons in H as [->|H]; apply elem_of_cons; auto.
Qed.

Lemma NoDup_list_remove (q : nat) (l : list nat) :
  NoDup l -> NoDup (EventBus.list_remove q l) /\ q ∉ EventBus.list_remove q l.
Proof.
  induction 1 as [|y l Hy Hl [IH1 IH2]]; simpl.
  - split; [constructor | apply not_elem_of_nil].
  - destruct (Nat.eqb y q) eqn:E.
    + apply Nat.eqb_eq in E. subst. auto.
    + apply Nat.eqb_neq in E. split.
      * constructor; [|exact IH1]. intros H. apply Hy. eapply elem_of_list_remove. exact H.
      * apply not_elem_of_cons. split; [congruence | exact IH2].
Qed.

Lemma list_remove_other (q x : nat) (l : list nat) :
  x <> q -> x ∈ l -> x ∈ EventBus.list_remove q l.
Proof.
  intros Hne. induction l as [|y l IH]; simpl; [auto|].
  intros H. apply elem_of_cons in H as [->|H].
  - destruct (Nat.eqb y q) eqn:E; [apply Nat.eqb_eq in E; congruence | apply elem_of_cons; auto].
  - destruct (Nat.eqb y q); [exact H | apply elem_of_cons; auto].
Qed.

Lemma list_remove_notin (q : nat) (l : list nat) :
  q ∉ l -> EventBus.list_remove q l = l.
Proof.
  induction l as [|y l IH]; simpl; [reflexivity|].
  intros H. apply not_elem_of_cons in H as [Hne H].
  replace (Nat.eqb y q) with false by (symmetry; apply Nat.eqb_neq; congruence).
  rewrite IH by exact H. reflexivity.
Qed.

Lemma new_queue_below {A} (qs : Queues A) (q : nat) :
  (forall x, is_Some (items qs !! x) -> x < next_queue qs) ->
  is_Some (items (snd (new_queue qs)) !! q) -> q < next_queue (snd (new_queue qs)).
Proof.
  intros Hb. simpl. destruct (decide (next_queue qs = q)) as [<-|Hne]; [lia|].
  rewrite lookup_insert_ne by exact Hne. intros H. apply Hb in H. lia.
Qed.

(* ===================================================================== *)
(** * Facts about the event bus *)
(* ===================================================================== *)

Module EventBusFacts.
Import EventBus.

(** The queues held in the buckets of [self.subscribers]. *)
Definition registered (subs : Subscribers) : list nat := concat (map snd subs).

(** The key of the bucket that holds queue [q]. *)
Fixpoint bucket_of (q : nat) (subs : Subscribers) : option Key :=
  match subs with
  | [] => None
  | (k, l) :: subs' => if existsb (Nat.eqb q) l then Some k else bucket_of q subs'
  end.

(** What holds of every bus reached from [EventBus()]: no queue is
    registered twice, and every registered queue has been created. *)
Record bus_ok (st : State) : Prop := mk_bus_ok {
  ok_nodup : NoDup (registered (subscribers st));
  ok_created : forall q, q ∈ registered (subscribers st) ->
               q < next_queue (queues st) /\ is_Some (items (queues st) !! q);
  ok_below : forall q, is_Some (items (queues st) !! q) -> q < next_queue (queues st)
}.

Lemma bucket_of_None (q : nat) (subs : Subscribers) :
  bucket_of q subs = None <-> q ∉ registered subs.
Proof.
  induction subs as [|[k l] subs IH]; simpl.
  - split; [intros _; apply not_elem_of_nil | reflexivity].
  - unfold registered in *. simpl. rewrite elem_of_app.
    destruct (existsb (Nat.eqb q) l) eqn:E.
    + apply existsb_eqb_elem in E. split; [discriminate | intros H; exfalso; apply H; auto].
    + apply existsb_eqb_not_elem in E. rewrite IH. tauto.
Qed.

Lemma bucket_of_Some (q : nat) (subs : Subscribers) (k : Key) :
  bucket_of q subs = Some k -> q ∈ registered subs.
Proof.
  intros H. destruct (decide (q ∈ registered subs)) as [|Hn]; [assumption|].
  apply bucket_of_None in Hn. congruence.
Qed.

Lemma put_all_next (e : BaseEvent) (l : list nat) (qs : Queues BaseEvent) :
  next_queue (put_all e l qs) = next_queue qs.
Proof. apply (put_each_next e l qs). Qed.

Lemma put_all_is_Some (e : BaseEvent) (l : list nat) (qs : Queues BaseEvent) (q : nat) :
  is_Some (items (put_all e l qs) !! q) <-> is_Some (items qs !! q).
Proof. apply (put_each_is_Some e l qs q). Qed.

Lemma put_all_notin (e : BaseEvent) (l : list nat) (qs : Queues BaseEvent) (q : nat) :
  q ∉ l -> received (put_all e l qs) q = received qs q.
Proof. apply (put_each_notin e l qs q). Qed.

Lemma put_all_in (e : BaseEvent) (l : list nat) (qs : Queues BaseEvent) (q : nat) :
  NoDup l -> q ∈ l -> is_Some (items qs !! q) ->
  received (put_all e l qs) q = received qs q ++ [e].
Proof. apply (put_each_in e l qs q). Qed.

Definition deliver (event : BaseEvent) (acc : Queues BaseEvent)
    (entry : Key * list nat) : Queues BaseEvent :=
  if matches (fst entry) event then put_all event (snd entry) acc else acc.

Lemma publish_unfold (event : BaseEvent) (st : State) :
  queues (publish event st) = fold_left (deliver event) (subscribers st) (queues st).
Proof. reflexivity. Qed.

Lemma deliver_next (e : BaseEvent) (subs : Subscribers) (qs : Queues BaseEvent) :
  next_queue (fold_left (deliver e) subs qs) = next_queue qs.
Proof.
  revert qs. induction subs as [|[k l] subs IH]; intros qs; simpl; [reflexivity|].
  rewrite IH. unfold deliver. simpl. destruct (matches k e); [apply put_all_next | reflexivity].
Qed.

Lemma deliver_is_Some (e : BaseEvent) (subs : Subscribers) (qs : Queues BaseEvent) (q : nat) :
  is_Some (items (fold_left (deliver e) subs qs) !! q) <-> is_Some (items qs !! q).
Proof.
  revert qs. induction subs as [|[k l] subs IH]; intros qs; simpl; [reflexivity|].
  rewrite IH. unfold deliver. simpl. destruct (matches k e); [apply put_all_is_Some | reflexivity].
Qed.

Lemma deliver_notin (e : BaseEvent) (subs : Subscribers) (qs : Queues BaseEvent) (q : nat) :
  q ∉ registered subs ->
  received (fold_left (deliver e) subs qs) q = received qs q.
Proof.
  revert qs. induction subs as [|[k l] subs IH]; intros qs Hn; simpl; [reflexivity|].
  unfold registered in Hn. simpl in Hn. apply not_elem_of_app in Hn as [Hl Hn].
  rewrite IH by exact Hn. unfold deliver. simpl.
  destruct (matches k e); [apply put_all_notin; exact Hl | reflexivity].
Qed.

Lemma deliver_in (e : BaseEvent) (subs : Subscribers) (qs : Queues BaseEvent)
    (q : nat) (k : Key) :
  NoDup (registered subs) -> bucket_of q subs = Some k -> is_Some (items qs !! q) ->
  received (fold_left (deliver e) subs qs) q
  = received qs q ++ (if matches k e then [e] else []).
Proof.
  revert qs. induction subs as [|[k' l] subs IH]; intros qs Hnd Hb Hs; simpl in *.
  - discriminate.
  - unfold registered in Hnd. simpl in Hnd. apply NoDup_app in Hnd as (Hl & Hdisj & Hnd).
    destruct (existsb (Nat.eqb q) l) eqn:E.
    + inversion Hb; subst k'. apply existsb_eqb_elem in E.
      rewrite deliver_notin by (apply Hdisj; exact E).
      unfold deliver. simpl. destruct (matches k e).
      * apply put_all_in; assumption.
      * rewrite app_nil_r. reflexivity.
    + apply existsb_eqb_not_elem in E.
      rewrite (IH _ Hnd Hb).
      * unfold deliver. simpl. destruct (matches k' e); [|reflexivity].
        rewrite put_all_notin by exact E. reflexivity.
      * unfold deliver. simpl. destruct (matches k' e); [|exact Hs].
        apply put_all_is_Some. exact Hs.
Qed.

(** *** subscribe *)

Lemma registered_snoc_empty (subs : Subscribers) (k : Key) :
  registered (subs ++ [(k, [])]) = registered subs.
Proof. unfold registered. rewrite map_app, concat_app. simpl. apply app_nil_r. Qed.

Lemma bucket_of_snoc_empty (q : nat) (subs : Subscribers) (k : Key) :
  bucket_of q (subs ++ [(k, [])]) = bucket_of q subs.
Proof.
  induction subs as [|[k' l] subs IH]; simpl; [reflexivity|].
  rewrite IH. reflexivity.
Qed.

Lemma has_key_snoc (subs : Subscribers) (k : Key) :
  has_key k (subs ++ [(k, [])]) = true.
Proof.
  unfold has_key. rewrite existsb_app. simpl.
  rewrite bool_decide_eq_true_2 by reflexivity. apply orb_true_r.
Qed.

Lemma has_key_cons (k k' : Key) (l : list nat) (subs : Subscribers) :
  has_key k ((k', l) :: subs) = bool_decide (k' = k) || has_key k subs.
Proof. reflexivity. Qed.

Lemma registered_cons (k : Key) (l : list nat) (subs : Subscribers) :
  registered ((k, l) :: subs) = l ++ registered subs.
Proof. reflexivity. Qed.

Lemma append_to_cons (k k' : Key) (q : nat) (l : list nat) (subs : Subscribers) :
  append_to k q ((k', l) :: subs)
  = if bool_decide (k' = k) then (k', l ++ [q]) :: subs
    else (k', l) :: append_to k q subs.
Proof. reflexivity. Qed.

Lemma registered_append_to (k : Key) (q : nat) (subs : Subscribers) :
  has_key k subs = true ->
  forall x, x ∈ registered (append_to k q subs) <-> x = q \/ x ∈ registered subs.
Proof.
  induction subs as [|[k' l] subs IH]; intros Hk x.
  - discriminate.
  - rewrite has_key_cons in Hk. rewrite append_to_cons.
    destruct (bool_decide (k' = k)) eqn:E; rewrite !registered_cons.
    + rewrite !elem_of_app, list_elem_of_singleton. tauto.
    + simpl in Hk. rewrite !elem_of_app, (IH Hk). tauto.
Qed.

Lemma NoDup_append_to (k : Key) (q : nat) (subs : Subscribers) :
  has_key k subs = true -> q ∉ registered subs -> NoDup (registered subs) ->
  NoDup (registered (append_to k q subs)).
Proof.
  induction subs as [|[k' l] subs IH]; intros Hk Hq Hnd.
  - discriminate.
  - rewrite has_key_cons in Hk. rewrite append_to_cons. rewrite registered_cons in Hq, Hnd.
    apply not_elem_of_app in Hq as [Hql Hqs].
    apply NoDup_app in Hnd as (Hl & Hdisj & Hs).
    destruct (bool_decide (k' = k)) eqn:E; rewrite registered_cons.
    + apply NoDup_app. split; [|split; [|exact Hs]].
      * apply NoDup_app. split; [exact Hl|]. split; [|apply NoDup_singleton].
        intros x Hx Hx'. apply list_elem_of_singleton in Hx'. subst. contradiction.
      * intros x Hx. apply elem_of_app in Hx as [Hx|Hx]; [apply Hdisj; exact Hx|].
        apply list_elem_of_singleton in Hx. subst. exact Hqs.
    + simpl in Hk.
      apply NoDup_app. split; [exact Hl|]. split; [|apply IH; assumption].
      intros x Hx Hx'. apply (registered_append_to k q subs Hk) in Hx' as [->|Hx'].
      * contradiction.
      * apply (Hdisj x Hx Hx').
Qed.

Lemma bucket_of_append_to_other (k : Key) (q x : nat) (subs : Subscribers) :
  x <> q -> bucket_of x (append_to k q subs) = bucket_of x subs.
Proof.
  intros Hne. induction subs as [|[k' l] subs IH]; [reflexivity|].
  rewrite append_to_cons. destruct (bool_decide (k' = k)); cbn [bucket_of].
  - rewrite existsb_app. cbn [existsb]. rewrite orb_false_r.
    replace (Nat.eqb x q) with false by (symmetry; apply Nat.eqb_neq; exact Hne).
    rewrite orb_false_r. reflexivity.
  - rewrite IH. reflexivity.
Qed.

Lemma bucket_of_append_to_new (k : Key) (q : nat) (subs : Subscribers) :
  has_key k subs = true -> q ∉ registered subs ->
  bucket_of q (append_to k q subs) = Some k.
Proof.
  induction subs as [|[k' l] subs IH]; intros Hk Hq.
  - discriminate.
  - rewrite has_key_cons in Hk. rewrite append_to_cons. rewrite registered_cons in Hq.
    apply not_elem_of_app in Hq as [Hql Hqs].
    destruct (bool_decide (k' = k)) eqn:E; cbn [bucket_of].
    + apply bool_decide_eq_true in E. subst.
      rewrite existsb_app. cbn [existsb]. rewrite Nat.eqb_refl. cbn [orb].
      rewrite orb_true_r. reflexivity.
    + apply existsb_eqb_not_elem in Hql. rewrite Hql.
      simpl in Hk. apply IH; assumption.
Qed.

(** *** unsubscribe *)

Lemma registered_remove_queue (q x : nat) (subs : Subscribers) :
  x ∈ registered (remove_queue q subs) -> x ∈ registered subs.
Proof.
  unfold registered. induction subs as [|[k l] subs IH]; simpl; [auto|].
  destruct (existsb (Nat.eqb q) l).
  - destruct (list_remove q l) as [|y l'] eqn:E; intros H.
    + apply elem_of_app. auto.
    + simpl in H. change (y :: l' ++ concat (map snd subs))
        with ((y :: l') ++ concat (map snd subs)) in H.
      rewrite <- E in H. apply elem_of_app in H as [H|H]; apply elem_of_app; [left|right; exact H].
      eapply elem_of_list_remove. exact H.
  - simpl. intros H. apply elem_of_app in H as [H|H]; apply elem_of_app; auto.
Qed.

Lemma NoDup_remove_queue (q : nat) (subs : Subscribers) :
  NoDup (registered subs) ->
  NoDup (registered (remove_queue q subs)) /\ q ∉ registered (remove_queue q subs).
Proof.
  unfold registered. induction subs as [|[k l] subs IH]; simpl; intros Hnd.
  - split; [constructor | apply not_elem_of_nil].
  - apply NoDup_app in Hnd as (Hl & Hdisj & Hs).
    destruct (existsb (Nat.eqb q) l) eqn:Eq.
    + apply existsb_eqb_elem in Eq.
      destruct (NoDup_list_remove q l Hl) as [Hr1 Hr2].
      assert (G : NoDup (list_remove q l ++ concat (map snd subs))
                  /\ q ∉ list_remove q l ++ concat (map snd subs)).
      { split.
        - apply NoDup_app. split; [exact Hr1|]. split; [|exact Hs].
          intros x Hx. apply Hdisj. eapply elem_of_list_remove. exact Hx.
        - apply not_elem_of_app. split; [exact Hr2 | apply Hdisj; exact Eq]. }
      destruct (list_remove q l) as [|y l']; exact G.
    + apply existsb_eqb_not_elem in Eq. destruct (IH Hs) as [IH1 IH2]. simpl. split.
      * apply NoDup_app. split; [exact Hl|]. split; [|exact IH1].
        intros x Hx Hx'. apply (Hdisj x Hx). eapply registered_remove_queue. exact Hx'.
      * apply not_elem_of_app. split; assumption.
Qed.

Lemma bucket_of_remove_queue_other (q x : nat) (subs : Subscribers) :
  x <> q -> bucket_of x (remove_queue q subs) = bucket_of x subs.
Proof.
  intros Hne. induction subs as [|[k l] subs IH]; simpl; [reflexivity|].
  destruct (existsb (Nat.eqb q) l) eqn:Eq.
  - destruct (existsb (Nat.eqb x) l) eqn:Ex.
    + apply existsb_eqb_elem in Ex. apply (list_remove_other q x l Hne) in Ex.
      destruct (list_remove q l) as [|y l'] eqn:E.
      * apply elem_of_nil in Ex. contradiction.
      * cbn [bucket_of]. apply existsb_eqb_elem in Ex. rewrite Ex. reflexivity.
    + destruct (list_remove q l) as [|y l'] eqn:E; [reflexivity|].
      cbn [bucket_of].
      destruct (existsb (Nat.eqb x) (y :: l')) eqn:Ex'; [|reflexivity].
      apply existsb_eqb_elem in Ex'. rewrite <- E in Ex'.
      apply elem_of_list_remove in Ex'. apply existsb_eqb_elem in Ex'. congruence.
  - simpl. rewrite IH. reflexivity.
Qed.

(** *** The invariant *)

Lemma bus_ok_init : bus_ok init.
Proof.
  split; simpl.
  - constructor.
  - intros q Hq. apply elem_of_nil in Hq. contradiction.
  - intros q [x Hx]. rewrite lookup_empty in Hx. discriminate.
Qed.

Lemma bus_ok_publish (e : BaseEvent) (st : State) : bus_ok st -> bus_ok (publish e st).
Proof.
  intros [Hnd Hc Hb]. split.
  - exact Hnd.
  - intros q Hq. rewrite publish_unfold, deliver_next, deliver_is_Some.
    apply Hc. exact Hq.
  - intros q. rewrite publish_unfold, deliver_next, deliver_is_Some. apply Hb.
Qed.

Lemma bus_ok_unsubscribe (c : QueueEventConsumer) (st : State) :
  bus_ok st -> bus_ok (unsubscribe c st).
Proof.
  intros [Hnd Hc Hb]. split; simpl.
  - apply NoDup_remove_queue. exact Hnd.
  - intros q Hq. apply Hc. eapply registered_remove_queue. exact Hq.
  - exact Hb.
Qed.

(** The bus after a successful [subscribe]. *)
Definition subscribed (k : Key) (st : State) : State :=
  mkState
    (append_to k (next_queue (queues st))
       (if has_key k (subscribers st) then subscribers st
        else subscribers st ++ [(k, [])]))
    (snd (new_queue (queues st))).

Lemma subscribe_hashable (ets : EventTypes) (k : Key) (st : State) :
  hashable ets = Ret k ->
  subscribe ets st = (Ret (mkConsumer (next_queue (queues st)) ets), subscribed k st).
Proof. intros H. unfold subscribe, subscribed. simpl. rewrite H. reflexivity. Qed.

Lemma subscribe_unhashable (ets : EventTypes) (st : State) :
  (forall k, hashable ets <> Ret k) ->
  snd (subscribe ets st) = mkState (subscribers st) (snd (new_queue (queues st))).
Proof.
  intros H. unfold subscribe. simpl.
  destruct (hashable ets) as [k| |]; [exfalso; apply (H k); reflexivity | reflexivity ..].
Qed.

Lemma with_key_facts (k : Key) (subs : Subscribers) :
  let subs0 := if has_key k subs then subs else subs ++ [(k, [])] in
  has_key k subs0 = true /\ registered subs0 = registered subs
  /\ forall x, bucket_of x subs0 = bucket_of x subs.
Proof.
  simpl. destruct (has_key k subs) eqn:E.
  - auto.
  - split; [apply has_key_snoc|]. split; [apply registered_snoc_empty|].
    intros x. apply bucket_of_snoc_empty.
Qed.

Lemma fresh_not_registered (st : State) :
  bus_ok st -> next_queue (queues st) ∉ registered (subscribers st).
Proof. intros [_ Hc _] Hin. apply Hc in Hin as [Hlt _]. lia. Qed.

Lemma bus_ok_new_queue (st : State) :
  bus_ok st -> bus_ok (mkState (subscribers st) (snd (new_queue (queues st)))).
Proof.
  intros [Hnd Hc Hb]. split; cbn [subscribers queues].
  - exact Hnd.
  - intros q Hq. destruct (Hc q Hq) as [Hlt Hs]. simpl. split; [lia|].
    rewrite lookup_insert_ne by lia. exact Hs.
  - intros q. apply new_queue_below. exact Hb.
Qed.

Lemma bus_ok_subscribed (k : Key) (st : State) : bus_ok st -> bus_ok (subscribed k st).
Proof.
  intros Hok. pose proof (fresh_not_registered st Hok) as Hfresh.
  destruct Hok as [Hnd Hc Hb].
  destruct (with_key_facts k (subscribers st)) as (Hk & Hreg & _).
  split; cbn [subscribed subscribers queues].
  - apply NoDup_append_to; [exact Hk | rewrite Hreg; exact Hfresh | rewrite Hreg; exact Hnd].
  - intros q Hq. apply (registered_append_to _ _ _ Hk) in Hq as [->|Hq]; simpl.
    + split; [lia|]. rewrite lookup_insert_eq. eauto.
    + rewrite Hreg in Hq. destruct (Hc q Hq) as [Hlt Hs]. split; [lia|].
      rewrite lookup_insert_ne by lia. exact Hs.
  - intros q. apply new_queue_below. exact Hb.
Qed.

Lemma bus_ok_subscribe (ets : EventTypes) (st : State) :
  bus_ok st -> bus_ok (snd (subscribe ets st)).
Proof.
  intros Hok. destruct (hashable ets) as [k| |] eqn:E.
  - rewrite (subscribe_hashable ets k st E). apply bus_ok_subscribed. exact Hok.
  - rewrite subscribe_unhashable by (intros k; congruence). apply bus_ok_new_queue. exact Hok.
  - rewrite subscribe_unhashable by (intros k; congruence). apply bus_ok_new_queue. exact Hok.
Qed.

Lemma bus_ok_call (c : Call) (st : State) : bus_ok st -> bus_ok (call st c).
Proof.
  destruct c; simpl.
  - apply bus_ok_publish.
  - apply bus_ok_subscribe.
  - apply bus_ok_unsubscribe.
Qed.

Lemma bus_ok_run (calls : list Call) (st : State) : bus_ok st -> bus_ok (run st calls).
Proof.
  revert st. induction calls as [|c calls IH]; intros st H; simpl; [exact H|].
  apply IH, bus_ok_call, H.
Qed.

(** *** What one call does to a queue *)

Lemma next_queue_call (c : Call) (st : State) :
  next_queue (queues st) <= next_queue (queues (call st c)).
Proof.
  destruct c as [e|ets|c]; cbn [call].
  - rewrite publish_unfold, deliver_next. lia.
  - unfold subscribe. simpl. destruct (hashable ets); simpl; lia.
  - simpl. lia.
Qed.

Lemma next_queue_run (calls : list Call) (st : State) :
  next_queue (queues st) <= next_queue (queues (run st calls)).
Proof.
  revert st. induction calls as [|c calls IH]; intros st; simpl; [lia|].
  pose proof (next_queue_call c st). specialize (IH (call st c)). lia.
Qed.

Lemma received_subscribe_old (ets : EventTypes) (st : State) (q : nat) :
  q < next_queue (queues st) ->
  received (queues (snd (subscribe ets st))) q = received (queues st) q.
Proof.
  intros Hlt. unfold subscribe. simpl.
  destruct (hashable ets); simpl; unfold received; simpl;
    rewrite lookup_insert_ne by lia; reflexivity.
Qed.

Lemma registered_subscribe_old (ets : EventTypes) (st : State) (q : nat) :
  q <> next_queue (queues st) ->
  bucket_of q (subscribers (snd (subscribe ets st))) = bucket_of q (subscribers st).
Proof.
  intros Hne. unfold subscribe. simpl.
  destruct (hashable ets) as [k| |]; simpl; try reflexivity.
  rewrite bucket_of_append_to_other by exact Hne.
  apply (with_key_facts k (subscribers st)).
Qed.

(** A queue that is not registered receives nothing, and stays out. *)
Lemma run_unregistered (calls : list Call) (st : State) (q : nat) :
  bus_ok st -> q ∉ registered (subscribers st) -> q < next_queue (queues st) ->
  received (queues (run st calls)) q = received (queues st) q.
Proof.
  revert st. induction calls as [|c calls IH]; intros st Hok Hq Hlt; [reflexivity|].
  cbn [run fold_left]. change (fold_left call calls (call st c)) with (run (call st c) calls).
  pose proof (next_queue_call c st) as Hn.
  rewrite IH; [| apply bus_ok_call; exact Hok | | lia].
  - destruct c as [e|ets|c]; cbn [call].
    + rewrite publish_unfold. apply deliver_notin. exact Hq.
    + apply received_subscribe_old. exact Hlt.
    + reflexivity.
  - destruct c as [e|ets|c]; cbn [call].
    + exact Hq.
    + apply bucket_of_None. rewrite registered_subscribe_old by lia.
      apply bucket_of_None. exact Hq.
    + intros H. apply Hq. eapply registered_remove_queue. exact H.
Qed.

(** A registered queue receives the matching events, in order, until it
    is unsubscribed. *)
Lemma run_registered (calls : list Call) (st : State) (q : nat) (k : Key) :
  bus_ok st -> bucket_of q (subscribers st) = Some k ->
  received (queues (run st calls)) q
  = received (queues st) q
    ++ List.filter (matches k) (published_while_subscribed q calls).
Proof.
  revert st. induction calls as [|c calls IH]; intros st Hok Hb.
  - simpl. rewrite app_nil_r. reflexivity.
  - cbn [run fold_left]. change (fold_left call calls (call st c)) with (run (call st c) calls).
    pose proof (bucket_of_Some q _ k Hb) as Hreg.
    destruct (ok_created st Hok q Hreg) as [Hlt Hs].
    destruct c as [e|ets|c]; cbn [call published_while_subscribed].
    + rewrite (IH _ (bus_ok_publish e st Hok) Hb).
      rewrite publish_unfold, (deliver_in e _ _ q k (ok_nodup st Hok) Hb Hs).
      cbn [List.filter]. rewrite <- app_assoc. destruct (matches k e); reflexivity.
    + rewrite (IH _ (bus_ok_subscribe ets st Hok)).
      * rewrite received_subscribe_old by exact Hlt. reflexivity.
      * rewrite registered_subscribe_old by lia. exact Hb.
    + destruct (Nat.eqb (queue c) q) eqn:E.
      * apply Nat.eqb_eq in E. cbn [List.filter]. rewrite app_nil_r.
        rewrite run_unregistered; [reflexivity | apply bus_ok_unsubscribe; exact Hok | | exact Hlt].
        simpl. rewrite E. apply NoDup_remove_queue. apply Hok.
      * apply Nat.eqb_neq in E.
        rewrite (IH _ (bus_ok_unsubscribe c st Hok)); [reflexivity|].
        simpl. rewrite bucket_of_remove_queue_other by congruence. exact Hb.
Qed.

Lemma accepts_matches (ets : EventTypes) (k : Key) (e : BaseEvent) :
  hashable ets = Ret k -> accepts ets e = matches k e.
Proof. destruct ets; simpl; intros H; inversion H; reflexivity. Qed.

Lemma filter_ext_bool {A} (f g : A -> bool) (l : list A) :
  (forall x, f x = g x) -> List.filter f l = List.filter g l.
Proof. intros H. induction l as [|x l IH]; simpl; [reflexivity|]. rewrite H, IH. reflexivity. Qed.

(** The part of C1 the code implements. On a bus reached by any calls, a
    consumer handed out by
    [subscribe] owns a queue that is new (never created before, registered
    for nobody, empty, and never handed out again), and whatever calls
    follow, the queue holds exactly the events published while it was
    subscribed that its filter accepts, in publish order. *)
Theorem subscriber_receives_matching_events
    (history : list Call) (ets : EventTypes) (consumer : QueueEventConsumer) :
  fst (subscribe ets (run init history)) = Ret consumer ->
  let before := run init history in
  let after := snd (subscribe ets before) in
  (items (queues before) !! queue consumer = None)
  /\ (queue consumer ∉ registered (subscribers before))
  /\ (received (queues after) (queue consumer) = [])
  /\ (forall calls ets' consumer',
        fst (subscribe ets' (run after calls)) = Ret consumer' ->
        queue consumer' <> queue consumer)
  /\ (forall calls,
        received (queues (run after calls)) (queue consumer)
        = List.filter (accepts ets) (published_while_subscribed (queue consumer) calls)).
Proof.
  intros Hsub before after. subst after. remember (run init history) as bus eqn:Hbus.
  subst before.
  assert (Hok : bus_ok bus) by (subst bus; apply bus_ok_run, bus_ok_init).
  clear Hbus. rename bus into before.
  destruct (hashable ets) as [k| |] eqn:Ek;
    try (unfold subscribe in Hsub; simpl in Hsub;
         rewrite Ek in Hsub; discriminate).
  pose proof (subscribe_hashable ets k before Ek) as Hs.
  rewrite Hs in Hsub. simpl in Hsub. inversion Hsub; subst consumer. clear Hsub.
  rewrite Hs. cbn [snd queue].
  pose proof (fresh_not_registered before Hok) as Hfresh.
  assert (Hnew : received (queues (subscribed k before)) (next_queue (queues before)) = []).
  { unfold received. simpl. rewrite lookup_insert_eq. reflexivity. }
  repeat split.
  - destruct (items (queues before) !! next_queue (queues before)) eqn:E; [|reflexivity].
    assert (H : is_Some (items (queues before) !! next_queue (queues before))) by eauto.
    apply (ok_below before Hok) in H. lia.
  - exact Hfresh.
  - exact Hnew.
  - intros calls ets' consumer' H.
    pose proof (next_queue_run calls (subscribed k before)) as Hn.
    unfold subscribe in H. simpl in H.
    destruct (hashable ets'); simpl in H; inversion H; subst consumer'. simpl in *. lia.
  - intros calls.
    rewrite (run_registered calls (subscribed k before) _ k).
    + rewrite Hnew. simpl. apply filter_ext_bool. intros e. symmetry.
      apply accepts_matches. exact Ek.
    + apply bus_ok_subscribed. exact Hok.
    + simpl. apply bucket_of_append_to_new.
      * apply (with_key_facts k (subscribers before)).
      * destruct (with_key_facts k (subscribers before)) as (_ & -> & _). exact Hfresh.
Qed.

(** A [set] cannot be a key of [self.subscribers]: [subscribe] raises
    TypeError and registers nothing. *)
Lemma subscribe_set_raises (s : gset EventType) (st : State) :
  fst (subscribe (PySet s) st) = Raise TypeError
  /\ subscribers (snd (subscribe (PySet s) st)) = subscribers st.
Proof. split; reflexivity. Qed.

Definition ev (t : EventType) : BaseEvent := mkBaseEvent t (JDict []).

Lemma subscriber_receives_matching_events_witness :
  fst (subscribe (PyFrozenset {[ERROR]}) (run init [Subscribe PyNone; Publish (ev ERROR)]))
  = Ret (mkConsumer 1 (PyFrozenset {[ERROR]}))
  /\ received
       (queues (run (snd (subscribe (PyFrozenset {[ERROR]})
                            (run init [Subscribe PyNone; Publish (ev ERROR)])))
                  [Publish (ev RUN_STARTED); Publish (ev ERROR);
                   Unsubscribe (mkConsumer 1 (PyFrozenset {[ERROR]}));
                   Publish (ev ERROR)]))
       1
     = [ev ERROR].
Proof.
  split; [reflexivity|].
  pose proof (subscriber_receives_matching_events
                [Subscribe PyNone; Publish (ev ERROR)] (PyFrozenset {[ERROR]})
                (mkConsumer 1 (PyFrozenset {[ERROR]})) eq_refl) as (_ & _ & _ & _ & H).
  rewrite (H _). vm_compute. reflexivity.
Defined.

(** C1, the code at the failing input: [subscribe] called with a set of
    kinds, the filter its signature and docstring name, never registers
    a subscriber. On every bus, for every set, the membership test on
    [self.subscribers] raises TypeError (a set is unhashable); the table of
    subscribers is left as it was, the queue created just before is
    registered for nobody, and whatever is published afterwards, events of
    the kinds asked for included, that queue stays empty. *)
Theorem subscribe_with_a_set_raises (history : list Call) (kinds : gset EventType) :
  let before := run init history in
  let after := snd (subscribe (PySet kinds) before) in
  fst (subscribe (PySet kinds) before) = Raise TypeError
  /\ subscribers after = subscribers before
  /\ (next_queue (queues before) ∉ registered (subscribers after))
  /\ (forall calls,
        received (queues (run after calls)) (next_queue (queues before)) = [])
  /\ fst (subscribe (PySet {[ERROR]}) init) = Raise TypeError
  /\ received
       (queues (run (snd (subscribe (PySet {[ERROR]}) init)) [Publish (ev ERROR)])) 0
     = [].
Proof.
  intros before after.
  assert (Hok : bus_ok before) by apply bus_ok_run, bus_ok_init.
  assert (Ha : after = mkState (subscribers before) (snd (new_queue (queues before))))
    by reflexivity.
  split; [reflexivity|]. split; [reflexivity|].
  split; [rewrite Ha; apply (fresh_not_registered before), Hok|].
  split; [|split; reflexivity].
  intros calls. rewrite run_unregistered.
  - rewrite Ha. unfold received. simpl. rewrite lookup_insert_eq. reflexivity.
  - rewrite Ha. apply bus_ok_new_queue, Hok.
  - rewrite Ha. apply (fresh_not_registered before), Hok.
  - rewrite Ha. simpl. lia.
Qed.

End EventBusFacts.

(* ===================================================================== *)
(** * Facts about the agent workflow routes *)
(* ===================================================================== *)

Module AgentFacts.
Import Agent.

(** ** _emit_event *)

(** The subscriber queues of a workflow. *)
Definition registry (st : State) (wid : UUID) : list nat :=
  default [] (event_queues st !! wid).

Lemma emit_unfold (wid : UUID) (t : string) (d : EventPayload) (now : Z) (st : State) :
  _emit_event wid t d now st
  = match event_queues st !! wid with
    | None => st
    | Some l => set_queues (put_each (mkEventData (uuid_str wid) t now d) l) st
    end.
Proof. reflexivity. Qed.

Lemma emit_workflows wid t d now st :
  active_workflows (_emit_event wid t d now st) = active_workflows st.
Proof. rewrite emit_unfold. destruct (event_queues st !! wid); reflexivity. Qed.

Lemma emit_event_queues wid t d now st :
  event_queues (_emit_event wid t d now st) = event_queues st.
Proof. rewrite emit_unfold. destruct (event_queues st !! wid); reflexivity. Qed.

Lemma emit_engine_calls wid t d now st :
  engine_calls (_emit_event wid t d now st) = engine_calls st.
Proof. rewrite emit_unfold. destruct (event_queues st !! wid); reflexivity. Qed.

Lemma emit_next_workflow wid t d now st :
  next_workflow (_emit_event wid t d now st) = next_workflow st.
Proof. rewrite emit_unfold. destruct (event_queues st !! wid); reflexivity. Qed.

Lemma emit_next_queue wid t d now st :
  next_queue (queues (_emit_event wid t d now st)) = next_queue (queues st).
Proof.
  rewrite emit_unfold. destruct (event_queues st !! wid); [|reflexivity].
  simpl. apply put_each_next.
Qed.

Lemma emit_is_Some wid t d now st q :
  is_Some (items (queues (_emit_event wid t d now st)) !! q)
  <-> is_Some (items (queues st) !! q).
Proof.
  rewrite emit_unfold. destruct (event_queues st !! wid); [|reflexivity].
  simpl. apply put_each_is_Some.
Qed.

Lemma emit_grows wid t d now st q :
  exists more, received (queues (_emit_event wid t d now st)) q
               = received (queues st) q ++ more.
Proof.
  rewrite emit_unfold. destruct (event_queues st !! wid).
  - simpl. apply put_each_grows.
  - exists []. rewrite app_nil_r. reflexivity.
Qed.

Lemma emit_received_in wid t d now st q :
  NoDup (registry st wid) -> q ∈ registry st wid -> is_Some (items (queues st) !! q) ->
  received (queues (_emit_event wid t d now st)) q
  = received (queues st) q ++ [mkEventData (uuid_str wid) t now d].
Proof.
  unfold registry. rewrite emit_unfold. destruct (event_queues st !! wid) as [l|]; simpl.
  - apply put_each_in.
  - intros _ H. apply elem_of_nil in H. contradiction.
Qed.

Lemma emit_received_notin wid t d now st q :
  q ∉ registry st wid ->
  received (queues (_emit_event wid t d now st)) q = received (queues st) q.
Proof.
  unfold registry. rewrite emit_unfold. destruct (event_queues st !! wid) as [l|]; simpl.
  - apply put_each_notin.
  - reflexivity.
Qed.

(** An event for a workflow without subscriber queues changes nothing. *)
Lemma emit_no_subscribers wid t d now st :
  registry st wid = [] -> _emit_event wid t d now st = st.
Proof.
  unfold registry. rewrite emit_unfold. destruct (event_queues st !! wid) as [l|]; simpl.
  - intros ->. destruct st; reflexivity.
  - reflexivity.
Qed.

(** ** The handlers that leave the registry alone *)

(** [st'] has the registry and the queue objects of [st]; only the
    contents of queues may differ. *)
Definition same_registry (st st' : State) : Prop :=
  event_queues st' = event_queues st
  /\ next_queue (queues st') = next_queue (queues st)
  /\ forall q, is_Some (items (queues st') !! q) <-> is_Some (items (queues st) !! q).

Lemma same_registry_refl (st : State) : same_registry st st.
Proof. repeat split; auto. Qed.

Lemma same_registry_trans (a b c : State) :
  same_registry a b -> same_registry b c -> same_registry a c.
Proof.
  intros (H1 & H2 & H3) (K1 & K2 & K3). repeat split; try congruence.
  - intros H. apply H3, K3, H.
  - intros H. apply K3, H3, H.
Qed.

Lemma same_registry_emit wid t d now st : same_registry st (_emit_event wid t d now st).
Proof.
  split; [apply emit_event_queues|]. split; [apply emit_next_queue|].
  intros q. apply emit_is_Some.
Qed.

Lemma same_registry_workflows f st : same_registry st (set_workflows f st).
Proof. repeat split; auto. Qed.

Lemma same_registry_engine_call w c st : same_registry st (engine_call w c st).
Proof. repeat split; auto. Qed.

Ltac same_reg :=
  repeat first
    [ apply same_registry_refl
    | eapply same_registry_trans; [| apply same_registry_emit]
    | eapply same_registry_trans; [| apply same_registry_engine_call]
    | eapply same_registry_trans; [| apply same_registry_workflows] ].

Lemma same_registry_run_begin wid now st : same_registry st (run_begin wid now st).
Proof. unfold run_begin. destruct (active_workflows st !! wid); same_reg. Qed.

Lemma same_registry_run_result wid r now st : same_registry st (run_result wid r now st).
Proof. unfold run_result. destruct (active_workflows st !! wid); same_reg. Qed.

Lemma same_registry_run_failure wid msg now st : same_registry st (run_failure wid msg now st).
Proof. unfold run_failure. destruct (active_workflows st !! wid); same_reg. Qed.

Lemma same_registry_handle wid ev now st :
  same_registry st (_handle_workflow_event wid ev now st).
Proof. unfold _handle_workflow_event. same_reg. Qed.

Lemma same_registry_action wid rq eng now st :
  same_registry st (snd (submit_agent_action wid rq eng now st)).
Proof.
  unfold submit_agent_action. destruct (active_workflows st !! wid); [|same_reg].
  destruct (negb _); [same_reg|]. destruct eng; simpl; same_reg.
Qed.

Lemma same_registry_feedback wid rq eng now st :
  same_registry st (snd (submit_agent_feedback wid rq eng now st)).
Proof.
  unfold submit_agent_feedback. destruct (active_workflows st !! wid); [|same_reg].
  destruct eng; simpl; same_reg.
Qed.

Lemma same_registry_cancel wid eng now st :
  same_registry st (snd (cancel_workflow wid eng now st)).
Proof.
  unfold cancel_workflow. destruct (active_workflows st !! wid); [|same_reg].
  destruct eng; simpl; same_reg.
Qed.

(** ** The generator *)

(** The generator has left its [try] statement. *)
Definition exited (g : Generator) : bool :=
  match pc g with
  | Finished => entered g
  | _ => false
  end.

(** A call either leaves the module state alone and keeps the count of
    [finally] runs, or leaves the [try] statement: then the [finally]
    block runs once, on the state of that moment. *)
Lemma resume_cases (c : GenCall) (g : Generator) (st : State)
    (out : GenOut) (g' : Generator) (st' : State) :
  resume c g st = (out, g', st') ->
  gen_workflow_id g' = gen_workflow_id g /\ gen_queue g' = gen_queue g
  /\ ((st' = st /\ finalized g' = finalized g /\ exited g' = exited g)
      \/ (exited g = false /\ st' = release g st /\ exited g' = true
          /\ finalized g' = S (finalized g))).
Proof.
  unfold resume, iteration, leave, suspend, exited.
  intros H. destruct (pc g) eqn:Epc;
  repeat match type of H with
         | context [match ?x with _ => _ end] => destruct x eqn:?
         end;
    inversion H; subst; simpl; rewrite ?Epc; repeat split; auto.
Qed.

Lemma release_lookup (g : Generator) (st : State) (w : UUID) :
  event_queues (release g st) !! w
  = if decide (w = gen_workflow_id g)
    then EventBus.list_remove (gen_queue g) <$> (event_queues st !! w)
    else event_queues st !! w.
Proof.
  unfold release. destruct (event_queues st !! gen_workflow_id g) as [l|] eqn:E.
  - destruct (existsb (Nat.eqb (gen_queue g)) l) eqn:Ex.
    + simpl. destruct (decide (w = gen_workflow_id g)) as [->|Hne].
      * rewrite lookup_insert_eq, E. reflexivity.
      * rewrite lookup_insert_ne by congruence. reflexivity.
    + apply existsb_eqb_not_elem in Ex.
      destruct (decide (w = gen_workflow_id g)) as [->|Hne]; [|reflexivity].
      rewrite E. simpl. rewrite list_remove_notin by exact Ex. reflexivity.
  - destruct (decide (w = gen_workflow_id g)) as [->|Hne]; [|reflexivity].
    rewrite E. reflexivity.
Qed.

Lemma release_queues (g : Generator) (st : State) : queues (release g st) = queues st.
Proof.
  unfold release. destruct (event_queues st !! gen_workflow_id g) as [l|]; [|reflexivity].
  destruct (existsb _ l); reflexivity.
Qed.

Lemma release_workflows (g : Generator) (st : State) :
  active_workflows (release g st) = active_workflows st.
Proof.
  unfold release. destruct (event_queues st !! gen_workflow_id g) as [l|]; [|reflexivity].
  destruct (existsb _ l); reflexivity.
Qed.

(** ** What holds of every reachable system *)

Record sys_ok (sys : System) : Prop := mk_sys_ok {
  reg_nodup : forall wid l, event_queues (state sys) !! wid = Some l -> NoDup l;
  reg_created : forall wid l q,
    event_queues (state sys) !! wid = Some l -> q ∈ l ->
    q < next_queue (queues (state sys)) /\ is_Some (items (queues (state sys)) !! q);
  reg_owner : forall wid l q,
    event_queues (state sys) !! wid = Some l -> q ∈ l ->
    exists g, generators sys !! q = Some g /\ gen_workflow_id g = wid /\ exited g = false;
  gen_named : forall q g,
    generators sys !! q = Some g ->
    gen_queue g = q /\ q < next_queue (queues (state sys));
  gen_count : forall q g,
    generators sys !! q = Some g -> finalized g = if exited g then 1 else 0
}.

Lemma sys_ok_boot : sys_ok boot.
Proof.
  split; simpl; intros *; rewrite lookup_empty; discriminate.
Qed.

Lemma sys_ok_same_registry (sys : System) (st' : State) :
  sys_ok sys -> same_registry (state sys) st' ->
  sys_ok (mkSystem st' (generators sys)).
Proof.
  intros [H1 H2 H3 H4 H5] (E1 & E2 & E3). split; simpl.
  - intros wid l. rewrite E1. apply H1.
  - intros wid l q. rewrite E1, E2, E3. apply H2.
  - intros wid l q. rewrite E1. apply H3.
  - intros q g. rewrite E2. apply H4.
  - exact H5.
Qed.

Lemma sys_ok_start (sys : System) (wid : UUID) (rq : StartAgentWorkflowRequest) :
  sys_ok sys ->
  sys_ok (mkSystem (snd (start_agent_workflow wid rq (state sys))) (generators sys)).
Proof.
  intros [H1 H2 H3 H4 H5]. split; simpl.
  - intros w l. destruct (decide (wid = w)) as [->|Hne].
    + rewrite lookup_insert_eq. intros H; inversion H. constructor.
    + rewrite lookup_insert_ne by exact Hne. apply H1.
  - intros w l q. destruct (decide (wid = w)) as [->|Hne].
    + rewrite lookup_insert_eq. intros H; inversion H. intros Hq.
      apply elem_of_nil in Hq. contradiction.
    + rewrite lookup_insert_ne by exact Hne. apply H2.
  - intros w l q. destruct (decide (wid = w)) as [->|Hne].
    + rewrite lookup_insert_eq. intros H; inversion H. intros Hq.
      apply elem_of_nil in Hq. contradiction.
    + rewrite lookup_insert_ne by exact Hne. apply H3.
  - exact H4.
  - exact H5.
Qed.

Lemma sys_ok_start_failure (sys : System) (wid : UUID) :
  sys_ok sys -> sys_ok (mkSystem (start_failure wid (state sys)) (generators sys)).
Proof.
  intros [H1 H2 H3 H4 H5]. split; simpl.
  - intros w l. destruct (decide (wid = w)) as [->|Hne].
    + rewrite lookup_insert_eq. intros H; inversion H. constructor.
    + rewrite lookup_insert_ne by exact Hne. apply H1.
  - intros w l q. destruct (decide (wid = w)) as [->|Hne].
    + rewrite lookup_insert_eq. intros H; inversion H. intros Hq.
      apply elem_of_nil in Hq. contradiction.
    + rewrite lookup_insert_ne by exact Hne. apply H2.
  - intros w l q. destruct (decide (wid = w)) as [->|Hne].
    + rewrite lookup_insert_eq. intros H; inversion H. intros Hq.
      apply elem_of_nil in Hq. contradiction.
    + rewrite lookup_insert_ne by exact Hne. apply H3.
  - exact H4.
  - exact H5.
Qed.

Lemma registry_Some (st : State) (wid : UUID) (l : list nat) :
  event_queues st !! wid = Some l -> registry st wid = l.
Proof. unfold registry. intros ->. reflexivity. Qed.

Lemma sys_ok_subscribe (sys : System) (wid : UUID) (now : Z) :
  sys_ok sys -> sys_ok (step sys (SubscribeToWorkflowEvents wid now)).
Proof.
  intros Hok. cbn [step]. unfold subscribe_to_workflow_events.
  destruct (active_workflows (state sys) !! wid) as [d|] eqn:Ed;
    [|destruct sys; exact Hok].
  cbn [new_queue]. set (q := next_queue (queues (state sys))).
  assert (Hreg : forall x, x ∈ registry (state sys) wid ->
                 x < q /\ is_Some (items (queues (state sys)) !! x)
                 /\ exists g, generators sys !! x = Some g
                              /\ gen_workflow_id g = wid /\ exited g = false).
  { unfold registry. destruct (event_queues (state sys) !! wid) as [l|] eqn:El; simpl.
    - intros x Hx. destruct (reg_created sys Hok wid l x El Hx). split; [assumption|].
      split; [assumption|]. apply (reg_owner sys Hok wid l x El Hx).
    - intros x Hx. apply elem_of_nil in Hx. contradiction. }
  assert (Hnd : NoDup (registry (state sys) wid)).
  { unfold registry. destruct (event_queues (state sys) !! wid) as [l|] eqn:El; simpl.
    - apply (reg_nodup sys Hok wid l El).
    - constructor. }
  fold (registry (state sys) wid).
  destruct Hok as [H1 H2 H3 H4 H5]. split; cbn [state generators event_queues queues].
  - intros w l. destruct (decide (wid = w)) as [->|Hne].
    + rewrite lookup_insert_eq. intros H; inversion H; subst l.
      apply NoDup_app. split; [exact Hnd|]. split; [|apply NoDup_singleton].
      intros x Hx Hx'. apply list_elem_of_singleton in Hx'. subst x.
      apply Hreg in Hx as [Hlt _]. lia.
    + rewrite lookup_insert_ne by exact Hne. apply H1.
  - assert (Hold : forall x, x < q -> is_Some (items (queues (state sys)) !! x) ->
              x < S q /\ is_Some (alter (fun l => l ++ [connection_established wid now d]) q
                                    (<[q := []]> (items (queues (state sys)))) !! x)).
    { intros x Hlt Hs. split; [lia|].
      rewrite lookup_alter_ne, lookup_insert_ne by lia. exact Hs. }
    intros w l x. simpl. destruct (decide (wid = w)) as [->|Hne].
    + rewrite lookup_insert_eq. intros H; inversion H; subst l. intros Hx.
      apply elem_of_app in Hx as [Hx|Hx].
      * apply Hreg in Hx as (Hlt & Hs & _). apply Hold; assumption.
      * apply list_elem_of_singleton in Hx. subst x. split; [lia|].
        rewrite lookup_alter_eq, lookup_insert_eq. simpl. eauto.
    + rewrite lookup_insert_ne by exact Hne. intros El Hx.
      destruct (H2 w l x El Hx). apply Hold; assumption.
  - intros w l x. destruct (decide (wid = w)) as [->|Hne].
    + rewrite lookup_insert_eq. intros H; inversion H; subst l. intros Hx.
      apply elem_of_app in Hx as [Hx|Hx].
      * apply Hreg in Hx as (Hlt & _ & g & Hg & Hw & He).
        exists g. rewrite lookup_insert_ne by lia. auto.
      * apply list_elem_of_singleton in Hx. subst x.
        exists (event_generator w q). rewrite lookup_insert_eq. auto.
    + rewrite lookup_insert_ne by exact Hne. intros El Hx.
      destruct (H3 w l x El Hx) as (g & Hg & Hw & He).
      destruct (H2 w l x El Hx) as [Hlt _].
      exists g. rewrite lookup_insert_ne by (fold q in Hlt; lia). auto.
  - intros x g. simpl. destruct (decide (q = x)) as [<-|Hne].
    + rewrite lookup_insert_eq. intros H; inversion H. simpl. split; [reflexivity | lia].
    + rewrite lookup_insert_ne by exact Hne. intros Hg.
      destruct (H4 x g Hg). fold q in H0. split; [assumption | lia].
  - intros x g. destruct (decide (q = x)) as [<-|Hne].
    + rewrite lookup_insert_eq. intros H; inversion H. reflexivity.
    + rewrite lookup_insert_ne by exact Hne. apply H5.
Qed.

Lemma sys_ok_resume (sys : System) (q : nat) (c : GenCall) :
  sys_ok sys -> sys_ok (step sys (Resume q c)).
Proof.
  intros Hok. cbn [step].
  destruct (generators sys !! q) as [g|] eqn:Eg; [|exact Hok].
  destruct (resume c g (state sys)) as [[out g'] st'] eqn:Er.
  destruct (gen_named sys Hok q g Eg) as [Hq Hlt].
  pose proof (gen_count sys Hok q g Eg) as Hcount.
  apply resume_cases in Er as (Hw & Hgq & [(-> & Hf & He) | (He & -> & He' & Hf)]).
  - destruct Hok as [H1 H2 H3 H4 H5]. split; cbn [state generators].
    + exact H1.
    + exact H2.
    + intros w l x El Hx. destruct (H3 w l x El Hx) as (g0 & Hg0 & Hw0 & He0).
      destruct (decide (q = x)) as [<-|Hne].
      * exists g'. rewrite lookup_insert_eq. rewrite Eg in Hg0. inversion Hg0; subst g0.
        split; [reflexivity|]. split; congruence.
      * exists g0. rewrite lookup_insert_ne by exact Hne. auto.
    + intros x g0. destruct (decide (q = x)) as [<-|Hne].
      * rewrite lookup_insert_eq. intros H; inversion H; subst g0. split; [congruence | exact Hlt].
      * rewrite lookup_insert_ne by exact Hne. apply H4.
    + intros x g0. destruct (decide (q = x)) as [<-|Hne].
      * rewrite lookup_insert_eq. intros H; inversion H; subst g0.
        rewrite Hf, He. exact Hcount.
      * rewrite lookup_insert_ne by exact Hne. apply H5.
  - rewrite He in Hcount.
    destruct Hok as [H1 H2 H3 H4 H5]. split; cbn [state generators].
    + intros w l. rewrite release_lookup.
      destruct (decide (w = gen_workflow_id g)) as [->|Hne]; [|apply H1].
      destruct (event_queues (state sys) !! gen_workflow_id g) as [l0|] eqn:El; [|discriminate].
      simpl. intros H; inversion H. apply NoDup_list_remove. apply (H1 _ _ El).
    + intros w l x. rewrite release_lookup, release_queues.
      destruct (decide (w = gen_workflow_id g)) as [->|Hne]; [|apply H2].
      destruct (event_queues (state sys) !! gen_workflow_id g) as [l0|] eqn:El; [|discriminate].
      simpl. intros H; inversion H; subst l. intros Hx.
      apply (H2 _ _ x El). eapply elem_of_list_remove. exact Hx.
    + intros w l x. rewrite release_lookup.
      assert (Hother : forall l0, event_queues (state sys) !! w = Some l0 -> x ∈ l0 ->
                x <> q ->
                exists g0, <[q := g']> (generators sys) !! x = Some g0
                           /\ gen_workflow_id g0 = w /\ exited g0 = false).
      { intros l0 El Hx Hne. destruct (H3 w l0 x El Hx) as (g0 & Hg0 & Hw0 & He0).
        exists g0. rewrite lookup_insert_ne by congruence. auto. }
      destruct (decide (w = gen_workflow_id g)) as [->|Hne].
      * destruct (event_queues (state sys) !! gen_workflow_id g) as [l0|] eqn:El; [|discriminate].
        simpl. intros H; inversion H; subst l. intros Hx.
        apply (Hother l0 eq_refl); [eapply elem_of_list_remove; exact Hx|].
        intros ->. rewrite Hq in Hx.
        apply (NoDup_list_remove q l0 (H1 _ _ El)) in Hx. exact Hx.
      * intros El Hx. apply (Hother l El Hx). intros ->.
        destruct (H3 w l q El Hx) as (g0 & Hg0 & Hw0 & _).
        rewrite Eg in Hg0. inversion Hg0; subst g0. congruence.
    + intros x g0. rewrite release_queues. destruct (decide (q = x)) as [<-|Hne].
      * rewrite lookup_insert_eq. intros H; inversion H; subst g0. split; [congruence | exact Hlt].
      * rewrite lookup_insert_ne by exact Hne. apply H4.
    + intros x g0. destruct (decide (q = x)) as [<-|Hne].
      * rewrite lookup_insert_eq. intros H; inversion H; subst g0.
        rewrite He', Hf, Hcount. reflexivity.
      * rewrite lookup_insert_ne by exact Hne. apply H5.
Qed.

Lemma sys_ok_step (sys : System) (a : Action) : sys_ok sys -> sys_ok (step sys a).
Proof.
  intros Hok. destruct a.
  - apply sys_ok_start. exact Hok.
  - apply sys_ok_same_registry; [exact Hok | apply same_registry_run_begin].
  - apply sys_ok_same_registry; [exact Hok | apply same_registry_run_result].
  - apply sys_ok_same_registry; [exact Hok | apply same_registry_run_failure].
  - apply sys_ok_same_registry; [exact Hok | apply same_registry_handle].
  - apply sys_ok_same_registry; [exact Hok | apply same_registry_action].
  - apply sys_ok_same_registry; [exact Hok | apply same_registry_feedback].
  - apply sys_ok_same_registry; [exact Hok | apply same_registry_cancel].
  - apply sys_ok_subscribe. exact Hok.
  - apply sys_ok_resume. exact Hok.
  - apply sys_ok_start_failure. exact Hok.
Qed.

Lemma sys_ok_run (trace : list Action) (sys : System) :
  sys_ok sys -> sys_ok (Agent.run sys trace).
Proof.
  revert sys. induction trace as [|a trace IH]; intros sys H; [exact H|].
  apply IH, sys_ok_step, H.
Qed.

Lemma sys_ok_reachable (trace : list Action) : sys_ok (Agent.run boot trace).
Proof. apply sys_ok_run, sys_ok_boot. Qed.

(** ** Queues only grow *)

(** From [st] to [st'] no queue loses an item and none is renumbered. *)
Definition grows (st st' : State) : Prop :=
  next_queue (queues st) <= next_queue (queues st')
  /\ forall q, q < next_queue (queues st) ->
       exists more, received (queues st') q = received (queues st) q ++ more.

Lemma grows_refl (st : State) : grows st st.
Proof. split; [lia|]. intros q _. exists []. rewrite app_nil_r. reflexivity. Qed.

Lemma grows_trans (a b c : State) : grows a b -> grows b c -> grows a c.
Proof.
  intros [H1 H2] [K1 K2]. split; [lia|]. intros q Hq.
  destruct (H2 q Hq) as [m1 E1]. destruct (K2 q ltac:(lia)) as [m2 E2].
  exists (m1 ++ m2). rewrite E2, E1, app_assoc. reflexivity.
Qed.

Lemma grows_same_queues (st st' : State) : queues st' = queues st -> grows st st'.
Proof.
  intros E. unfold grows. rewrite E. split; [lia|].
  intros q _. exists []. rewrite app_nil_r. reflexivity.
Qed.

Lemma grows_emit wid t d now st : grows st (_emit_event wid t d now st).
Proof. split; [rewrite emit_next_queue; lia|]. intros q _. apply emit_grows. Qed.

Lemma grows_step (sys : System) (a : Action) : grows (state sys) (state (step sys a)).
Proof.
  destruct a; cbn [step state].
  - apply grows_same_queues. reflexivity.
  - unfold run_begin. destruct (active_workflows (state sys) !! wid); [|apply grows_refl].
    eapply grows_trans; [|apply grows_same_queues; reflexivity].
    eapply grows_trans; [|apply grows_emit]. apply grows_same_queues. reflexivity.
  - unfold run_result. destruct (active_workflows (state sys) !! wid); [|apply grows_refl].
    eapply grows_trans; [|apply grows_emit]. apply grows_same_queues. reflexivity.
  - unfold run_failure. destruct (active_workflows (state sys) !! wid); [|apply grows_refl].
    eapply grows_trans; [|apply grows_emit]. apply grows_same_queues. reflexivity.
  - unfold _handle_workflow_event. apply grows_emit.
  - unfold submit_agent_action. destruct (active_workflows (state sys) !! wid); [|apply grows_refl].
    destruct (negb _); [apply grows_refl|]. destruct engine; cbn [snd].
    + eapply grows_trans; [|apply grows_emit]. apply grows_same_queues. reflexivity.
    + apply grows_same_queues. reflexivity.
  - unfold submit_agent_feedback. destruct (active_workflows (state sys) !! wid); [|apply grows_refl].
    destruct engine; cbn [snd].
    + eapply grows_trans; [|apply grows_emit]. apply grows_same_queues. reflexivity.
    + apply grows_same_queues. reflexivity.
  - unfold cancel_workflow. destruct (active_workflows (state sys) !! wid); [|apply grows_refl].
    destruct engine; cbn [snd].
    + eapply grows_trans; [|apply grows_emit]. apply grows_same_queues. reflexivity.
    + apply grows_same_queues. reflexivity.
  - unfold subscribe_to_workflow_events.
    destruct (active_workflows (state sys) !! wid); [|apply grows_refl].
    cbn [new_queue state queues]. split; simpl; [lia|].
    intros q Hq. exists []. rewrite app_nil_r. unfold received. simpl.
    rewrite lookup_alter_ne, lookup_insert_ne by lia. reflexivity.
  - destruct (generators sys !! q) as [g|]; [|apply grows_refl].
    destruct (resume c g (state sys)) as [[out g'] st'] eqn:Er. cbn [state].
    apply resume_cases in Er as (_ & _ & [(-> & _) | (_ & -> & _)]).
    + apply grows_refl.
    + apply grows_same_queues. apply release_queues.
  - apply grows_same_queues. reflexivity.
Qed.

Lemma grows_run (trace : list Action) (sys : System) :
  grows (state sys) (state (Agent.run sys trace)).
Proof.
  revert sys. induction trace as [|a trace IH]; intros sys; [apply grows_refl|].
  eapply grows_trans; [apply grows_step | apply IH].
Qed.

(** ** Subscribing *)

Lemma subscribe_result (wid : UUID) (now : Z) (st : State) (d : WorkflowData) :
  active_workflows st !! wid = Some d ->
  fst (subscribe_to_workflow_events wid now st) = Ret (next_queue (queues st))
  /\ received (queues (snd (subscribe_to_workflow_events wid now st)))
       (next_queue (queues st))
     = [connection_established wid now d]
  /\ next_queue (queues (snd (subscribe_to_workflow_events wid now st)))
     = S (next_queue (queues st)).
Proof.
  intros E. unfold subscribe_to_workflow_events. rewrite E. cbn [new_queue fst snd queues].
  split; [reflexivity|]. split; [|reflexivity].
  unfold received. simpl. rewrite lookup_alter_eq, lookup_insert_eq. reflexivity.
Qed.

(** C7: a subscription opened on an existing workflow, in whatever state
    the system and the workflow are, gets a queue whose first item is the
    connection_established event: the dict with the workflow id as a
    string, the event type connection_established, the time of the call
    and, as data, the workflow's status of that moment. It is the only
    item right after the call and stays first whatever happens later. *)
Theorem first_event_is_connection_established
    (trace : list Action) (wid : UUID) (now : Z) (d : WorkflowData) :
  active_workflows (state (Agent.run boot trace)) !! wid = Some d ->
  exists q,
    fst (subscribe_to_workflow_events wid now (state (Agent.run boot trace))) = Ret q
    /\ received
         (queues (state (step (Agent.run boot trace) (SubscribeToWorkflowEvents wid now)))) q
       = [mkEventData (uuid_str wid) "connection_established" now
            (Plain [("status", JStr (status d))])]
    /\ forall later,
         head (received
                 (queues (state (Agent.run
                                   (step (Agent.run boot trace)
                                      (SubscribeToWorkflowEvents wid now)) later))) q)
         = Some (mkEventData (uuid_str wid) "connection_established" now
                   (Plain [("status", JStr (status d))])).
Proof.
  intros E. set (sys := Agent.run boot trace) in *.
  destruct (subscribe_result wid now (state sys) d E) as (Hq & Hr & Hn).
  unfold connection_established in Hr.
  exists (next_queue (queues (state sys))).
  assert (Hstep : state (step sys (SubscribeToWorkflowEvents wid now))
                  = snd (subscribe_to_workflow_events wid now (state sys))).
  { cbn [step]. destruct (subscribe_to_workflow_events wid now (state sys)) as [r st] eqn:Es.
    simpl in Hq. subst r. reflexivity. }
  split; [exact Hq|]. rewrite Hstep. split; [exact Hr|].
  intros later.
  destruct (grows_run later (step sys (SubscribeToWorkflowEvents wid now))) as [_ Hg].
  rewrite Hstep in Hg. destruct (Hg (next_queue (queues (state sys))) ltac:(lia)) as [more Hm].
  rewrite Hm, Hr. reflexivity.
Qed.

(** ** Concrete runs *)

Definition demo_request : StartAgentWorkflowRequest :=
  mkStartRequest [("model", JStr "m")] (JDict [("q", JStr "hello")]).

Definition demo_workflow (s : string) (r : option JSON) (e : option string) : WorkflowData :=
  mkWorkflowData 0 s [("model", JStr "m")] (JDict [("q", JStr "hello")]) r e.

(** Workflow 7 is started and one client subscribes. *)
Definition demo_started : list Action :=
  [StartAgentWorkflow 7 demo_request; SubscribeToWorkflowEvents 7 100].

Lemma first_event_is_connection_established_witness :
  active_workflows (state (Agent.run boot [StartAgentWorkflow 7 demo_request;
                                           RunBegin 7 50;
                                           RunResult 7 (JDict [("answer", JStr "hi")]) 60]))
    !! 7%N
  = Some (demo_workflow "completed" (Some (JDict [("answer", JStr "hi")])) None)
  /\ exists q,
       fst (subscribe_to_workflow_events 7 100
              (state (Agent.run boot [StartAgentWorkflow 7 demo_request;
                                      RunBegin 7 50;
                                      RunResult 7 (JDict [("answer", JStr "hi")]) 60])))
       = Ret q
       /\ received
            (queues (state (step (Agent.run boot [StartAgentWorkflow 7 demo_request;
                                      RunBegin 7 50;
                                      RunResult 7 (JDict [("answer", JStr "hi")]) 60])
                              (SubscribeToWorkflowEvents 7 100)))) q
          = [mkEventData (uuid_str 7) "connection_established" 100
               (Plain [("status", JStr "completed")])]
       /\ forall later,
            head (received
                    (queues (state (Agent.run
                       (step (Agent.run boot [StartAgentWorkflow 7 demo_request;
                                      RunBegin 7 50;
                                      RunResult 7 (JDict [("answer", JStr "hi")]) 60])
                          (SubscribeToWorkflowEvents 7 100)) later))) q)
            = Some (mkEventData (uuid_str 7) "connection_established" 100
                      (Plain [("status", JStr "completed")])).
Proof.
  split; [vm_compute; reflexivity|].
  apply (first_event_is_connection_established
           [StartAgentWorkflow 7 demo_request; RunBegin 7 50;
            RunResult 7 (JDict [("answer", JStr "hi")]) 60] 7 100
           (demo_workflow "completed" (Some (JDict [("answer", JStr "hi")])) None)).
  vm_compute. reflexivity.
Defined.

(** ** C8 *)

(** C8: in every reachable system, a generator that has left its [try]
    statement, by whatever exit, has run its [finally] block exactly once
    and its queue is not in the registry of its workflow; a generator that
    has not left it has not run the block. *)
Theorem event_generator_releases_exactly_once
    (trace : list Action) (q : nat) (g : Generator) :
  generators (Agent.run boot trace) !! q = Some g ->
  finalized g = (if exited g then 1 else 0)
  /\ (exited g = true ->
      q ∉ registry (state (Agent.run boot trace)) (gen_workflow_id g)).
Proof.
  intros Hg. pose proof (sys_ok_reachable trace) as Hok.
  split; [apply (gen_count _ Hok q g Hg)|].
  intros He Hin. unfold registry in Hin.
  destruct (event_queues (state (Agent.run boot trace)) !! gen_workflow_id g) as [l|] eqn:El.
  - destruct (reg_owner _ Hok _ l q El Hin) as (g0 & Hg0 & _ & He0).
    rewrite Hg in Hg0. inversion Hg0; subst g0. congruence.
  - simpl in Hin. apply elem_of_nil in Hin. exact Hin.
Qed.

Lemma event_generator_releases_exactly_once_witness :
  generators (Agent.run boot (demo_started ++ [Resume 0 (ANext Connected None);
                                               Resume 0 (ANext Disconnected None)])) !! 0
  = Some (mkGenerator 7 0 Finished 1 true 1)
  /\ finalized (mkGenerator 7 0 Finished 1 true 1)
     = (if exited (mkGenerator 7 0 Finished 1 true 1) then 1 else 0)
  /\ (exited (mkGenerator 7 0 Finished 1 true 1) = true ->
      0 ∉ registry
            (state (Agent.run boot (demo_started ++ [Resume 0 (ANext Connected None);
                                                     Resume 0 (ANext Disconnected None)])))
            (gen_workflow_id (mkGenerator 7 0 Finished 1 true 1))).
Proof.
  split; [vm_compute; reflexivity|].
  apply (event_generator_releases_exactly_once
           (demo_started ++ [Resume 0 (ANext Connected None);
                             Resume 0 (ANext Disconnected None)]) 0).
  vm_compute. reflexivity.
Defined.

(** Every way out of the loop goes through the [finally] block: a call
    that finishes a generator which is inside its [try] statement, or
    enters it, runs [release] on the state of that moment, once. *)
Lemma every_exit_releases (c : GenCall) (g : Generator) (st : State)
    (out : GenOut) (g' : Generator) (st' : State) :
  resume c g st = (out, g', st') ->
  pc g <> Finished -> pc g' = Finished -> entered g' = true ->
  st' = release g st /\ finalized g' = S (finalized g).
Proof.
  intros Hr Hpc Hpc' He'.
  apply resume_cases in Hr as (_ & _ & [(_ & _ & He) | (_ & -> & _ & Hf)]); [|auto].
  unfold exited in He. rewrite Hpc' in He. exfalso.
  destruct (pc g); try congruence.
Qed.

(** What the block does: after it the queue is out of the list it was
    appended to. *)
Lemma release_removes (g : Generator) (st : State) :
  NoDup (registry st (gen_workflow_id g)) ->
  gen_queue g ∉ registry (release g st) (gen_workflow_id g).
Proof.
  unfold registry. rewrite release_lookup.
  destruct (decide _) as [_|Hne]; [|congruence].
  destruct (event_queues st !! gen_workflow_id g) as [l|]; simpl.
  - intros Hnd. apply NoDup_list_remove. exact Hnd.
  - intros _. apply not_elem_of_nil.
Qed.

(** A generator closed before its first iteration never entered the [try]
    statement: nothing is released. *)
Lemma close_before_start_keeps_queue (wid : UUID) (q : nat) (st : State) :
  resume AClose (event_generator wid q) st
  = (ReturnedNone, mkGenerator wid q Finished 0 false 0, st).
Proof. reflexivity. Qed.

(** ** Emission in a reachable system *)

Lemma registry_ok (sys : System) (wid : UUID) :
  sys_ok sys ->
  NoDup (registry (state sys) wid)
  /\ forall q, q ∈ registry (state sys) wid -> is_Some (items (queues (state sys)) !! q).
Proof.
  intros Hok. unfold registry.
  destruct (event_queues (state sys) !! wid) as [l|] eqn:El; simpl.
  - split; [apply (reg_nodup _ Hok wid l El)|].
    intros q Hq. apply (reg_created _ Hok wid l q El Hq).
  - split; [constructor|]. intros q Hq. apply elem_of_nil in Hq. contradiction.
Qed.

(** One event is put into each subscriber queue of the workflow and into
    no other queue. *)
Lemma emit_received wid t d now st q :
  NoDup (registry st wid) ->
  (forall x, x ∈ registry st wid -> is_Some (items (queues st) !! x)) ->
  received (queues (_emit_event wid t d now st)) q
  = received (queues st) q
    ++ (if bool_decide (q ∈ registry st wid)
        then [mkEventData (uuid_str wid) t now d] else []).
Proof.
  intros Hnd Hs. destruct (bool_decide (q ∈ registry st wid)) eqn:E.
  - apply bool_decide_eq_true in E. apply emit_received_in; auto.
  - apply bool_decide_eq_false in E. rewrite app_nil_r. apply emit_received_notin. exact E.
Qed.

(** ** C9 *)

(** C9: an event emitted for a workflow id that is absent from
    [event_queues], or whose list is empty, leaves the whole module state
    as it was (nothing is delivered and nothing is kept), so everything
    that follows is what it would have been without the event; a
    subscriber attaching afterwards finds only its connection_established
    event in its queue. *)
Theorem emit_without_subscribers_is_dropped
    (wid : UUID) (t : string) (d : EventPayload) (now : Z) (st : State) :
  event_queues st !! wid = None \/ event_queues st !! wid = Some [] ->
  _emit_event wid t d now st = st
  /\ (forall gens trace,
        Agent.run (mkSystem (_emit_event wid t d now st) gens) trace
        = Agent.run (mkSystem st gens) trace)
  /\ (forall now' w,
        active_workflows st !! wid = Some w ->
        exists q,
          fst (subscribe_to_workflow_events wid now' (_emit_event wid t d now st)) = Ret q
          /\ received
               (queues (snd (subscribe_to_workflow_events wid now'
                               (_emit_event wid t d now st)))) q
             = [connection_established wid now' w]).
Proof.
  intros H.
  assert (E : _emit_event wid t d now st = st).
  { apply emit_no_subscribers. unfold registry. destruct H as [-> | ->]; reflexivity. }
  rewrite E. split; [reflexivity|]. split; [reflexivity|].
  intros now' w Hw. exists (next_queue (queues st)).
  destruct (subscribe_result wid now' st w Hw) as (H1 & H2 & _). auto.
Qed.

Lemma emit_without_subscribers_is_dropped_witness :
  (event_queues (state (Agent.run boot [StartAgentWorkflow 7 demo_request])) !! 7%N = None
   \/ event_queues (state (Agent.run boot [StartAgentWorkflow 7 demo_request])) !! 7%N
      = Some [])
  /\ _emit_event 7 "status_update" (Plain [("status", JStr "running")]) 50
       (state (Agent.run boot [StartAgentWorkflow 7 demo_request]))
     = state (Agent.run boot [StartAgentWorkflow 7 demo_request]).
Proof.
  assert (H : event_queues (state (Agent.run boot [StartAgentWorkflow 7 demo_request])) !! 7%N
              = None
              \/ event_queues (state (Agent.run boot [StartAgentWorkflow 7 demo_request])) !! 7%N
                 = Some []) by (right; vm_compute; reflexivity).
  split; [exact H|].
  apply (emit_without_subscribers_is_dropped 7 "status_update"
           (Plain [("status", JStr "running")]) 50 _ H).
Defined.

(** A queue created by a subscription holds nothing that was emitted
    before, whatever the state was. *)
Lemma late_subscriber_starts_empty (wid : UUID) (now : Z) (st : State) (w : WorkflowData) :
  active_workflows st !! wid = Some w ->
  received (queues (snd (subscribe_to_workflow_events wid now st))) (next_queue (queues st))
  = [connection_established wid now w].
Proof. intros H. apply (subscribe_result wid now st w H). Qed.

(** ** C2 *)

Definition invalid_state (s : string) : exn :=
  HTTPException 400 ("Workflow is in " +:+ s +:+ " state and cannot receive actions").

(** C2 as the code has it: outside running and waiting_for_input an
    action is rejected with 400 before any engine call, and the state is
    what it was; a feedback submission is not checked against the status:
    it goes to the engine, and when the engine accepts it the request
    succeeds and each subscriber queue of the workflow receives one
    feedback_submitted event; when the engine raises, the request fails
    with 500 and no queue changes. The workflow entries are unchanged in
    every case. *)
Theorem submissions_outside_running
    (trace : list Action) (wid : UUID) (w : WorkflowData) :
  active_workflows (state (Agent.run boot trace)) !! wid = Some w ->
  accepts_actions (status w) = false ->
  (forall rq eng now,
      submit_agent_action wid rq eng now (state (Agent.run boot trace))
      = (Raise (invalid_state (status w)), state (Agent.run boot trace)))
  /\ (forall rq eng now,
        active_workflows (snd (submit_agent_feedback wid rq eng now (state (Agent.run boot trace))))
        = active_workflows (state (Agent.run boot trace))
        /\ engine_calls (snd (submit_agent_feedback wid rq eng now (state (Agent.run boot trace))))
           = engine_calls (state (Agent.run boot trace))
             ++ [(workflow w, submit_feedback (feedback_type rq) (feedback_data rq))]
        /\ match eng with
           | Returns =>
               fst (submit_agent_feedback wid rq eng now (state (Agent.run boot trace)))
               = Ret (mkWorkflowResponse wid (status w) "Feedback submitted successfully")
               /\ forall q,
                    received (queues (snd (submit_agent_feedback wid rq eng now
                                             (state (Agent.run boot trace))))) q
                    = received (queues (state (Agent.run boot trace))) q
                      ++ (if bool_decide (q ∈ registry (state (Agent.run boot trace)) wid)
                          then [mkEventData (uuid_str wid) "feedback_submitted" now
                                  (Plain [("feedback_type", JStr (feedback_type rq));
                                          ("feedback_data", JDict (feedback_data rq))])]
                          else [])
           | Raises msg =>
               fst (submit_agent_feedback wid rq eng now (state (Agent.run boot trace)))
               = Raise (HTTPException 500 msg)
               /\ queues (snd (submit_agent_feedback wid rq eng now
                                 (state (Agent.run boot trace))))
                  = queues (state (Agent.run boot trace))
           end).
Proof.
  intros Hw Hs. pose proof (sys_ok_reachable trace) as Hok.
  set (sys := Agent.run boot trace) in *.
  destruct (registry_ok sys wid Hok) as [Hnd Hcr].
  split.
  - intros rq eng now. unfold submit_agent_action. rewrite Hw, Hs. reflexivity.
  - intros rq eng now. unfold submit_agent_feedback. rewrite Hw.
    destruct eng as [|msg]; cbn [fst snd].
    + rewrite emit_workflows, emit_engine_calls. repeat split.
      intros q. apply (emit_received wid _ _ now (engine_call _ _ (state sys)) q Hnd Hcr).
    + repeat split.
Qed.

Definition demo_completed : list Action :=
  demo_started ++ [RunBegin 7 101; RunResult 7 (JDict [("answer", JStr "hi")]) 102].

Definition demo_feedback : AgentFeedbackRequest :=
  mkFeedbackRequest "rating" [("stars", JInt 5)].

(** Feedback sent to a completed workflow is accepted, reaches the engine
    and is broadcast. *)
Lemma feedback_after_completion_is_accepted :
  (status <$> active_workflows (state (Agent.run boot demo_completed)) !! 7%N
   = Some "completed")
  /\ fst (submit_agent_feedback 7 demo_feedback Returns 103
            (state (Agent.run boot demo_completed)))
     = Ret (mkWorkflowResponse 7 "completed" "Feedback submitted successfully")
  /\ engine_calls (snd (submit_agent_feedback 7 demo_feedback Returns 103
                          (state (Agent.run boot demo_completed))))
     = engine_calls (state (Agent.run boot demo_completed))
       ++ [(0, submit_feedback "rating" [("stars", JInt 5)])]
  /\ received (queues (snd (submit_agent_feedback 7 demo_feedback Returns 103
                              (state (Agent.run boot demo_completed))))) 0
     = received (queues (state (Agent.run boot demo_completed))) 0
       ++ [mkEventData (uuid_str 7) "feedback_submitted" 103
             (Plain [("feedback_type", JStr "rating");
                     ("feedback_data", JDict [("stars", JInt 5)])])].
Proof. vm_compute. repeat split. Qed.

Lemma submissions_outside_running_witness :
  active_workflows (state (Agent.run boot demo_completed)) !! 7%N
  = Some (demo_workflow "completed" (Some (JDict [("answer", JStr "hi")])) None)
  /\ accepts_actions "completed" = false
  /\ forall rq eng now,
       submit_agent_action 7 rq eng now (state (Agent.run boot demo_completed))
       = (Raise (invalid_state "completed"), state (Agent.run boot demo_completed)).
Proof.
  split; [vm_compute; reflexivity|]. split; [reflexivity|].
  apply (submissions_outside_running demo_completed 7
           (demo_workflow "completed" (Some (JDict [("answer", JStr "hi")])) None));
    vm_compute; reflexivity.
Defined.

(** ** C5 *)

(** The [event_data] put into the queues for an engine event. *)
Definition forwarded (wid : UUID) (event : EngineEvent) (now : Z) : EventData :=
  mkEventData (uuid_str wid) (default "unknown" (engine_type event)) now
    (AgentEventResponse_dict wid (default "unknown" (engine_type event))
       (engine_timestamp event) (default [] (engine_data event))).

(** C5 as the code has it: [_handle_workflow_event] does not look at the
    workflow's status. Whatever the status is, error included, the engine
    event is put into each subscriber queue of the workflow, once, and the
    workflow entries are untouched. *)
Theorem engine_events_forwarded_in_every_status
    (trace : list Action) (wid : UUID) (event : EngineEvent) (now : Z) (q : nat) :
  q ∈ registry (state (Agent.run boot trace)) wid ->
  received (queues (_handle_workflow_event wid event now (state (Agent.run boot trace)))) q
  = received (queues (state (Agent.run boot trace))) q ++ [forwarded wid event now]
  /\ active_workflows (_handle_workflow_event wid event now (state (Agent.run boot trace)))
     = active_workflows (state (Agent.run boot trace)).
Proof.
  intros Hq. pose proof (sys_ok_reachable trace) as Hok.
  destruct (registry_ok _ wid Hok) as [Hnd Hcr].
  unfold _handle_workflow_event. rewrite emit_workflows. split; [|reflexivity].
  rewrite (emit_received wid _ _ now _ q Hnd Hcr).
  rewrite bool_decide_eq_true_2 by exact Hq. reflexivity.
Qed.

(** The engine fails with "boom" while one client is subscribed. *)
Definition demo_failed : list Action :=
  demo_started ++ [RunBegin 7 101; RunFailure 7 "boom" 102].

Definition late_event : EngineEvent :=
  mkEngineEvent (Some "TEXT_MESSAGE_CONTENT") (Some 103%Z) (Some [("content", JStr "late")]).

(** An engine event handled after the workflow entered the error state is
    delivered to the subscriber, after the error event. *)
Lemma late_engine_event_is_forwarded :
  (status <$> active_workflows (state (Agent.run boot demo_failed)) !! 7%N = Some "error")
  /\ received (queues (state (Agent.run boot demo_failed))) 0
     = [connection_established 7 100 (demo_workflow "initializing" None None);
        mkEventData (uuid_str 7) "status_update" 101 (Plain [("status", JStr "running")]);
        mkEventData (uuid_str 7) "error" 102
          (Plain [("status", JStr "error"); ("error", JStr "boom")])]
  /\ received (queues (_handle_workflow_event 7 late_event 104
                         (state (Agent.run boot demo_failed)))) 0
     = received (queues (state (Agent.run boot demo_failed))) 0
       ++ [forwarded 7 late_event 104].
Proof. vm_compute. repeat split. Qed.

Lemma engine_events_forwarded_in_every_status_witness :
  0 ∈ registry (state (Agent.run boot demo_failed)) 7
  /\ received (queues (_handle_workflow_event 7 late_event 104
                         (state (Agent.run boot demo_failed)))) 0
     = received (queues (state (Agent.run boot demo_failed))) 0
       ++ [forwarded 7 late_event 104].
Proof.
  assert (H : 0 ∈ registry (state (Agent.run boot demo_failed)) 7)
    by (vm_compute; apply list_elem_of_here).
  split; [exact H|].
  apply (engine_events_forwarded_in_every_status demo_failed 7 late_event 104 0 H).
Defined.

(** ** C6 *)

Definition cancelled_event (wid : UUID) (now : Z) : EventData :=
  mkEventData (uuid_str wid) "cancelled" now (Plain [("status", JStr "cancelled")]).

(** C6 as the code has it: [cancel_workflow] does not look at the status.
    For every known workflow, terminal or not, the engine's cancel is
    called; when it returns, the request succeeds, the status becomes
    cancelled and each subscriber queue receives one cancelled event; when
    it raises, the request fails with 500, and the workflow entries and
    the queues are unchanged. *)
Theorem cancel_ignores_status
    (trace : list Action) (wid : UUID) (w : WorkflowData) (eng : Outcome) (now : Z) :
  active_workflows (state (Agent.run boot trace)) !! wid = Some w ->
  engine_calls (snd (cancel_workflow wid eng now (state (Agent.run boot trace))))
  = engine_calls (state (Agent.run boot trace)) ++ [(workflow w, cancel)]
  /\ match eng with
     | Returns =>
         fst (cancel_workflow wid eng now (state (Agent.run boot trace)))
         = Ret (mkWorkflowResponse wid "cancelled" "Workflow cancelled successfully")
         /\ active_workflows (snd (cancel_workflow wid eng now (state (Agent.run boot trace))))
            = <[wid := set_status "cancelled" w]>
                (active_workflows (state (Agent.run boot trace)))
         /\ forall q,
              received (queues (snd (cancel_workflow wid eng now
                                       (state (Agent.run boot trace))))) q
              = received (queues (state (Agent.run boot trace))) q
                ++ (if bool_decide (q ∈ registry (state (Agent.run boot trace)) wid)
                    then [cancelled_event wid now] else [])
     | Raises msg =>
         fst (cancel_workflow wid eng now (state (Agent.run boot trace)))
         = Raise (HTTPException 500 msg)
         /\ active_workflows (snd (cancel_workflow wid eng now (state (Agent.run boot trace))))
            = active_workflows (state (Agent.run boot trace))
         /\ queues (snd (cancel_workflow wid eng now (state (Agent.run boot trace))))
            = queues (state (Agent.run boot trace))
     end.
Proof.
  intros Hw. pose proof (sys_ok_reachable trace) as Hok.
  set (sys := Agent.run boot trace) in *.
  destruct (registry_ok sys wid Hok) as [Hnd Hcr].
  unfold cancel_workflow. rewrite Hw. destruct eng as [|msg]; cbn [fst snd].
  - rewrite emit_workflows, emit_engine_calls. repeat split.
    intros q.
    apply (emit_received wid _ _ now
             (set_workflows _ (engine_call _ _ (state sys))) q Hnd Hcr).
  - repeat split.
Qed.

(** Workflow 7 is running with one subscriber and is cancelled. *)
Definition demo_cancelled : list Action :=
  demo_started ++ [RunBegin 7 101; CancelWorkflow 7 Returns 102].

(** A second cancel of the cancelled workflow succeeds, calls the engine
    again and emits a second cancelled event. *)
Lemma second_cancel_succeeds :
  (status <$> active_workflows (state (Agent.run boot demo_cancelled)) !! 7%N
   = Some "cancelled")
  /\ fst (cancel_workflow 7 Returns 103 (state (Agent.run boot demo_cancelled)))
     = Ret (mkWorkflowResponse 7 "cancelled" "Workflow cancelled successfully")
  /\ engine_calls (snd (cancel_workflow 7 Returns 103 (state (Agent.run boot demo_cancelled))))
     = [(0, on_event); (0, arun (JDict [("q", JStr "hello")])); (0, cancel); (0, cancel)]
  /\ received (queues (snd (cancel_workflow 7 Returns 103
                              (state (Agent.run boot demo_cancelled))))) 0
     = [connection_established 7 100 (demo_workflow "initializing" None None);
        mkEventData (uuid_str 7) "status_update" 101 (Plain [("status", JStr "running")]);
        cancelled_event 7 102;
        cancelled_event 7 103].
Proof. vm_compute. repeat split. Qed.

Lemma cancel_ignores_status_witness :
  active_workflows (state (Agent.run boot demo_cancelled)) !! 7%N
  = Some (demo_workflow "cancelled" None None)
  /\ engine_calls (snd (cancel_workflow 7 Returns 103 (state (Agent.run boot demo_cancelled))))
     = engine_calls (state (Agent.run boot demo_cancelled)) ++ [(0, cancel)].
Proof.
  split; [vm_compute; reflexivity|].
  apply (cancel_ignores_status demo_cancelled 7 (demo_workflow "cancelled" None None)
           Returns 103).
  vm_compute. reflexivity.
Defined.

End AgentFacts.

(* ===================================================================== *)
(** * More about the agent workflow routes *)
(* ===================================================================== *)

Module WorkflowFacts.
Import Agent AgentFacts.

(** ** The entries of [active_workflows] *)

(** The status strings the module assigns: in [start_agent_workflow],
    [_run_agent_workflow] (three of them) and [cancel_workflow]. *)
Definition assigned_statuses : list string :=
  ["initializing"; "running"; "completed"; "error"; "cancelled"].

(** What the fields of an entry say about each other. *)
Record entry_ok (d : WorkflowData) : Prop := mk_entry_ok {
  status_assigned : status d ∈ assigned_statuses;
  fresh_is_blank : status d = "initializing" -> result d = None /\ error d = None;
  failed_has_error : status d = "error" -> is_Some (error d)
}.

Definition entries_ok (st : State) : Prop :=
  forall wid d, active_workflows st !! wid = Some d -> entry_ok d.

Lemma elem_of_assigned (s : string) :
  s ∈ assigned_statuses
  <-> s = "initializing" \/ s = "running" \/ s = "completed" \/ s = "error"
      \/ s = "cancelled".
Proof.
  unfold assigned_statuses. rewrite !elem_of_cons, elem_of_nil. tauto.
Qed.

Lemma entry_ok_running (d : WorkflowData) : entry_ok (set_status "running" d).
Proof.
  split; simpl; try discriminate. apply elem_of_assigned. auto.
Qed.

Lemma entry_ok_cancelled (d : WorkflowData) : entry_ok (set_status "cancelled" d).
Proof.
  split; simpl; try discriminate. apply elem_of_assigned. auto 6.
Qed.

Lemma entry_ok_completed (r : JSON) (d : WorkflowData) :
  entry_ok (set_result r (set_status "completed" d)).
Proof.
  split; simpl; try discriminate; eauto. apply elem_of_assigned. auto.
Qed.

Lemma entry_ok_error (msg : string) (d : WorkflowData) :
  entry_ok (set_error msg (set_status "error" d)).
Proof.
  split; simpl; try discriminate; eauto. apply elem_of_assigned. auto 6.
Qed.

Lemma entries_ok_insert (wid : UUID) (d : WorkflowData) (st st' : State) :
  entries_ok st -> entry_ok d ->
  active_workflows st' = <[wid := d]> (active_workflows st) ->
  entries_ok st'.
Proof.
  intros Hok Hd E w d'. rewrite E. destruct (decide (wid = w)) as [->|Hne].
  - rewrite lookup_insert_eq. intros H; inversion H; subst d'. exact Hd.
  - rewrite lookup_insert_ne by exact Hne. apply Hok.
Qed.

Lemma entries_ok_same (st st' : State) :
  entries_ok st -> active_workflows st' = active_workflows st -> entries_ok st'.
Proof. intros Hok E w d. rewrite E. apply Hok. Qed.

Lemma entries_ok_step (sys : System) (a : Action) :
  entries_ok (state sys) -> entries_ok (state (step sys a)).
Proof.
  intros Hok. destruct a; cbn [step state].
  - eapply entries_ok_insert; [exact Hok| |reflexivity].
    split; simpl; try discriminate; auto. apply elem_of_assigned. auto.
  - unfold run_begin. destruct (active_workflows (state sys) !! wid) as [d|]; [|exact Hok].
    eapply entries_ok_insert; [exact Hok|apply (entry_ok_running d)|].
    cbn [engine_call active_workflows]. rewrite emit_workflows. reflexivity.
  - unfold run_result. destruct (active_workflows (state sys) !! wid) as [d|]; [|exact Hok].
    eapply entries_ok_insert; [exact Hok|apply (entry_ok_completed r d)|].
    rewrite emit_workflows. reflexivity.
  - unfold run_failure. destruct (active_workflows (state sys) !! wid) as [d|]; [|exact Hok].
    eapply entries_ok_insert; [exact Hok|apply (entry_ok_error msg d)|].
    rewrite emit_workflows. reflexivity.
  - eapply entries_ok_same; [exact Hok|]. unfold _handle_workflow_event.
    apply emit_workflows.
  - eapply entries_ok_same; [exact Hok|]. unfold submit_agent_action.
    destruct (active_workflows (state sys) !! wid); [|reflexivity].
    destruct (negb _); [reflexivity|]. destruct engine; cbn [snd]; [|reflexivity].
    rewrite emit_workflows. reflexivity.
  - eapply entries_ok_same; [exact Hok|]. unfold submit_agent_feedback.
    destruct (active_workflows (state sys) !! wid); [|reflexivity].
    destruct engine; cbn [snd]; [|reflexivity].
    rewrite emit_workflows. reflexivity.
  - unfold cancel_workflow. destruct (active_workflows (state sys) !! wid) as [d|]; [|exact Hok].
    destruct engine; cbn [snd].
    + eapply entries_ok_insert; [exact Hok|apply (entry_ok_cancelled d)|].
      rewrite emit_workflows. reflexivity.
    + eapply entries_ok_same; [exact Hok|reflexivity].
  - unfold subscribe_to_workflow_events.
    destruct (active_workflows (state sys) !! wid); [|exact Hok].
    cbn [new_queue state]. eapply entries_ok_same; [exact Hok|reflexivity].
  - destruct (generators sys !! q) as [g|]; [|exact Hok].
    destruct (resume c g (state sys)) as [[out g'] st'] eqn:Er. cbn [state].
    apply resume_cases in Er as (_ & _ & [(-> & _) | (_ & -> & _)]); [exact Hok|].
    eapply entries_ok_same; [exact Hok|apply release_workflows].
  - eapply entries_ok_same; [exact Hok|reflexivity].
Qed.

Lemma entries_ok_run (trace : list Action) (sys : System) :
  entries_ok (state sys) -> entries_ok (state (Agent.run sys trace)).
Proof.
  revert sys. induction trace as [|a trace IH]; intros sys H; [exact H|].
  apply IH, entries_ok_step, H.
Qed.

Lemma entries_ok_reachable (trace : list Action) :
  entries_ok (state (Agent.run boot trace)).
Proof.
  apply entries_ok_run. intros wid d. simpl. rewrite lookup_empty. discriminate.
Qed.

(** X1. In every reachable state the status of a workflow is one of the
    five strings the module assigns. The status waiting_for_input, which
    [submit_agent_action] lets through, is never assigned: an action is
    accepted exactly when the status is running. *)
Theorem status_is_assigned (trace : list Action) (wid : UUID) (d : WorkflowData) :
  active_workflows (state (Agent.run boot trace)) !! wid = Some d ->
  status d ∈ assigned_statuses
  /\ status d <> "waiting_for_input"
  /\ (accepts_actions (status d) = true <-> status d = "running").
Proof.
  intros E. pose proof (status_assigned d (entries_ok_reachable trace wid d E)) as H.
  split; [exact H|]. apply elem_of_assigned in H.
  split.
  - destruct H as [-> | [-> | [-> | [-> | ->]]]]; discriminate.
  - destruct H as [-> | [-> | [-> | [-> | ->]]]]; split; try reflexivity; discriminate.
Qed.

Lemma status_is_assigned_witness :
  active_workflows (state (Agent.run boot demo_completed)) !! 7%N
  = Some (demo_workflow "completed" (Some (JDict [("answer", JStr "hi")])) None)
  /\ "completed" ∈ assigned_statuses
  /\ "completed" <> "waiting_for_input"
  /\ (accepts_actions "completed" = true <-> "completed" = "running").
Proof.
  split; [vm_compute; reflexivity|].
  apply (status_is_assigned demo_completed 7
           (demo_workflow "completed" (Some (JDict [("answer", JStr "hi")])) None)).
  vm_compute. reflexivity.
Defined.

(** X2. What [get_workflow_status] reports in a reachable state is
    consistent: the status initializing comes with no result and no
    error, and the status error comes with an error message. *)
Theorem status_response_is_consistent
    (trace : list Action) (wid : UUID) (r : AgentStatusResponse) :
  get_workflow_status wid (state (Agent.run boot trace)) = Ret r ->
  status_workflow_id r = wid
  /\ (status_status r = "initializing" -> status_result r = None /\ status_error r = None)
  /\ (status_status r = "error" -> is_Some (status_error r)).
Proof.
  unfold get_workflow_status.
  destruct (active_workflows (state (Agent.run boot trace)) !! wid) as [d|] eqn:E;
    [|discriminate].
  intros H; inversion H; subst r; simpl.
  destruct (entries_ok_reachable trace wid d E) as [_ H1 H2]. auto.
Qed.

Lemma status_response_is_consistent_witness :
  get_workflow_status 7 (state (Agent.run boot demo_failed))
  = Ret (mkStatusResponse 7 "error" [("model", JStr "m")] None (Some "boom"))
  /\ status_workflow_id (mkStatusResponse 7 "error" [("model", JStr "m")] None (Some "boom"))
     = 7%N
  /\ (status_status (mkStatusResponse 7 "error" [("model", JStr "m")] None (Some "boom"))
      = "initializing" ->
      status_result (mkStatusResponse 7 "error" [("model", JStr "m")] None (Some "boom"))
      = None
      /\ status_error (mkStatusResponse 7 "error" [("model", JStr "m")] None (Some "boom"))
         = None)
  /\ (status_status (mkStatusResponse 7 "error" [("model", JStr "m")] None (Some "boom"))
      = "error" ->
      is_Some (status_error
                 (mkStatusResponse 7 "error" [("model", JStr "m")] None (Some "boom")))).
Proof.
  split; [vm_compute; reflexivity|].
  apply (status_response_is_consistent demo_failed 7
           (mkStatusResponse 7 "error" [("model", JStr "m")] None (Some "boom"))).
  vm_compute. reflexivity.
Defined.

(** ** Workflows are never removed *)

(** [d'] is the entry [d] with, at most, another status, result or error:
    it holds the same workflow object and the same configuration. *)
Definition same_request (d d' : WorkflowData) : Prop :=
  workflow d' = workflow d /\ config d' = config d.

Lemma same_request_refl (d : WorkflowData) : same_request d d.
Proof. repeat split. Qed.

(** [start_agent_workflow] with this id. *)
Definition restarts (wid : UUID) (a : Action) : bool :=
  match a with
  | StartAgentWorkflow w _ => bool_decide (w = wid)
  | _ => false
  end.

Lemma insert_keeps (wid w : UUID) (d d0 : WorkflowData) (m : gmap UUID WorkflowData) :
  m !! wid = Some d -> (w = wid -> same_request d d0) ->
  exists d', <[w := d0]> m !! wid = Some d' /\ same_request d d'.
Proof.
  intros E H. destruct (decide (w = wid)) as [->|Hne].
  - exists d0. rewrite lookup_insert_eq. auto.
  - exists d. rewrite lookup_insert_ne by exact Hne. split; [exact E|apply same_request_refl].
Qed.

Lemma entry_kept_step (sys : System) (a : Action) (wid : UUID) (d : WorkflowData) :
  active_workflows (state sys) !! wid = Some d -> restarts wid a = false ->
  exists d', active_workflows (state (step sys a)) !! wid = Some d' /\ same_request d d'.
Proof.
  intros E Hr.
  assert (Hsame : forall st', active_workflows st' = active_workflows (state sys) ->
            exists d', active_workflows st' !! wid = Some d' /\ same_request d d').
  { intros st' ->. exists d. split; [exact E|apply same_request_refl]. }
  destruct a; cbn [step state].
  - simpl in Hr. apply bool_decide_eq_false in Hr.
    exists d. simpl. rewrite lookup_insert_ne by exact Hr.
    split; [exact E|apply same_request_refl].
  - unfold run_begin.
    destruct (active_workflows (state sys) !! wid0) as [d0|] eqn:E0; [|apply Hsame; reflexivity].
    cbn [engine_call active_workflows]. rewrite emit_workflows. simpl.
    apply insert_keeps; [exact E|]. intros ->. rewrite E in E0. inversion E0. repeat split.
  - unfold run_result.
    destruct (active_workflows (state sys) !! wid0) as [d0|] eqn:E0; [|apply Hsame; reflexivity].
    rewrite emit_workflows. simpl.
    apply insert_keeps; [exact E|]. intros ->. rewrite E in E0. inversion E0. repeat split.
  - unfold run_failure.
    destruct (active_workflows (state sys) !! wid0) as [d0|] eqn:E0; [|apply Hsame; reflexivity].
    rewrite emit_workflows. simpl.
    apply insert_keeps; [exact E|]. intros ->. rewrite E in E0. inversion E0. repeat split.
  - apply Hsame. unfold _handle_workflow_event. apply emit_workflows.
  - apply Hsame. unfold submit_agent_action.
    destruct (active_workflows (state sys) !! wid0); [|reflexivity].
    destruct (negb _); [reflexivity|]. destruct engine; cbn [snd]; [|reflexivity].
    rewrite emit_workflows. reflexivity.
  - apply Hsame. unfold submit_agent_feedback.
    destruct (active_workflows (state sys) !! wid0); [|reflexivity].
    destruct engine; cbn [snd]; [|reflexivity].
    rewrite emit_workflows. reflexivity.
  - unfold cancel_workflow.
    destruct (active_workflows (state sys) !! wid0) as [d0|] eqn:E0; [|apply Hsame; reflexivity].
    destruct engine; cbn [snd]; [|apply Hsame; reflexivity].
    rewrite emit_workflows. simpl.
    apply insert_keeps; [exact E|]. intros ->. rewrite E in E0. inversion E0. repeat split.
  - unfold subscribe_to_workflow_events.
    destruct (active_workflows (state sys) !! wid0); [|apply Hsame; reflexivity].
    cbn [new_queue state]. apply Hsame. reflexivity.
  - destruct (generators sys !! q) as [g|]; [|apply Hsame; reflexivity].
    destruct (resume c g (state sys)) as [[out g'] st'] eqn:Er. cbn [state].
    apply resume_cases in Er as (_ & _ & [(-> & _) | (_ & -> & _)]);
      apply Hsame; [reflexivity|apply release_workflows].
  - apply Hsame. reflexivity.
Qed.

Lemma known_step (sys : System) (a : Action) (wid : UUID) :
  is_Some (active_workflows (state sys) !! wid) ->
  is_Some (active_workflows (state (step sys a)) !! wid).
Proof.
  intros [d E]. destruct (restarts wid a) eqn:Hr.
  - destruct a; try discriminate. simpl in Hr. apply bool_decide_eq_true in Hr. subst wid0.
    cbn [step state]. simpl. rewrite lookup_insert_eq. eauto.
  - destruct (entry_kept_step sys a wid d E Hr) as (d' & E' & _). eauto.
Qed.

Lemma known_run (trace : list Action) (sys : System) (wid : UUID) :
  is_Some (active_workflows (state sys) !! wid) ->
  is_Some (active_workflows (state (Agent.run sys trace)) !! wid).
Proof.
  revert sys. induction trace as [|a trace IH]; intros sys H; [exact H|].
  apply IH, known_step, H.
Qed.

Lemma entry_kept_run (trace : list Action) (sys : System) (wid : UUID) (d : WorkflowData) :
  active_workflows (state sys) !! wid = Some d -> existsb (restarts wid) trace = false ->
  exists d', active_workflows (state (Agent.run sys trace)) !! wid = Some d'
             /\ same_request d d'.
Proof.
  revert sys d. induction trace as [|a trace IH]; intros sys d E Hr.
  - exists d. split; [exact E|apply same_request_refl].
  - simpl in Hr. apply orb_false_iff in Hr as [Ha Ht].
    destruct (entry_kept_step sys a wid d E Ha) as (d1 & E1 & (W1 & C1)).
    destruct (IH (step sys a) d1 E1 Ht) as (d2 & E2 & (W2 & C2)).
    exists d2. split; [exact E2|]. repeat split; congruence.
Qed.

Lemma agent_run_app (sys : System) (t1 t2 : list Action) :
  Agent.run sys (t1 ++ t2) = Agent.run (Agent.run sys t1) t2.
Proof. apply fold_left_app. Qed.

(** X3. Nothing removes an entry of [active_workflows]: once a workflow
    has been started, no handler answers 404 for its id, whatever was
    called in between. *)
Theorem started_workflow_is_never_not_found
    (trace : list Action) (wid : UUID) (request : StartAgentWorkflowRequest)
    (later : list Action) :
  is_Some (active_workflows
             (state (Agent.run boot (trace ++ StartAgentWorkflow wid request :: later)))
           !! wid)
  /\ get_workflow_status wid
       (state (Agent.run boot (trace ++ StartAgentWorkflow wid request :: later)))
     <> Raise (not_found wid)
  /\ (forall rq engine now,
        fst (submit_agent_action wid rq engine now
               (state (Agent.run boot (trace ++ StartAgentWorkflow wid request :: later))))
        <> Raise (not_found wid))
  /\ (forall rq engine now,
        fst (submit_agent_feedback wid rq engine now
               (state (Agent.run boot (trace ++ StartAgentWorkflow wid request :: later))))
        <> Raise (not_found wid))
  /\ (forall engine now,
        fst (cancel_workflow wid engine now
               (state (Agent.run boot (trace ++ StartAgentWorkflow wid request :: later))))
        <> Raise (not_found wid))
  /\ (forall now,
        fst (subscribe_to_workflow_events wid now
               (state (Agent.run boot (trace ++ StartAgentWorkflow wid request :: later))))
        <> Raise (not_found wid)).
Proof.
  rewrite agent_run_app. cbn [Agent.run fold_left]. fold (Agent.run).
  set (sys := step (Agent.run boot trace) (StartAgentWorkflow wid request)).
  change (fold_left step later sys) with (Agent.run sys later).
  assert (H : is_Some (active_workflows (state sys) !! wid)).
  { subst sys. cbn [step state]. simpl. rewrite lookup_insert_eq. eauto. }
  apply (known_run later) in H. split; [exact H|]. destruct H as [d E].
  unfold get_workflow_status, submit_agent_action, submit_agent_feedback, cancel_workflow,
    subscribe_to_workflow_events, not_found.
  rewrite E. cbn [new_queue]. repeat split; intros; try discriminate.
  - destruct (negb _); [discriminate|]. destruct engine; discriminate.
  - destruct engine; discriminate.
  - destruct engine; discriminate.
Qed.

(** X4. The configuration of a workflow is fixed when it is started: as
    long as the id is not started again, the entry keeps the
    configuration of the start request and the workflow object made for
    it, and every status response reports that configuration. *)
Theorem config_is_what_was_submitted
    (trace : list Action) (wid : UUID) (request : StartAgentWorkflowRequest)
    (later : list Action) :
  existsb (restarts wid) later = false ->
  exists d,
    active_workflows
      (state (Agent.run boot (trace ++ StartAgentWorkflow wid request :: later))) !! wid
    = Some d
    /\ config d = request_config request
    /\ workflow d = next_workflow (state (Agent.run boot trace))
    /\ forall r,
         get_workflow_status wid
           (state (Agent.run boot (trace ++ StartAgentWorkflow wid request :: later)))
         = Ret r ->
         status_config r = request_config request.
Proof.
  intros Hr. rewrite agent_run_app. cbn [Agent.run fold_left]. fold (Agent.run).
  set (sys := step (Agent.run boot trace) (StartAgentWorkflow wid request)).
  change (fold_left step later sys) with (Agent.run sys later).
  assert (E : active_workflows (state sys) !! wid
              = Some (mkWorkflowData (next_workflow (state (Agent.run boot trace)))
                        "initializing" (request_config request) (request_input request)
                        None None)).
  { subst sys. cbn [step state]. simpl. rewrite lookup_insert_eq. reflexivity. }
  destruct (entry_kept_run later sys wid _ E Hr) as (d & Ed & (W & C)).
  simpl in W, C. exists d. split; [exact Ed|]. split; [exact C|]. split; [exact W|].
  intros r. unfold get_workflow_status. rewrite Ed. intros H; inversion H. exact C.
Qed.

Lemma config_is_what_was_submitted_witness :
  existsb (restarts 7) [SubscribeToWorkflowEvents 7 100; RunBegin 7 101;
                        RunFailure 7 "boom" 102] = false
  /\ exists d,
       active_workflows
         (state (Agent.run boot ([] ++ StartAgentWorkflow 7 demo_request
                                   :: [SubscribeToWorkflowEvents 7 100; RunBegin 7 101;
                                       RunFailure 7 "boom" 102]))) !! 7%N
       = Some d
       /\ config d = request_config demo_request.
Proof.
  split; [reflexivity|].
  destruct (config_is_what_was_submitted [] 7 demo_request
              [SubscribeToWorkflowEvents 7 100; RunBegin 7 101; RunFailure 7 "boom" 102]
              eq_refl) as (d & E & C & _).
  exists d. split; [exact E | exact C].
Defined.

(** ** Every workflow has a subscriber list *)

(** The action is a call of [start_agent_workflow] for [wid] that one of
    the engine's constructors ended. *)
Definition start_failed (wid : UUID) (a : Action) : bool :=
  match a with
  | StartFailure w => bool_decide (w = wid)
  | _ => false
  end.

Ltac same_registry_case :=
  first [ apply same_registry_run_begin | apply same_registry_run_result
        | apply same_registry_run_failure | apply same_registry_handle
        | apply same_registry_action | apply same_registry_feedback
        | apply same_registry_cancel ].

(** How one step changes the keys of [event_queues]. *)
Lemma list_kept_step (sys : System) (a : Action) (wid : UUID) :
  is_Some (event_queues (state sys) !! wid) ->
  is_Some (event_queues (state (step sys a)) !! wid).
Proof.
  intros H.
  assert (Hins : forall w l, is_Some (<[w := l]> (event_queues (state sys)) !! wid)).
  { intros w l. destruct (decide (w = wid)) as [->|Hne].
    - rewrite lookup_insert_eq. eauto.
    - rewrite lookup_insert_ne by exact Hne. exact H. }
  destruct a; cbn [step state];
    try (match goal with
         | |- is_Some (event_queues ?st' !! _) =>
             let Hs := fresh in
             assert (Hs : same_registry (state sys) st') by same_registry_case;
             destruct Hs as [-> _]; exact H
         end).
  - apply Hins.
  - unfold subscribe_to_workflow_events.
    destruct (active_workflows (state sys) !! wid0); [|exact H].
    cbn [new_queue state event_queues]. apply Hins.
  - destruct (generators sys !! q) as [g|]; [|exact H].
    destruct (resume c g (state sys)) as [[out g'] st'] eqn:Er. cbn [state].
    apply resume_cases in Er as (_ & _ & [(-> & _) | (_ & -> & _)]); [exact H|].
    rewrite release_lookup. destruct (decide _); [|exact H].
    apply fmap_is_Some. exact H.
  - apply Hins.
Qed.

Lemma list_origin_step (sys : System) (a : Action) (wid : UUID) :
  is_Some (event_queues (state (step sys a)) !! wid) ->
  is_Some (event_queues (state sys) !! wid)
  \/ is_Some (active_workflows (state (step sys a)) !! wid)
  \/ start_failed wid a = true.
Proof.
  destruct a; cbn [step state start_failed];
    try (match goal with
         | |- is_Some (event_queues ?st' !! _) -> _ =>
             let Hs := fresh in
             assert (Hs : same_registry (state sys) st') by same_registry_case;
             destruct Hs as [-> _]; auto
         end).
  - simpl. destruct (decide (wid0 = wid)) as [->|Hne].
    + intros _. right. left. rewrite lookup_insert_eq. eauto.
    + rewrite lookup_insert_ne by exact Hne. auto.
  - unfold subscribe_to_workflow_events.
    destruct (active_workflows (state sys) !! wid0) as [d|] eqn:Ed; [|auto].
    cbn [new_queue state event_queues active_workflows].
    destruct (decide (wid0 = wid)) as [->|Hne].
    + intros _. right. left. eauto.
    + rewrite lookup_insert_ne by exact Hne. auto.
  - destruct (generators sys !! q) as [g|]; [|auto].
    destruct (resume c g (state sys)) as [[out g'] st'] eqn:Er. cbn [state].
    apply resume_cases in Er as (_ & _ & [(-> & _) | (_ & -> & _)]); [auto|].
    rewrite release_lookup. destruct (decide _) as [->|_]; [|auto].
    rewrite fmap_is_Some. auto.
  - simpl. destruct (decide (wid0 = wid)) as [->|Hne].
    + intros _. right. right. apply bool_decide_eq_true. reflexivity.
    + rewrite lookup_insert_ne by exact Hne. auto.
Qed.

(** A step makes a workflow known only by starting it. *)
Lemma known_origin_step (sys : System) (a : Action) (wid : UUID) :
  is_Some (active_workflows (state (step sys a)) !! wid) ->
  is_Some (active_workflows (state sys) !! wid) \/ restarts wid a = true.
Proof.
  intros H. destruct (restarts wid a) eqn:Hr; [auto|]. left.
  destruct a; cbn [step state] in H; simpl in Hr.
  - apply bool_decide_eq_false in Hr. simpl in H.
    rewrite lookup_insert_ne in H by exact Hr. exact H.
  - unfold run_begin in H.
    destruct (active_workflows (state sys) !! wid0) as [d0|] eqn:E0; [|exact H].
    cbn [engine_call active_workflows] in H. rewrite emit_workflows in H. simpl in H.
    destruct (decide (wid0 = wid)) as [<-|Hne]; [eauto|].
    rewrite lookup_insert_ne in H by exact Hne. exact H.
  - unfold run_result in H.
    destruct (active_workflows (state sys) !! wid0) as [d0|] eqn:E0; [|exact H].
    rewrite emit_workflows in H. simpl in H.
    destruct (decide (wid0 = wid)) as [<-|Hne]; [eauto|].
    rewrite lookup_insert_ne in H by exact Hne. exact H.
  - unfold run_failure in H.
    destruct (active_workflows (state sys) !! wid0) as [d0|] eqn:E0; [|exact H].
    rewrite emit_workflows in H. simpl in H.
    destruct (decide (wid0 = wid)) as [<-|Hne]; [eauto|].
    rewrite lookup_insert_ne in H by exact Hne. exact H.
  - unfold _handle_workflow_event in H. rewrite emit_workflows in H. exact H.
  - unfold submit_agent_action in H.
    destruct (active_workflows (state sys) !! wid0); [|exact H].
    destruct (negb _); [exact H|]. destruct engine; cbn [snd] in H; [|exact H].
    rewrite emit_workflows in H. exact H.
  - unfold submit_agent_feedback in H.
    destruct (active_workflows (state sys) !! wid0); [|exact H].
    destruct engine; cbn [snd] in H; [|exact H].
    rewrite emit_workflows in H. exact H.
  - unfold cancel_workflow in H.
    destruct (active_workflows (state sys) !! wid0) as [d0|] eqn:E0; [|exact H].
    destruct engine; cbn [snd] in H; [|exact H].
    rewrite emit_workflows in H. simpl in H.
    destruct (decide (wid0 = wid)) as [<-|Hne]; [eauto|].
    rewrite lookup_insert_ne in H by exact Hne. exact H.
  - unfold subscribe_to_workflow_events in H.
    destruct (active_workflows (state sys) !! wid0); exact H.
  - destruct (generators sys !! q) as [g|]; [|exact H].
    destruct (resume c g (state sys)) as [[out g'] st'] eqn:Er. cbn [state] in H.
    apply resume_cases in Er as (_ & _ & [(-> & _) | (_ & -> & _)]); [exact H|].
    rewrite release_workflows in H. exact H.
  - exact H.
Qed.

(** Every key of [active_workflows] is a key of [event_queues]. *)
Definition keys_covered (st : State) : Prop :=
  forall wid, is_Some (active_workflows st !! wid) -> is_Some (event_queues st !! wid).

Lemma keys_covered_step (sys : System) (a : Action) :
  keys_covered (state sys) -> keys_covered (state (step sys a)).
Proof.
  intros Hk wid H. apply known_origin_step in H as [H|Hr].
  - apply list_kept_step, Hk, H.
  - destruct a; try discriminate. simpl in Hr. apply bool_decide_eq_true in Hr. subst wid0.
    cbn [step state]. simpl. rewrite lookup_insert_eq. eauto.
Qed.

Lemma keys_covered_reachable (trace : list Action) :
  keys_covered (state (Agent.run boot trace)).
Proof.
  assert (H : forall t sys, keys_covered (state sys) -> keys_covered (state (Agent.run sys t))).
  { induction t as [|a t IH]; intros sys Hk; [exact Hk|]. apply IH, keys_covered_step, Hk. }
  apply H. intros w [x Hx]. simpl in Hx. rewrite lookup_empty in Hx. discriminate.
Qed.

Lemma list_origin (trace : list Action) (wid : UUID) :
  is_Some (event_queues (state (Agent.run boot trace)) !! wid) ->
  is_Some (active_workflows (state (Agent.run boot trace)) !! wid)
  \/ existsb (start_failed wid) trace = true.
Proof.
  induction trace as [|a trace IH] using rev_ind.
  - intros [x Hx]. simpl in Hx. rewrite lookup_empty in Hx. discriminate.
  - rewrite agent_run_app, existsb_app. cbn [Agent.run fold_left existsb].
    intros H. apply list_origin_step in H as [H | [H | H]].
    + apply IH in H as [H | H].
      * left. apply known_step, H.
      * right. rewrite H. reflexivity.
    + left. exact H.
    + right. rewrite H. rewrite orb_true_r. reflexivity.
Qed.

(** A start that fails leaves a subscriber list without a workflow. *)
Example failed_start_leaves_a_list :
  event_queues (state (Agent.run boot [StartFailure 7])) !! 7%N = Some []
  /\ active_workflows (state (Agent.run boot [StartFailure 7])) !! 7%N = None.
Proof. split; reflexivity. Qed.

(** X5. In every reachable state every key of [active_workflows] is a
    key of [event_queues]: a workflow that can be queried has a subscriber
    list. So a subscription never takes the branch that creates a missing
    list: it appends its queue to the list that is there. The converse
    holds up to failed starts: a subscriber list without a workflow comes
    from a call of [start_agent_workflow] for that id in which a
    constructor of the engine raised. *)
Theorem every_workflow_has_a_subscriber_list (trace : list Action) (wid : UUID) :
  (is_Some (active_workflows (state (Agent.run boot trace)) !! wid)
   -> is_Some (event_queues (state (Agent.run boot trace)) !! wid))
  /\ (forall now q,
        fst (subscribe_to_workflow_events wid now (state (Agent.run boot trace))) = Ret q ->
        exists l,
          event_queues (state (Agent.run boot trace)) !! wid = Some l
          /\ event_queues
               (snd (subscribe_to_workflow_events wid now (state (Agent.run boot trace))))
             !! wid = Some (l ++ [q]))
  /\ (is_Some (event_queues (state (Agent.run boot trace)) !! wid)
      -> is_Some (active_workflows (state (Agent.run boot trace)) !! wid)
         \/ existsb (start_failed wid) trace = true).
Proof.
  pose proof (keys_covered_reachable trace wid) as Hk.
  split; [exact Hk|]. split; [|apply list_origin].
  intros now q. unfold subscribe_to_workflow_events.
  destruct (active_workflows (state (Agent.run boot trace)) !! wid) as [d|] eqn:Ed;
    [|discriminate].
  destruct (Hk ltac:(eauto)) as [l El]. rewrite El.
  cbn [new_queue fst snd event_queues]. intros H. inversion H; subst q.
  exists l. split; [reflexivity|]. apply lookup_insert_eq.
Qed.

(** ** What a call puts into the queues *)

Lemma put_each_nil {A} (x : A) (qs : Queues A) : put_each x [] qs = qs.
Proof. reflexivity. Qed.

Lemma emit_queues wid t d now (st0 st : State) :
  event_queues st0 = event_queues st -> queues st0 = queues st ->
  queues (_emit_event wid t d now st0)
  = put_each (mkEventData (uuid_str wid) t now d) (registry st wid) (queues st).
Proof.
  intros E1 E2. rewrite emit_unfold. unfold registry. rewrite E1.
  destruct (event_queues st !! wid); simpl; rewrite E2; reflexivity.
Qed.

(** Every call other than a subscription either leaves the queues alone
    or puts one event, stamped with a workflow id, into the queues of that
    workflow's subscriber list. *)
Lemma step_queues (sys : System) (a : Action) :
  (forall wid now, a <> SubscribeToWorkflowEvents wid now) ->
  queues (state (step sys a)) = queues (state sys)
  \/ exists wid t d now,
       queues (state (step sys a))
       = put_each (mkEventData (uuid_str wid) t now d) (registry (state sys) wid)
           (queues (state sys)).
Proof.
  intros Hns. destruct a; cbn [step state].
  - left. reflexivity.
  - unfold run_begin. destruct (active_workflows (state sys) !! wid); [|left; reflexivity].
    right. do 4 eexists. cbn [engine_call queues]. apply emit_queues; reflexivity.
  - unfold run_result. destruct (active_workflows (state sys) !! wid); [|left; reflexivity].
    right. do 4 eexists. apply emit_queues; reflexivity.
  - unfold run_failure. destruct (active_workflows (state sys) !! wid); [|left; reflexivity].
    right. do 4 eexists. apply emit_queues; reflexivity.
  - right. do 4 eexists. unfold _handle_workflow_event. apply emit_queues; reflexivity.
  - unfold submit_agent_action.
    destruct (active_workflows (state sys) !! wid); [|left; reflexivity].
    destruct (negb _); [left; reflexivity|].
    destruct engine; cbn [snd]; [|left; reflexivity].
    right. do 4 eexists. apply emit_queues; reflexivity.
  - unfold submit_agent_feedback.
    destruct (active_workflows (state sys) !! wid); [|left; reflexivity].
    destruct engine; cbn [snd]; [|left; reflexivity].
    right. do 4 eexists. apply emit_queues; reflexivity.
  - unfold cancel_workflow.
    destruct (active_workflows (state sys) !! wid); [|left; reflexivity].
    destruct engine; cbn [snd]; [|left; reflexivity].
    right. do 4 eexists. apply emit_queues; reflexivity.
  - exfalso. apply (Hns wid now). reflexivity.
  - left. destruct (generators sys !! q) as [g|]; [|reflexivity].
    destruct (resume c g (state sys)) as [[out g'] st'] eqn:Er. cbn [state].
    apply resume_cases in Er as (_ & _ & [(-> & _) | (_ & -> & _)]);
      [reflexivity|apply release_queues].
  - left. reflexivity.
Qed.

Lemma put_elem {A} (q q' : nat) (x y : A) (qs : Queues A) :
  y ∈ received (put q' x qs) q -> y ∈ received qs q \/ (y = x /\ q = q').
Proof.
  unfold received, put. simpl. destruct (decide (q' = q)) as [->|Hne].
  - rewrite lookup_alter_eq. destruct (items qs !! q) as [l|]; simpl.
    + intros H. apply elem_of_app in H as [H|H]; [auto|].
      apply list_elem_of_singleton in H. auto.
    + auto.
  - rewrite lookup_alter_ne by exact Hne. auto.
Qed.

Lemma put_each_elem {A} (x y : A) (l : list nat) (qs : Queues A) (q : nat) :
  y ∈ received (put_each x l qs) q -> y ∈ received qs q \/ (y = x /\ q ∈ l).
Proof.
  unfold put_each. revert qs. induction l as [|q' l IH]; intros qs; simpl; [auto|].
  intros H. apply IH in H as [H|[-> H]].
  - apply put_elem in H as [H|[-> ->]]; [auto|]. right. split; [reflexivity|left].
  - right. split; [reflexivity|right; exact H].
Qed.

(** ** A subscriber only sees its own workflow *)

Definition stamped (sys : System) : Prop :=
  forall q g ev,
    generators sys !! q = Some g -> ev ∈ received (queues (state sys)) q ->
    workflow_id ev = uuid_str (gen_workflow_id g).

Lemma registry_owner (sys : System) (wid : UUID) (q : nat) (g : Generator) :
  sys_ok sys -> q ∈ registry (state sys) wid -> generators sys !! q = Some g ->
  gen_workflow_id g = wid.
Proof.
  intros Hok Hq Hg. unfold registry in Hq.
  destruct (event_queues (state sys) !! wid) as [l|] eqn:El; simpl in Hq.
  - destruct (reg_owner _ Hok wid l q El Hq) as (g0 & Hg0 & Hw & _). congruence.
  - apply elem_of_nil in Hq. contradiction.
Qed.

Lemma stamped_step (sys : System) (a : Action) :
  sys_ok sys -> stamped sys -> stamped (step sys a).
Proof.
  intros Hok Hst.
  destruct (match a with SubscribeToWorkflowEvents _ _ => true | _ => false end) eqn:Ha.
  - destruct a; try discriminate. cbn [step]. unfold subscribe_to_workflow_events.
    destruct (active_workflows (state sys) !! wid) as [d|]; [|exact Hst].
    cbn [new_queue]. intros q g ev. cbn [generators state queues].
    destruct (decide (next_queue (queues (state sys)) = q)) as [<-|Hne].
    + rewrite lookup_insert_eq. intros H; inversion H; subst g. simpl.
      unfold received. simpl. rewrite lookup_alter_eq, lookup_insert_eq. simpl.
      intros Hev. apply list_elem_of_singleton in Hev. subst ev. reflexivity.
    + rewrite lookup_insert_ne by exact Hne. unfold received. simpl.
      rewrite lookup_alter_ne, lookup_insert_ne by exact Hne. apply Hst.
  - assert (Hgen : forall q g', generators (step sys a) !! q = Some g' ->
              exists g, generators sys !! q = Some g
                        /\ gen_workflow_id g' = gen_workflow_id g).
    { intros q g'. destruct a; try discriminate; cbn [step generators]; eauto.
      destruct (generators sys !! q0) as [g0|] eqn:Eg; [|eauto].
      destruct (resume c g0 (state sys)) as [[out g1] st'] eqn:Er. cbn [generators].
      apply resume_cases in Er as (Hw & _). destruct (decide (q0 = q)) as [<-|Hne].
      - rewrite lookup_insert_eq. intros H; inversion H; subst g'. eauto.
      - rewrite lookup_insert_ne by exact Hne. eauto. }
    intros q g' ev Hg' Hev. destruct (Hgen q g' Hg') as (g & Hg & ->).
    destruct (step_queues sys a) as [E | (wid & t & d & now & E)].
    + intros wid now ->. discriminate.
    + rewrite E in Hev. apply (Hst q g ev Hg Hev).
    + rewrite E in Hev. apply put_each_elem in Hev as [Hev | [-> Hq]].
      * apply (Hst q g ev Hg Hev).
      * simpl. f_equal. symmetry. apply (registry_owner sys wid q g Hok Hq Hg).
Qed.

(** X6. Workflows are isolated from each other: whatever happens, every
    event in the queue of a subscription carries the id of the workflow
    the subscription was opened for. *)
Theorem subscriber_sees_only_its_workflow
    (trace : list Action) (q : nat) (g : Generator) (i : nat) (ev : EventData) :
  generators (Agent.run boot trace) !! q = Some g ->
  received (queues (state (Agent.run boot trace))) q !! i = Some ev ->
  workflow_id ev = uuid_str (gen_workflow_id g).
Proof.
  assert (H : forall t sys, sys_ok sys -> stamped sys -> stamped (Agent.run sys t)).
  { induction t as [|a t IH]; intros sys Hok Hst; [exact Hst|].
    apply IH; [apply sys_ok_step, Hok | apply stamped_step; assumption]. }
  intros Hg Hev. apply (H trace boot sys_ok_boot) with (q := q); [|exact Hg|].
  - intros q' g' ev'. simpl. rewrite lookup_empty. discriminate.
  - apply list_elem_of_lookup. eauto.
Qed.

(** Two workflows, one subscriber each, and events for both. *)
Definition two_workflows : list Action :=
  [StartAgentWorkflow 7 demo_request; StartAgentWorkflow 8 demo_request;
   SubscribeToWorkflowEvents 7 100; SubscribeToWorkflowEvents 8 101;
   RunBegin 8 102; RunBegin 7 103; CancelWorkflow 8 Returns 104].

Lemma subscriber_sees_only_its_workflow_witness :
  generators (Agent.run boot two_workflows) !! 0 = Some (event_generator 7 0)
  /\ received (queues (state (Agent.run boot two_workflows))) 0 !! 1
     = Some (mkEventData (uuid_str 7) "status_update" 103 (Plain [("status", JStr "running")]))
  /\ workflow_id
       (mkEventData (uuid_str 7) "status_update" 103 (Plain [("status", JStr "running")]))
     = uuid_str (gen_workflow_id (event_generator 7 0)).
Proof.
  split; [vm_compute; reflexivity|]. split; [vm_compute; reflexivity|].
  apply (subscriber_sees_only_its_workflow two_workflows 0 (event_generator 7 0) 1);
    vm_compute; reflexivity.
Defined.

(** ** Subscribers of one workflow see the same events *)

Lemma put_each_received {A} (x : A) (l : list nat) (qs : Queues A) (q : nat) :
  NoDup l -> (forall y, y ∈ l -> is_Some (items qs !! y)) ->
  received (put_each x l qs) q
  = received qs q ++ (if bool_decide (q ∈ l) then [x] else []).
Proof.
  intros Hnd Hs. destruct (bool_decide (q ∈ l)) eqn:E.
  - apply bool_decide_eq_true in E. apply put_each_in; auto.
  - apply bool_decide_eq_false in E. rewrite app_nil_r. apply put_each_notin. exact E.
Qed.

Lemma registered_once (sys : System) (wid w : UUID) (q : nat) :
  sys_ok sys -> q ∈ registry (state sys) wid -> q ∈ registry (state sys) w -> w = wid.
Proof.
  intros Hok H1 H2. unfold registry in H1.
  destruct (event_queues (state sys) !! wid) as [l|] eqn:El; simpl in H1.
  - destruct (reg_owner _ Hok wid l q El H1) as (g & Hg & Hw & _).
    rewrite <- Hw. symmetry. apply (registry_owner sys w q g Hok H2 Hg).
  - apply elem_of_nil in H1. contradiction.
Qed.

Lemma registry_below (sys : System) (wid : UUID) (q : nat) :
  sys_ok sys -> q ∈ registry (state sys) wid -> q < next_queue (queues (state sys)).
Proof.
  intros Hok Hq. unfold registry in Hq.
  destruct (event_queues (state sys) !! wid) as [l|] eqn:El; simpl in Hq.
  - apply (reg_created _ Hok wid l q El Hq).
  - apply elem_of_nil in Hq. contradiction.
Qed.

Lemma fanout_step (sys : System) (a : Action) (wid : UUID) (q1 q2 : nat) :
  sys_ok sys -> q1 ∈ registry (state sys) wid -> q2 ∈ registry (state sys) wid ->
  exists m,
    received (queues (state (step sys a))) q1 = received (queues (state sys)) q1 ++ m
    /\ received (queues (state (step sys a))) q2 = received (queues (state sys)) q2 ++ m.
Proof.
  intros Hok H1 H2.
  destruct (match a with SubscribeToWorkflowEvents _ _ => true | _ => false end) eqn:Ha.
  - destruct a; try discriminate. exists []. rewrite !app_nil_r.
    cbn [step]. unfold subscribe_to_workflow_events.
    destruct (active_workflows (state sys) !! wid0); [|auto].
    cbn [new_queue state queues]. unfold received. simpl.
    pose proof (registry_below sys wid q1 Hok H1).
    pose proof (registry_below sys wid q2 Hok H2).
    rewrite !lookup_alter_ne, !lookup_insert_ne by lia. auto.
  - destruct (step_queues sys a) as [E | (w & t & d & now & E)].
    + intros w now ->. discriminate.
    + exists []. rewrite E, !app_nil_r. auto.
    + destruct (registry_ok sys w Hok) as [Hnd Hs].
      rewrite E, !put_each_received by assumption.
      destruct (decide (w = wid)) as [->|Hne].
      * rewrite !bool_decide_eq_true_2 by assumption. eauto.
      * assert (N1 : q1 ∉ registry (state sys) w)
          by (intros Hq; apply Hne; exact (registered_once sys wid w q1 Hok H1 Hq)).
        assert (N2 : q2 ∉ registry (state sys) w)
          by (intros Hq; apply Hne; exact (registered_once sys wid w q2 Hok H2 Hq)).
        rewrite !bool_decide_eq_false_2 by assumption. exists []. auto.
Qed.

(** A queue that is in a subscriber list after a call, and existed before
    the call, was in that list before the call. *)
Lemma registry_back (sys : System) (a : Action) (wid : UUID) (q : nat) :
  q ∈ registry (state (step sys a)) wid -> q < next_queue (queues (state sys)) ->
  q ∈ registry (state sys) wid.
Proof.
  assert (Hsame : forall st', same_registry (state sys) st' ->
            q ∈ registry st' wid -> q ∈ registry (state sys) wid).
  { intros st' (E & _). unfold registry. rewrite E. auto. }
  intros Hq Hlt. destruct a; cbn [step state] in Hq.
  - unfold registry in *. simpl in Hq. destruct (decide (wid0 = wid)) as [->|Hne].
    + rewrite lookup_insert_eq in Hq. apply elem_of_nil in Hq. contradiction.
    + rewrite lookup_insert_ne in Hq by exact Hne. exact Hq.
  - eapply Hsame; [apply same_registry_run_begin|exact Hq].
  - eapply Hsame; [apply same_registry_run_result|exact Hq].
  - eapply Hsame; [apply same_registry_run_failure|exact Hq].
  - eapply Hsame; [apply same_registry_handle|exact Hq].
  - eapply Hsame; [apply same_registry_action|exact Hq].
  - eapply Hsame; [apply same_registry_feedback|exact Hq].
  - eapply Hsame; [apply same_registry_cancel|exact Hq].
  - unfold subscribe_to_workflow_events in Hq.
    destruct (active_workflows (state sys) !! wid0); [|exact Hq].
    cbn [new_queue state] in Hq. unfold registry in *. simpl in Hq.
    destruct (decide (wid0 = wid)) as [->|Hne].
    + rewrite lookup_insert_eq in Hq. simpl in Hq.
      apply elem_of_app in Hq as [Hq|Hq].
      * destruct (event_queues (state sys) !! wid); exact Hq.
      * apply list_elem_of_singleton in Hq. lia.
    + rewrite lookup_insert_ne in Hq by exact Hne. exact Hq.
  - destruct (generators sys !! q0) as [g|]; [|exact Hq].
    destruct (resume c g (state sys)) as [[out g'] st'] eqn:Er. cbn [state] in Hq.
    apply resume_cases in Er as (_ & _ & [(-> & _) | (_ & -> & _)]); [exact Hq|].
    unfold registry in *. rewrite release_lookup in Hq.
    destruct (decide _) as [->|_]; [|exact Hq].
    destruct (event_queues (state sys) !! gen_workflow_id g); simpl in *; [|exact Hq].
    eapply elem_of_list_remove. exact Hq.
  - unfold registry in *. simpl in Hq. destruct (decide (wid0 = wid)) as [->|Hne].
    + rewrite lookup_insert_eq in Hq. apply elem_of_nil in Hq. contradiction.
    + rewrite lookup_insert_ne in Hq by exact Hne. exact Hq.
Qed.

Lemma registry_back_run (later : list Action) (sys : System) (wid : UUID) (q : nat) :
  q ∈ registry (state (Agent.run sys later)) wid -> q < next_queue (queues (state sys)) ->
  q ∈ registry (state sys) wid.
Proof.
  revert sys. induction later as [|a later IH]; intros sys Hq Hlt; [exact Hq|].
  apply (registry_back sys a); [|exact Hlt].
  apply IH; [exact Hq|]. destruct (grows_step sys a) as [Hn _]. lia.
Qed.

Lemma fanout_run (later : list Action) (sys : System) (wid : UUID) (q1 q2 : nat) :
  sys_ok sys ->
  q1 < next_queue (queues (state sys)) -> q2 < next_queue (queues (state sys)) ->
  q1 ∈ registry (state (Agent.run sys later)) wid ->
  q2 ∈ registry (state (Agent.run sys later)) wid ->
  exists m,
    received (queues (state (Agent.run sys later))) q1
    = received (queues (state sys)) q1 ++ m
    /\ received (queues (state (Agent.run sys later))) q2
       = received (queues (state sys)) q2 ++ m.
Proof.
  revert sys. induction later as [|a later IH]; intros sys Hok L1 L2 H1 H2.
  - exists []. rewrite !app_nil_r. auto.
  - cbn [Agent.run fold_left] in *. fold (Agent.run (step sys a) later) in *.
    destruct (grows_step sys a) as [Hn _].
    destruct (IH (step sys a) (sys_ok_step sys a Hok) ltac:(lia) ltac:(lia) H1 H2)
      as (m' & E1 & E2).
    assert (R1 : q1 ∈ registry (state sys) wid).
    { apply (registry_back sys a); [|exact L1]. apply (registry_back_run later); [exact H1|lia]. }
    assert (R2 : q2 ∈ registry (state sys) wid).
    { apply (registry_back sys a); [|exact L2]. apply (registry_back_run later); [exact H2|lia]. }
    destruct (fanout_step sys a wid q1 q2 Hok R1 R2) as (m & F1 & F2).
    exists (m ++ m'). rewrite E1, E2, F1, F2, !app_assoc. auto.
Qed.

(** X7. Subscribers of the same workflow are served alike: two queues that
    both existed at some moment and are both in the subscriber list of a
    workflow at a later moment have received, in between, the same events
    in the same order. *)
Theorem co_subscribers_receive_the_same
    (trace later : list Action) (wid : UUID) (q1 q2 : nat) :
  q1 < next_queue (queues (state (Agent.run boot trace))) ->
  q2 < next_queue (queues (state (Agent.run boot trace))) ->
  q1 ∈ registry (state (Agent.run (Agent.run boot trace) later)) wid ->
  q2 ∈ registry (state (Agent.run (Agent.run boot trace) later)) wid ->
  exists m,
    received (queues (state (Agent.run (Agent.run boot trace) later))) q1
    = received (queues (state (Agent.run boot trace))) q1 ++ m
    /\ received (queues (state (Agent.run (Agent.run boot trace) later))) q2
       = received (queues (state (Agent.run boot trace))) q2 ++ m.
Proof. apply fanout_run, sys_ok_reachable. Qed.

(** Workflow 7 with two subscribers, then a run that completes. *)
Definition two_subscribers : list Action :=
  [StartAgentWorkflow 7 demo_request;
   SubscribeToWorkflowEvents 7 100; SubscribeToWorkflowEvents 7 101].

Definition a_run : list Action :=
  [RunBegin 7 102; RunResult 7 (JDict [("answer", JStr "hi")]) 103].

Lemma co_subscribers_receive_the_same_witness :
  0 < next_queue (queues (state (Agent.run boot two_subscribers)))
  /\ 1 < next_queue (queues (state (Agent.run boot two_subscribers)))
  /\ 0 ∈ registry (state (Agent.run (Agent.run boot two_subscribers) a_run)) 7
  /\ 1 ∈ registry (state (Agent.run (Agent.run boot two_subscribers) a_run)) 7
  /\ exists m,
       received (queues (state (Agent.run (Agent.run boot two_subscribers) a_run))) 0
       = received (queues (state (Agent.run boot two_subscribers))) 0 ++ m
       /\ received (queues (state (Agent.run (Agent.run boot two_subscribers) a_run))) 1
          = received (queues (state (Agent.run boot two_subscribers))) 1 ++ m.
Proof.
  assert (L0 : 0 < next_queue (queues (state (Agent.run boot two_subscribers))))
    by (vm_compute; lia).
  assert (L1 : 1 < next_queue (queues (state (Agent.run boot two_subscribers))))
    by (vm_compute; lia).
  assert (R0 : 0 ∈ registry (state (Agent.run (Agent.run boot two_subscribers) a_run)) 7)
    by (vm_compute; apply list_elem_of_here).
  assert (R1 : 1 ∈ registry (state (Agent.run (Agent.run boot two_subscribers) a_run)) 7)
    by (vm_compute; apply list_elem_of_further, list_elem_of_here).
  repeat (split; [assumption|]).
  apply (co_subscribers_receive_the_same two_subscribers a_run 7 0 1 L0 L1 R0 R1).
Defined.

(** ** Engine events in the stream *)

Lemma dumps_event_forwarded (wid : UUID) (event : EngineEvent) (now : Z) :
  dumps_event (forwarded wid event now) = None.
Proof. reflexivity. Qed.

(** X8. An engine event forwarded by [_handle_workflow_event] cannot be
    written to a stream. When a generator reaches it in its queue,
    [json.dumps] raises TypeError on the UUID inside the event, the
    exception leaves the generator, and the [finally] block takes the
    queue out of the subscriber list: the subscription is over. *)
Theorem forwarded_engine_event_ends_the_stream
    (trace : list Action) (q : nat) (g : Generator)
    (wid : UUID) (event : EngineEvent) (now : Z) :
  generators (Agent.run boot trace) !! q = Some g ->
  pc g <> Finished ->
  received (queues (state (Agent.run boot trace))) q !! taken g
  = Some (forwarded wid event now) ->
  exists g',
    resume (ANext Connected None) g (state (Agent.run boot trace))
    = (Raised TypeError, g', release g (state (Agent.run boot trace)))
    /\ pc g' = Finished
    /\ taken g' = S (taken g)
    /\ q ∉ registry (release g (state (Agent.run boot trace))) (gen_workflow_id g).
Proof.
  intros Hg Hpc Hev. pose proof (sys_ok_reachable trace) as Hok.
  destruct (gen_named _ Hok q g Hg) as [Hq _].
  rewrite <- Hq in Hev.
  exists (mkGenerator (gen_workflow_id g) (gen_queue g) Finished (S (taken g)) true
            (S (finalized g))).
  split; [|split; [reflexivity|split; [reflexivity|]]].
  - unfold resume, iteration.
    destruct (pc g); try congruence; rewrite Hev; reflexivity.
  - rewrite <- Hq. apply release_removes. apply registry_ok. exact Hok.
Qed.

Definition engine_event_queued : list Action :=
  demo_started ++ [Resume 0 (ANext Connected None); HandleWorkflowEvent 7 late_event 104].

Lemma forwarded_engine_event_ends_the_stream_witness :
  generators (Agent.run boot engine_event_queued) !! 0
  = Some (mkGenerator 7 0 AtDataYield 1 true 0)
  /\ pc (mkGenerator 7 0 AtDataYield 1 true 0) <> Finished
  /\ received (queues (state (Agent.run boot engine_event_queued))) 0 !! 1
     = Some (forwarded 7 late_event 104)
  /\ exists g',
       resume (ANext Connected None) (mkGenerator 7 0 AtDataYield 1 true 0)
         (state (Agent.run boot engine_event_queued))
       = (Raised TypeError, g',
          release (mkGenerator 7 0 AtDataYield 1 true 0)
            (state (Agent.run boot engine_event_queued)))
       /\ pc g' = Finished
       /\ taken g' = 2
       /\ 0 ∉ registry (release (mkGenerator 7 0 AtDataYield 1 true 0)
                          (state (Agent.run boot engine_event_queued))) 7.
Proof.
  split; [vm_compute; reflexivity|]. split; [discriminate|].
  split; [vm_compute; reflexivity|].
  apply (forwarded_engine_event_ends_the_stream engine_event_queued 0
           (mkGenerator 7 0 AtDataYield 1 true 0) 7 late_event 104);
    [vm_compute; reflexivity | discriminate | vm_compute; reflexivity].
Defined.

(** ** The order of the stream *)






End WorkflowFacts.

(* ===================================================================== *)
(** * More about the event bus *)
(* ===================================================================== *)

Module SubscriptionFacts.
Import EventBus EventBusFacts.

(** ** publish *)

(** X9. One call of [publish] on a bus reached by any calls: the table of
    subscribers is untouched, every registered queue whose filter accepts
    the event gets one copy at its end (also when several queues share a
    filter), and no other queue changes. *)
Theorem publish_fans_out (calls : list Call) (event : BaseEvent) (q : nat) :
  subscribers (publish event (run init calls)) = subscribers (run init calls)
  /\ received (queues (publish event (run init calls))) q
     = received (queues (run init calls)) q
       ++ match bucket_of q (subscribers (run init calls)) with
          | Some k => if matches k event then [event] else []
          | None => []
          end.
Proof.
  split; [reflexivity|].
  assert (Hok : bus_ok (run init calls)) by apply bus_ok_run, bus_ok_init.
  rewrite publish_unfold.
  destruct (bucket_of q (subscribers (run init calls))) as [k|] eqn:Eb.
  - apply deliver_in; [apply Hok | exact Eb |].
    apply (ok_created _ Hok). eapply bucket_of_Some. exact Eb.
  - rewrite app_nil_r. apply deliver_notin. apply bucket_of_None. exact Eb.
Qed.

(** ** The table of subscribers *)

(** No bucket is empty and no key occurs twice. *)
Definition table_ok (subs : Subscribers) : Prop :=
  Forall (fun entry => snd entry <> []) subs /\ NoDup (map fst subs).

Lemma has_key_elem (k : Key) (subs : Subscribers) :
  has_key k subs = true <-> k ∈ map fst subs.
Proof.
  induction subs as [|[k' l] subs IH].
  - split; [discriminate | intros H; apply elem_of_nil in H; contradiction].
  - rewrite has_key_cons, orb_true_iff, IH. cbn [map fst].
    rewrite elem_of_cons, bool_decide_eq_true. split; intros [H|H]; auto.
Qed.

Lemma keys_append_to (k : Key) (q : nat) (subs : Subscribers) :
  map fst (append_to k q subs) = map fst subs.
Proof.
  induction subs as [|[k' l] subs IH]; [reflexivity|].
  rewrite append_to_cons. destruct (bool_decide (k' = k)); cbn [map fst]; congruence.
Qed.

Lemma nonempty_append_to (k : Key) (q : nat) (subs : Subscribers) :
  Forall (fun entry => fst entry = k \/ snd entry <> []) subs ->
  NoDup (map fst subs) ->
  Forall (fun entry => snd entry <> []) (append_to k q subs).
Proof.
  induction subs as [|[k' l] subs IH]; intros Hne Hnd; [constructor|].
  rewrite append_to_cons. apply Forall_cons in Hne as [Hh Hne].
  cbn [map fst] in Hnd. apply NoDup_cons in Hnd as [Hk' Hnd].
  destruct (bool_decide (k' = k)) eqn:E.
  - apply bool_decide_eq_true in E. subst k'. apply Forall_cons. split.
    + cbn [snd]. intros H. apply app_eq_nil in H as [_ H]. discriminate.
    + apply Forall_forall. intros [k2 l2] Hin.
      rewrite Forall_forall in Hne. destruct (Hne _ Hin) as [H|H]; [|exact H].
      cbn [fst] in H. subst k2. exfalso. apply Hk'.
      exact (list_elem_of_fmap_2 fst subs (k, l2) Hin).
  - apply bool_decide_eq_false in E. apply Forall_cons. split.
    + cbn [fst snd] in *. destruct Hh; congruence.
    + apply IH; assumption.
Qed.

Lemma table_ok_subscribed (k : Key) (q : nat) (subs : Subscribers) :
  table_ok subs ->
  table_ok (append_to k q (if has_key k subs then subs else subs ++ [(k, [])])).
Proof.
  intros [Hne Hnd]. split.
  - apply nonempty_append_to.
    + destruct (has_key k subs).
      * eapply Forall_impl; [exact Hne|]. auto.
      * apply Forall_app. split; [eapply Forall_impl; [exact Hne|]; auto|].
        apply Forall_singleton. left. reflexivity.
    + destruct (has_key k subs) eqn:E; [exact Hnd|].
      rewrite map_app. apply NoDup_app. split; [exact Hnd|]. split; [|apply NoDup_singleton].
      intros x Hx Hx'. cbn [map fst] in Hx'. apply list_elem_of_singleton in Hx'. subst x.
      apply has_key_elem in Hx. congruence.
  - rewrite keys_append_to. destruct (has_key k subs) eqn:E; [exact Hnd|].
    rewrite map_app. apply NoDup_app. split; [exact Hnd|]. split; [|apply NoDup_singleton].
    intros x Hx Hx'. cbn [map fst] in Hx'. apply list_elem_of_singleton in Hx'. subst x.
    apply has_key_elem in Hx. congruence.
Qed.

Lemma remove_queue_cons (q : nat) (k : Key) (l : list nat) (subs : Subscribers) :
  remove_queue q ((k, l) :: subs)
  = if existsb (Nat.eqb q) l then
      match list_remove q l with
      | [] => subs
      | l' => (k, l') :: subs
      end
    else (k, l) :: remove_queue q subs.
Proof. reflexivity. Qed.

Lemma keys_remove_queue (q : nat) (k : Key) (subs : Subscribers) :
  k ∈ map fst (remove_queue q subs) -> k ∈ map fst subs.
Proof.
  induction subs as [|[k' l] subs IH]; [auto|].
  rewrite remove_queue_cons. cbn [map fst]. destruct (existsb (Nat.eqb q) l).
  - destruct (list_remove q l); cbn [map fst]; intros H;
      [apply elem_of_cons; right; exact H|exact H].
  - cbn [map fst]. intros H. apply elem_of_cons in H as [H|H]; apply elem_of_cons; auto.
Qed.

Lemma table_ok_remove_queue (q : nat) (subs : Subscribers) :
  table_ok subs -> table_ok (remove_queue q subs).
Proof.
  intros [Hne Hnd]. induction subs as [|[k l] subs IH]; [split; assumption|].
  apply Forall_cons in Hne as [Hh Hne]. cbn [map fst] in Hnd.
  apply NoDup_cons in Hnd as [Hk Hnd]. destruct (IH Hne Hnd) as [I1 I2].
  rewrite remove_queue_cons. destruct (existsb (Nat.eqb q) l).
  - destruct (list_remove q l) as [|y l'] eqn:E.
    + split; assumption.
    + split; [apply Forall_cons; split; [discriminate|exact Hne]|].
      cbn [map fst]. apply NoDup_cons. auto.
  - split; [apply Forall_cons; auto|]. cbn [map fst]. apply NoDup_cons. split; [|exact I2].
    intros H. apply Hk. eapply keys_remove_queue. exact H.
Qed.

Lemma table_ok_call (c : Call) (st : State) :
  table_ok (subscribers st) -> table_ok (subscribers (call st c)).
Proof.
  intros H. destruct c as [e|ets|c]; cbn [call].
  - exact H.
  - unfold subscribe. cbn [new_queue]. destruct (hashable ets) as [k| |]; cbn [snd subscribers];
      [apply table_ok_subscribed|..]; exact H.
  - apply table_ok_remove_queue. exact H.
Qed.

(** X10. On a bus reached by any calls, [self.subscribers] holds no empty
    list and no key twice, and no queue is in two lists or twice in one:
    [subscribe] fills the list it creates at once, and [unsubscribe]
    deletes the list it empties. *)
Theorem subscriber_table_is_tidy (calls : list Call) :
  Forall (fun entry => snd entry <> []) (subscribers (run init calls))
  /\ NoDup (map fst (subscribers (run init calls)))
  /\ NoDup (registered (subscribers (run init calls))).
Proof.
  assert (H : forall cs st, table_ok (subscribers st) -> table_ok (subscribers (run st cs))).
  { induction cs as [|c cs IH]; intros st Hst; [exact Hst|]. apply IH, table_ok_call, Hst. }
  destruct (H calls init) as [H1 H2]; [split; constructor|].
  split; [exact H1|]. split; [exact H2|]. apply bus_ok_run, bus_ok_init.
Qed.

(** ** unsubscribe *)

Lemma remove_queue_unregistered (q : nat) (subs : Subscribers) :
  q ∉ registered subs -> remove_queue q subs = subs.
Proof.
  induction subs as [|[k l] subs IH]; [reflexivity|].
  rewrite registered_cons, remove_queue_cons. intros H.
  apply not_elem_of_app in H as [Hl Hs].
  apply existsb_eqb_not_elem in Hl. rewrite Hl, IH by exact Hs. reflexivity.
Qed.

(** X11. [unsubscribe] on a bus reached by any calls: the consumer's
    queue is in no list afterwards, every other queue stays in the list it
    was in, and the queues keep their contents; a consumer that is not
    subscribed leaves the bus as it is, so a second [unsubscribe] of the
    same consumer does nothing. *)
Theorem unsubscribe_removes_only_that_queue (calls : list Call) (consumer : QueueEventConsumer) :
  (queue consumer ∉ registered (subscribers (unsubscribe consumer (run init calls))))
  /\ (forall x, x <> queue consumer ->
        bucket_of x (subscribers (unsubscribe consumer (run init calls)))
        = bucket_of x (subscribers (run init calls)))
  /\ queues (unsubscribe consumer (run init calls)) = queues (run init calls)
  /\ (bucket_of (queue consumer) (subscribers (run init calls)) = None ->
        unsubscribe consumer (run init calls) = run init calls)
  /\ unsubscribe consumer (unsubscribe consumer (run init calls))
     = unsubscribe consumer (run init calls).
Proof.
  assert (Hok : bus_ok (run init calls)) by apply bus_ok_run, bus_ok_init.
  destruct (NoDup_remove_queue (queue consumer) _ (ok_nodup _ Hok)) as [_ Hout].
  split; [exact Hout|]. split.
  { intros x Hx. apply bucket_of_remove_queue_other. exact Hx. }
  split; [reflexivity|]. split.
  - intros Hb. apply bucket_of_None in Hb. unfold unsubscribe.
    rewrite remove_queue_unregistered by exact Hb. destruct (run init calls); reflexivity.
  - unfold unsubscribe at 1 2. cbn [subscribers queues unsubscribe].
    rewrite remove_queue_unregistered by exact Hout. reflexivity.
Qed.

(** ** Consumers of the bus *)

Lemma filter_filter_same {A} (f : A -> bool) (l : list A) :
  List.filter f (List.filter f l) = List.filter f l.
Proof.
  induction l as [|x l IH]; [reflexivity|]. cbn [List.filter].
  destruct (f x) eqn:E; [|exact IH]. cbn [List.filter]. rewrite E, IH. reflexivity.
Qed.

(** The queue handed out by [subscribe] holds the accepted events that
    were published while it was subscribed. *)
Lemma subscribed_queue (ets : EventTypes) (k : Key) (st : State) (calls : list Call) :
  bus_ok st -> hashable ets = Ret k ->
  received (queues (run (snd (subscribe ets st)) calls)) (next_queue (queues st))
  = List.filter (accepts ets) (published_while_subscribed (next_queue (queues st)) calls).
Proof.
  intros Hok Ek. rewrite (subscribe_hashable ets k st Ek). cbn [snd].
  pose proof (fresh_not_registered st Hok) as Hfresh.
  rewrite (run_registered calls (subscribed k st) _ k).
  - unfold received at 1. simpl. rewrite lookup_insert_eq. simpl.
    apply filter_ext_bool. intros e. symmetry. apply accepts_matches. exact Ek.
  - apply bus_ok_subscribed. exact Hok.
  - simpl. apply bucket_of_append_to_new.
    + apply (with_key_facts k (subscribers st)).
    + destruct (with_key_facts k (subscribers st)) as (_ & -> & _). exact Hfresh.
Qed.

(** X12. The filter of a consumer handed out by [subscribe] never drops
    anything: the bus has filtered already, so [consume] yields every item
    of the queue, in order, namely the accepted events published while the
    consumer was subscribed. *)
Theorem bus_consumer_yields_its_whole_queue
    (history : list Call) (ets : EventTypes) (consumer : QueueEventConsumer)
    (calls : list Call) :
  fst (subscribe ets (run init history)) = Ret consumer ->
  QueueEventConsumer.consume consumer
    (received (queues (run (snd (subscribe ets (run init history))) calls)) (queue consumer))
  = received (queues (run (snd (subscribe ets (run init history))) calls)) (queue consumer)
  /\ QueueEventConsumer.consume consumer
       (received (queues (run (snd (subscribe ets (run init history))) calls))
          (queue consumer))
     = List.filter (accepts ets) (published_while_subscribed (queue consumer) calls).
Proof.
  intros Hsub.
  assert (Hok : bus_ok (run init history)) by apply bus_ok_run, bus_ok_init.
  destruct (hashable ets) as [k| |] eqn:Ek;
    try (unfold subscribe in Hsub; simpl in Hsub; rewrite Ek in Hsub; discriminate).
  pose proof (subscribe_hashable ets k (run init history) Ek) as Hs.
  rewrite Hs in Hsub. simpl in Hsub. inversion Hsub; subst consumer. clear Hsub.
  cbn [queue]. unfold QueueEventConsumer.consume. cbn [event_types].
  rewrite (subscribed_queue ets k _ calls Hok Ek).
  rewrite filter_filter_same. auto.
Qed.

Lemma bus_consumer_yields_its_whole_queue_witness :
  fst (subscribe (PyFrozenset {[ERROR]}) (run init [Subscribe PyNone]))
  = Ret (mkConsumer 1 (PyFrozenset {[ERROR]}))
  /\ QueueEventConsumer.consume (mkConsumer 1 (PyFrozenset {[ERROR]}))
       (received
          (queues (run (snd (subscribe (PyFrozenset {[ERROR]}) (run init [Subscribe PyNone])))
                     [Publish (ev RUN_STARTED); Publish (ev ERROR)])) 1)
     = received
         (queues (run (snd (subscribe (PyFrozenset {[ERROR]}) (run init [Subscribe PyNone])))
                    [Publish (ev RUN_STARTED); Publish (ev ERROR)])) 1.
Proof.
  split; [reflexivity|].
  apply (bus_consumer_yields_its_whole_queue [Subscribe PyNone] (PyFrozenset {[ERROR]})
           (mkConsumer 1 (PyFrozenset {[ERROR]}))
           [Publish (ev RUN_STARTED); Publish (ev ERROR)]).
  reflexivity.
Defined.

End SubscriptionFacts.

(* ===================================================================== *)
(** * More about events on the wire *)
(* ===================================================================== *)

Module WireFacts.
Import Json JsonFacts BaseEventFacts.
#[local] Arguments String.append !s1 s2 : simpl nomatch.

(** ** The characters of an encoded event *)

(** A printable ASCII character: code 32 to 126. *)
Definition printable (c : ascii) : bool :=
  let n := N_of_ascii c in (32 <=? n)%N && (n <=? 126)%N.

Fixpoint all_printable (s : string) : bool :=
  match s with
  | EmptyString => true
  | String c s' => printable c && all_printable s'
  end.

Lemma all_printable_app (a b : string) :
  all_printable (a +:+ b) = all_printable a && all_printable b.
Proof.
  induction a as [|c a IH]; simpl; [reflexivity|]. rewrite IH. apply andb_assoc.
Qed.

Lemma printable_escape_char (c : ascii) : all_printable (escape_char c) = true.
Proof. destruct c as [[] [] [] [] [] [] [] []]; vm_compute; reflexivity. Qed.

Lemma printable_escape (s : string) : all_printable (escape s) = true.
Proof.
  induction s as [|c s IH]; simpl; [reflexivity|].
  rewrite all_printable_app, printable_escape_char, IH. reflexivity.
Qed.

Lemma printable_encode (s : string) : all_printable (encode_basestring_ascii s) = true.
Proof.
  unfold encode_basestring_ascii. cbn [all_printable].
  rewrite all_printable_app, printable_escape. reflexivity.
Qed.

Lemma printable_uint (u : uint) : all_printable (NilEmpty.string_of_uint u) = true.
Proof. induction u; simpl; auto. Qed.

Lemma printable_repr_int (z : Z) : all_printable (repr_int z) = true.
Proof.
  unfold repr_int, NilZero.string_of_int.
  destruct (Z.to_int z) as [u|u]; unfold NilZero.string_of_uint;
    destruct u; try reflexivity; cbn [all_printable]; try apply printable_uint;
    rewrite ?printable_uint; reflexivity.
Qed.

Lemma printable_join (sep : string) (parts : list string) :
  all_printable sep = true -> forallb all_printable parts = true ->
  all_printable (join sep parts) = true.
Proof.
  intros Hs. induction parts as [|p ps IH]; [reflexivity|].
  cbn [forallb]. intros H. apply andb_true_iff in H as [Hp Hps].
  destruct ps as [|p' ps]; [exact Hp|].
  rewrite join_cons2, !all_printable_app, Hp, Hs, (IH Hps). reflexivity.
Qed.

Lemma printable_dumps (v : JSON) : all_printable (dumps v) = true.
Proof.
  induction v as [| b | z | s | l IH | d IH] using JSON_ind.
  - reflexivity.
  - destruct b; reflexivity.
  - apply printable_repr_int.
  - apply printable_encode.
  - assert (H : all_printable (join ", " (map dumps l)) = true).
    { apply printable_join; [reflexivity|].
      induction IH as [|x l Hx Hl IHl]; [reflexivity|].
      cbn [map forallb]. rewrite Hx, IHl. reflexivity. }
    cbn [dumps]. rewrite !all_printable_app, H. reflexivity.
  - assert (H : all_printable
                  (join ", " (map (fun kv => match kv with
                                             | (k, x) => encode_basestring_ascii k +:+ ": " +:+ dumps x
                                             end) d)) = true).
    { apply printable_join; [reflexivity|].
      induction IH as [|[k x] d Hx Hd IHd]; [reflexivity|]. cbn [map forallb].
      rewrite !all_printable_app, printable_encode, IHd. cbn [snd] in Hx. rewrite Hx.
      reflexivity. }
    cbn [dumps]. rewrite !all_printable_app, H. reflexivity.
Qed.

(** X13. The encoding of an event, whatever its payload, consists of
    printable ASCII characters only (codes 32 to 126): it holds no line
    break, so it fits on one line of an event stream. *)
Theorem to_json_is_printable_ascii (event : BaseEvent) :
  all_printable (BaseEvent.to_json event) = true.
Proof. apply printable_dumps. Qed.

(** ** Bytes that are ASCII *)

(** Every byte is below 128. *)
Fixpoint ascii_only (s : string) : bool :=
  match s with
  | EmptyString => true
  | String c s' => (N_of_ascii c <? 128)%N && ascii_only s'
  end.






(** ** Lines of a response body *)



(** ** White space around a line *)






(** ** Decoding what was encoded *)









(** ** What the receiving loops skip *)

(** A text the loops skip as malformed: [json.loads] rejects it with
    JSONDecodeError, the scanner meeting the defect before it has read a
    float or an escape for a code point above 255 and within the limits
    of the interpreter; and the text is ASCII, so that the [print] of the
    handler can write it whatever the encoding of the output stream. *)
Definition is_malformed (text : string) : bool :=
  ascii_only text && text_within_limits text
  && match loads text with
     | Raise JSONDecodeError => true
     | _ => false
     end.

(** A line of an event stream that decodes and then is blank, or does not
    start with the data prefix (a comment, another field), or holds data
    that is malformed. *)
Definition is_noise (raw : string) : bool :=
  match SSETransport.decode raw with
  | Ret text =>
      match SSETransport.strip text with
      | EmptyString => true
      | line =>
          match starts_with "data: " line with
          | Some data => is_malformed data
          | None => true
          end
      end
  | _ => false
  end.

(** X15. [SSETransport.receive_events] ignores noise wherever it occurs:
    lines of UTF-8 text (code points up to 255) that are blank, that lack
    the data prefix or whose data is malformed JSON in ASCII can be
    removed from the stream without changing what the generator yields or
    how it ends. *)
Theorem sse_noise_is_ignored (lines : list string) :
  SSETransport.receive_events lines
  = SSETransport.receive_events (List.filter (fun raw => negb (is_noise raw)) lines).
Proof.
  induction lines as [|raw lines IH]; [reflexivity|].
  cbn [List.filter]. unfold is_noise, is_malformed.
  cbn [SSETransport.receive_events].
  destruct (SSETransport.decode raw) as [text|e|b] eqn:Ed;
    [|cbn [negb SSETransport.receive_events]; rewrite Ed; reflexivity ..].
  destruct (SSETransport.strip text) as [|c line] eqn:Es; [exact IH|].
  destruct (starts_with "data: " (String c line)) as [data|] eqn:Ep; [|exact IH].
  destruct (ascii_only data && text_within_limits data);
    [rewrite andb_true_l | rewrite andb_false_l];
    destruct (loads data) as [v|e|b] eqn:El;
    try (cbn [negb SSETransport.receive_events]; rewrite Ed, Es, Ep, El, ?IH; reflexivity).
  destruct e; try exact IH;
    cbn [negb SSETransport.receive_events]; rewrite Ed, Es, Ep, El; reflexivity.
Qed.

(** What counts as noise and what does not: a comment line and a data
    line with a defect are noise; a line that is not UTF-8 ends the stream
    with UnicodeDecodeError; a text nested deeper than [safe_nesting] is
    not counted as malformed, since the scanner may meet the recursion
    limit before the defect. *)
Example noise_samples :
  is_noise (": keepalive" +:+ Agent.newline) = true
  /\ is_noise ("data: {oops" +:+ Agent.newline) = true
  /\ is_noise (String (ascii_of_N 255) (String (ascii_of_N 254) Agent.newline)) = false
  /\ SSETransport.receive_events
       [String (ascii_of_N 255) (String (ascii_of_N 254) Agent.newline);
        "data: " +:+ TransportFacts.run_started_frame +:+ Agent.newline]
     = ([], Propagated UnicodeDecodeError)
  /\ is_malformed (string_of_list_ascii (repeat "["%char 1000)) = false.
Proof. vm_compute. repeat split. Qed.

(** X16. The WebSocket loops skip malformed text frames wherever they
    occur: removing the text frames that are malformed JSON in ASCII changes
    neither the events [WebSocketTransport.receive_events] yields nor the
    events [websocket_handler] hands to its callback, nor how either
    ends. *)
Theorem websocket_malformed_frames_are_ignored
    (event_callback : BaseEvent -> option exn) (messages : list string) :
  WebSocketTransport.receive_events messages
  = WebSocketTransport.receive_events
      (List.filter (fun m => negb (is_malformed m)) messages)
  /\ TransportServer.websocket_handler event_callback messages
     = TransportServer.websocket_handler event_callback
         (List.filter (fun m => negb (is_malformed m)) messages).
Proof.
  induction messages as [|m messages [IH1 IH2]]; [split; reflexivity|].
  cbn [List.filter]. unfold is_malformed.
  cbn [WebSocketTransport.receive_events TransportServer.websocket_handler].
  unfold BaseEvent.from_json.
  destruct (ascii_only m && text_within_limits m);
    [rewrite andb_true_l | rewrite andb_false_l];
    destruct (loads m) as [v|e|b] eqn:El;
    try (cbn [negb WebSocketTransport.receive_events TransportServer.websocket_handler];
         unfold BaseEvent.from_json; rewrite El, ?IH1, ?IH2; split; reflexivity).
  destruct e; try (split; assumption);
    cbn [negb WebSocketTransport.receive_events TransportServer.websocket_handler];
    unfold BaseEvent.from_json; rewrite El; split; reflexivity.
Qed.

(** ** From a client's [send_event] to the server's callback *)

Import WebSocketTransportObject.













(** ** [EventType(...)] and [from_dict] *)

Lemma EventType_members_all (t : EventType) : In t EventType_members.
Proof. destruct t; simpl; tauto. Qed.

Lemma EventType_call_Ret (x : JSON) (t : EventType) :
  EventType_call x = Ret t <-> x = JStr (value t).
Proof.
  split; [|intros ->; apply EventType_call_value].
  unfold EventType_call. destruct x as [| | |s| |]; try discriminate.
  destruct (find _ EventType_members) as [t'|] eqn:E; [|discriminate].
  intros H; inversion H; subst t'. apply find_some in E as [_ E].
  apply String.eqb_eq in E. congruence.
Qed.

Lemma EventType_call_Raise (x : JSON) (e : exn) :
  EventType_call x = Raise e -> e = ValueError /\ forall t, x <> JStr (value t).
Proof.
  intros H. split.
  - unfold EventType_call in H. destruct x; try (inversion H; reflexivity).
    destruct (find _ _); inversion H. reflexivity.
  - intros t ->. rewrite EventType_call_value in H. discriminate.
Qed.

(** X18. What [BaseEvent.from_dict] does with any JSON value. It returns
    an event exactly for a dict whose ["type"] is the value of a member of
    [EventType]; the payload is taken as it is, whatever kind of value it
    is, and the other keys are dropped. Otherwise it raises TypeError
    (not a dict), KeyError (no ["type"]) or ValueError (["type"] is not a
    member's value), and nothing else. *)
Theorem from_dict_cases (data : JSON) :
  match BaseEvent.from_dict data with
  | Ret event =>
      exists d, data = JDict d
                /\ dict_get d "type" = Some (JStr (value (type event)))
                /\ payload event = default (JDict []) (dict_get d "payload")
  | Raise e =>
      (e = TypeError /\ forall d, data <> JDict d)
      \/ (e = KeyError "type" /\ exists d, data = JDict d /\ dict_get d "type" = None)
      \/ (e = ValueError
          /\ exists d x, data = JDict d /\ dict_get d "type" = Some x
                         /\ forall t, x <> JStr (value t))
  | Outside _ => False
  end.
Proof.
  unfold BaseEvent.from_dict, BaseEvent.getitem_type, BaseEvent.get_payload.
  destruct data as [| b | z | s | l | d]; try (left; split; [reflexivity|discriminate]).
  destruct (dict_get d "type") as [x|] eqn:Et.
  - destruct (EventType_call x) as [t|e|b] eqn:Ec.
    + apply EventType_call_Ret in Ec. subst x.
      destruct (dict_get d "payload") as [p|] eqn:Ep; exists d;
        (split; [reflexivity|]; split; [exact Et|]; cbn [payload]; rewrite Ep; reflexivity).
    + apply EventType_call_Raise in Ec as [-> Hx]. right. right.
      split; [reflexivity|]. exists d, x. auto.
    + unfold EventType_call in Ec. destruct x; try discriminate.
      destruct (find _ _); discriminate.
  - right. left. split; [reflexivity|]. exists d. auto.
Qed.

(** ** The agent event stream read by [SSETransport] *)

Import Agent.



End WireFacts.

(* ===================================================================== *)
(** * The life of a transport object *)
(* ===================================================================== *)

Module SSEObjectFacts.
Import SSETransportObject.

(** The transport has a session but no response: the GET of its only
    connection attempt failed. *)
Definition stuck (self : SSE) : Prop :=
  is_Some (session self) /\ response self = None.

Lemma stuck_call (self : SSE) (c : Call) : stuck self -> stuck (call self c).
Proof.
  intros [[s Hs] Hr]. destruct c as [net|event|net|]; cbn [call].
  - unfold connect. rewrite Hs. split; eauto.
  - split; eauto.
  - unfold receive_events, connect. rewrite Hs, Hr. cbn [fst snd response]. rewrite Hr.
    split; eauto.
  - unfold close. rewrite Hs. destruct (_closed self); split; cbn [session response]; eauto.
Qed.

Lemma stuck_run (calls : list Call) (self : SSE) : stuck self -> stuck (run self calls).
Proof.
  revert self. induction calls as [|c calls IH]; intros self H; [exact H|].
  apply IH, stuck_call, H.
Qed.

(** X20. A failed first connection is never retried. [connect] creates
    the session before the GET, so when the GET raises, the session stays
    and every later [connect] returns at once; whatever is called
    afterwards, [receive_events] fails at its [assert] (with assertions
    enabled) and a later [connect] changes nothing. *)
Theorem failed_connect_is_never_retried (calls : list Call) (net : Network) :
  fst (receive_events net (run (snd (connect Fails init)) calls)) = AssertionFailed
  /\ connect net (run (snd (connect Fails init)) calls)
     = (Returned, run (snd (connect Fails init)) calls).
Proof.
  assert (H : stuck (run (snd (connect Fails init)) calls)).
  { apply stuck_run. split; [eexists; reflexivity | reflexivity]. }
  set (st := run (snd (connect Fails init)) calls) in *. clearbody st.
  destruct H as [[s Hs] Hr]. split.
  - unfold receive_events, connect. rewrite Hs, Hr. cbn [fst snd response]. rewrite Hr.
    reflexivity.
  - unfold connect. rewrite Hs. reflexivity.
Qed.

(** What holds of every transport reached from a new one. *)
Record sse_ok (self : SSE) : Prop := mk_sse_ok {
  one_session :
    sessions_created self = match session self with Some _ => 1 | None => 0 end;
  closed_once : session_closes self = if _closed self then 1 else 0;
  closed_has_session : _closed self = true -> is_Some (session self);
  response_closed_once : response_closes self <= session_closes self
}.

Lemma sse_ok_connect (net : Network) (self : SSE) :
  sse_ok self -> sse_ok (snd (connect net self)).
Proof.
  intros [H1 H2 H3 H4]. unfold connect. destruct (session self) as [s|] eqn:Es.
  - cbn [snd]. split; rewrite ?Es; auto.
  - try rewrite Es in H1.
    destruct net; cbn [snd]; split;
      cbn [session _closed sessions_created session_closes response_closes];
      eauto; rewrite H1; reflexivity.
Qed.

Lemma sse_ok_close (self : SSE) : sse_ok self -> sse_ok (close self).
Proof.
  intros Hok. pose proof Hok as [H1 H2 H3 H4]. unfold close.
  destruct (session self) as [s|] eqn:Es; [|exact Hok].
  destruct (_closed self) eqn:Ec; [exact Hok|].
  split; cbn [session _closed sessions_created session_closes response_closes].
  - try rewrite Es. try rewrite Es in H1. exact H1.
  - rewrite H2. reflexivity.
  - intros _. rewrite ?Es. eauto.
  - rewrite H2 in H4. destruct (response self); lia.
Qed.

Lemma sse_ok_call (self : SSE) (c : Call) : sse_ok self -> sse_ok (call self c).
Proof.
  intros Hok. destruct c as [net|event|net|]; cbn [call].
  - apply sse_ok_connect. exact Hok.
  - exact Hok.
  - unfold receive_events.
    assert (G : forall x : Ending * SSE, sse_ok (snd x) ->
              sse_ok (snd (let (ending, self1) := x in
                           match ending with
                           | Returned =>
                               match response self1 with
                               | Some _ => (Returned, self1)
                               | None => (AssertionFailed, self1)
                               end
                           | _ => (ending, self1)
                           end))).
    { intros [ending self1] H. cbn [snd] in H.
      destruct ending; [destruct (response self1)|..]; exact H. }
    apply G. destruct (session self); [destruct (response self)|];
      first [exact Hok | apply sse_ok_connect; exact Hok].
  - apply sse_ok_close. exact Hok.
Qed.

(** X21. An [SSETransport] has at most one session in its life, and
    closes it at most once: after any calls, one session has been created
    if [self.session] is set and none otherwise, [session.close()] has
    been called once if [_closed] is set and not at all otherwise, and
    [response.close()] at most as often. A closed transport keeps its
    session, so it does not connect again. [send_event] always raises
    NotImplementedError and changes nothing. *)
Theorem sse_transport_has_one_session (calls : list Call) (event : BaseEvent) :
  sessions_created (run init calls)
  = match session (run init calls) with Some _ => 1 | None => 0 end
  /\ session_closes (run init calls) = (if _closed (run init calls) then 1 else 0)
  /\ response_closes (run init calls) <= session_closes (run init calls)
  /\ (_closed (run init calls) = true ->
      forall net, connect net (run init calls) = (Returned, run init calls))
  /\ send_event event (run init calls) = (NotImplemented, run init calls).
Proof.
  assert (H : forall cs self, sse_ok self -> sse_ok (run self cs)).
  { induction cs as [|c cs IH]; intros self Hs; [exact Hs|]. apply IH, sse_ok_call, Hs. }
  destruct (H calls init) as [H1 H2 H3 H4].
  { split; simpl; auto. discriminate. }
  split; [exact H1|]. split; [exact H2|]. split; [exact H4|]. split; [|reflexivity].
  intros Hc net. destruct (H3 Hc) as [s Hs]. unfold connect. rewrite Hs. reflexivity.
Qed.

End SSEObjectFacts.

Module WebSocketObjectFacts.
Import WebSocketTransportObject.

Definition by_client (s : Socket) : bool :=
  match socket_state s with
  | ClosedByClient => true
  | _ => false
  end.

(** The number of connections [websocket.close()] was called on. *)
Definition closed_by_client (self : WS) : nat :=
  length (List.filter by_client (sockets self)).

Lemma closed_by_client_unfold (self : WS) :
  closed_by_client self = length (List.filter by_client (sockets self)).
Proof. reflexivity. Qed.

(** Changing a connection in a way that keeps [f] leaves the count. *)
Lemma filter_alter_same (f : Socket -> bool) (g : Socket -> Socket) (i : nat)
    (l : list Socket) :
  (forall s, l !! i = Some s -> f (g s) = f s) ->
  length (List.filter f (alter g i l)) = length (List.filter f l).
Proof.
  revert i. induction l as [|x l IH]; intros i H; [reflexivity|].
  destruct i as [|i]; cbn [alter list_alter List.filter].
  - rewrite (H x eq_refl). destruct (f x); reflexivity.
  - specialize (IH i (fun s Hs => H s Hs)).
    change (list_alter g i l) with (alter g i l). destruct (f x); simpl; rewrite IH; reflexivity.
Qed.

Lemma filter_alter_gain (f : Socket -> bool) (g : Socket -> Socket) (i : nat)
    (l : list Socket) (s : Socket) :
  l !! i = Some s -> f s = false -> f (g s) = true ->
  length (List.filter f (alter g i l)) = S (length (List.filter f l)).
Proof.
  revert i. induction l as [|x l IH]; intros i H Hs Hg; [discriminate|].
  destruct i as [|i]; cbn [alter list_alter List.filter].
  - inversion H; subst x. rewrite Hs, Hg. reflexivity.
  - change (list_alter g i l) with (alter g i l).
    pose proof (IH i H Hs Hg) as E. destruct (f x); simpl; rewrite E; reflexivity.
Qed.

Lemma disconnected_false (self : WS) :
  disconnected self = false ->
  exists i fs, websocket self = Some i /\ sockets self !! i = Some (mkSocket Open fs).
Proof.
  unfold disconnected. destruct (websocket self) as [i|]; [|discriminate].
  destruct (sockets self !! i) as [[[] fs]|] eqn:E; try discriminate.
  intros _. exists i, fs. auto.
Qed.

Record ws_ok (self : WS) : Prop := mk_ws_ok {
  closes_counted : closed_by_client self = if _closed self then 1 else 0
}.

Lemma count_connect (net : Network) (self : WS) :
  closed_by_client (snd (connect net self)) = closed_by_client self
  /\ _closed (snd (connect net self)) = _closed self.
Proof.
  unfold connect. destruct (disconnected self); [|auto]. destruct net; [|auto].
  cbn [snd _closed]. split; [|reflexivity].
  rewrite !closed_by_client_unfold. cbn [sockets].
  rewrite List.filter_app, length_app. simpl. lia.
Qed.

Lemma count_send (i : nat) (m : string) (self : WS) :
  closed_by_client (send i m self) = closed_by_client self
  /\ _closed (send i m self) = _closed self.
Proof.
  split; [|reflexivity]. rewrite !closed_by_client_unfold. cbn [send sockets].
  apply filter_alter_same. intros s _. reflexivity.
Qed.

Lemma count_send_event (event : BaseEvent) (net : Network) (self : WS) :
  closed_by_client (snd (send_event event net self)) = closed_by_client self
  /\ _closed (snd (send_event event net self)) = _closed self.
Proof.
  unfold send_event. destruct (count_connect net self) as [C1 C2].
  destruct (disconnected self).
  - destruct (connect net self) as [ending self1]. cbn [snd] in *.
    destruct ending; auto. destruct (websocket self1); auto. cbn [snd].
    destruct (count_send n (BaseEvent.to_json event) self1). split; congruence.
  - destruct (websocket self); auto. cbn [snd]. apply count_send.
Qed.

Lemma count_receive_events (net : Network) (self : WS) :
  closed_by_client (snd (receive_events net self)) = closed_by_client self
  /\ _closed (snd (receive_events net self)) = _closed self.
Proof.
  unfold receive_events. destruct (count_connect net self) as [C1 C2].
  destruct (disconnected self).
  - destruct (connect net self) as [ending self1]. cbn [snd] in *.
    destruct ending; auto. destruct (websocket self1); auto.
  - destruct (websocket self); auto.
Qed.

Lemma count_peer_closes (i : nat) (self : WS) :
  closed_by_client (peer_closes i self) = closed_by_client self
  /\ _closed (peer_closes i self) = _closed self.
Proof.
  split; [|reflexivity]. rewrite !closed_by_client_unfold. cbn [peer_closes sockets].
  apply filter_alter_same. intros [[] fs] _; reflexivity.
Qed.

Lemma ws_ok_call (self : WS) (c : Call) : ws_ok self -> ws_ok (call self c).
Proof.
  intros [H]. split. destruct c as [net|event net|net| |i]; cbn [call].
  - destruct (count_connect net self) as [-> ->]. exact H.
  - destruct (count_send_event event net self) as [-> ->]. exact H.
  - destruct (count_receive_events net self) as [-> ->]. exact H.
  - unfold close. destruct (_closed self) eqn:Ec; [rewrite Ec; exact H|].
    destruct (websocket self) as [i|] eqn:Ew; [|rewrite Ec; exact H].
    destruct (disconnected self) eqn:Ed; [rewrite Ec; exact H|].
    destruct (disconnected_false self Ed) as (j & fs & Hj & Hs).
    rewrite Ew in Hj. inversion Hj; subst j.
    cbn [_closed]. rewrite closed_by_client_unfold. cbn [sockets].
    rewrite (filter_alter_gain by_client _ i _ _ Hs); [|reflexivity..].
    rewrite <- closed_by_client_unfold, H. reflexivity.
  - destruct (count_peer_closes i self) as [-> ->]. exact H.
Qed.

Lemma closed_stays (calls : list Call) (self : WS) :
  _closed self = true -> _closed (run self calls) = true.
Proof.
  revert self. induction calls as [|c calls IH]; intros self H; [exact H|].
  apply IH. destruct c as [net|event net|net| |i]; cbn [call].
  - destruct (count_connect net self) as [_ ->]. exact H.
  - destruct (count_send_event event net self) as [_ ->]. exact H.
  - destruct (count_receive_events net self) as [_ ->]. exact H.
  - unfold close. rewrite H. exact H.
  - exact H.
Qed.

Lemma ws_run_app (self : WS) (a b : list Call) : run self (a ++ b) = run (run self a) b.
Proof. apply fold_left_app. Qed.

(** X22. [close] works once in the life of a [WebSocketTransport]: after
    any calls, [websocket.close()] has been called on one connection if
    [_closed] is set and on none otherwise, and [_closed], once set, stays
    set whatever is called, the methods that reconnect included. *)
Theorem websocket_close_works_once (calls later : list Call) :
  closed_by_client (run init calls) = (if _closed (run init calls) then 1 else 0)
  /\ (_closed (run init calls) = true ->
      _closed (run init (calls ++ later)) = true
      /\ closed_by_client (run init (calls ++ later)) = 1).
Proof.
  assert (H : forall cs self, ws_ok self -> ws_ok (run self cs)).
  { induction cs as [|c cs IH]; intros self Hs; [exact Hs|]. apply IH, ws_ok_call, Hs. }
  assert (H0 : ws_ok init) by (split; reflexivity).
  split; [apply (H calls init H0)|].
  intros Hc. assert (Hl : _closed (run init (calls ++ later)) = true).
  { rewrite ws_run_app. apply closed_stays. exact Hc. }
  split; [exact Hl|]. destruct (H (calls ++ later) init H0) as [E]. rewrite E, Hl. reflexivity.
Qed.



End WebSocketObjectFacts.

(* ===================================================================== *)
(** * Facts about the specialised event classes *)
(* ===================================================================== *)

Module EventClassFacts.
Import Json JsonFacts BaseEventFacts WireFacts EventClasses.







(** ** C3 *)





End EventClassFacts.

(* ===================================================================== *)
(** * Facts about the event manager *)
(* ===================================================================== *)

Module EventManagerFacts.
Import EventManager.

Definition run_started (id : string) : BaseEvent :=
  mkBaseEvent RUN_STARTED (JDict [("runId", JStr id)]).

Definition run_finished (id : string) : BaseEvent :=
  mkBaseEvent RUN_FINISHED (JDict [("runId", JStr id)]).

(** What the calls ask of the bus: [start_run] and [end_run] publish,
    [create_consumer] subscribes; [id] is the current run id. *)
Fixpoint bus_calls (id : string) (calls : list Call) : list EventBus.Call :=
  match calls with
  | [] => []
  | StartRun id' :: calls' => EventBus.Publish (run_started id') :: bus_calls id' calls'
  | EndRun :: calls' => EventBus.Publish (run_finished id) :: bus_calls id calls'
  | CreateConsumer event_types :: calls' =>
      EventBus.Subscribe event_types :: bus_calls id calls'
  | _ :: calls' => bus_calls id calls'
  end.

Lemma manager_run_cons (self : Manager) (c : Call) (calls : list Call) :
  run self (c :: calls) = run (call self c) calls.
Proof. reflexivity. Qed.

Lemma close_bus (self : Manager) :
  event_bus (snd (close self)) = event_bus self /\ run_id (snd (close self)) = run_id self.
Proof.
  unfold close. destruct (stop_all (processors self)) as [[e|] ps]; split; reflexivity.
Qed.

Lemma bus_of_run (calls : list Call) (self : Manager) :
  event_bus (run self calls)
  = EventBus.run (event_bus self) (bus_calls (run_id self) calls).
Proof.
  revert self. induction calls as [|c calls IH]; intros self; [reflexivity|].
  rewrite manager_run_cons, IH. destruct c; cbn [call bus_calls].
  - reflexivity.
  - reflexivity.
  - reflexivity.
  - unfold create_consumer.
    destruct (EventBus.subscribe event_types (event_bus self)) as [r bus] eqn:E.
    cbn [snd event_bus run_id EventBus.run fold_left EventBus.call]. rewrite E. reflexivity.
  - reflexivity.
  - reflexivity.
  - destruct (close_bus self) as [-> ->]. reflexivity.
Qed.

(** ** The processors of the emitters *)

(** A processor built by [create_emitter]: it has taken nothing and its
    task is running or cancelled, or it has taken one event and its task
    has failed with AttributeError. *)
Definition processor_ok (p : EventProcessor) : Prop :=
  transport p = AnEventBus
  /\ ((consumed p = 0 /\ (task p = Some Running \/ task p = Some Cancelled))
      \/ (consumed p = 1 /\ task p = Some (Failed AttributeError))).

Lemma processor_ok_step (items : list BaseEvent) (p : EventProcessor) :
  processor_ok p -> processor_ok (task_step items p).
Proof.
  intros [Ht H]. unfold task_step.
  destruct H as [[Hc [Hk|Hk]] | [Hc Hk]]; rewrite Hk; try (split; auto; fail).
  rewrite Ht, Hc. cbn [drop]. destruct items as [|event items]; cbn.
  - split; [reflexivity|]. left. auto.
  - split; [reflexivity|]. right. auto.
Qed.

Lemma processor_ok_stop (p : EventProcessor) :
  processor_ok p -> fst (stop p) = Some AttributeError /\ processor_ok (snd (stop p)).
Proof.
  intros [Ht H]. unfold stop. cbn [fst snd]. rewrite Ht. split; [reflexivity|].
  destruct H as [[Hc [Hk|Hk]] | [Hc Hk]]; rewrite Hk; split; auto.
Qed.

Lemma stop_all_ok (ps : list EventProcessor) :
  Forall processor_ok ps ->
  fst (stop_all ps) = match ps with [] => None | _ => Some AttributeError end
  /\ Forall processor_ok (snd (stop_all ps))
  /\ length (snd (stop_all ps)) = length ps.
Proof.
  intros H. destruct H as [|p ps Hp Hps]; [repeat split; constructor|].
  cbn [stop_all]. destruct (processor_ok_stop p Hp) as [E Hp1].
  destruct (stop p) as [r p1]. cbn [fst snd] in *. subst r.
  cbn [fst snd]. repeat split. apply Forall_cons. auto.
Qed.

Lemma processors_ok_call (self : Manager) (c : Call) :
  Forall processor_ok (processors self) -> Forall processor_ok (processors (call self c)).
Proof.
  intros H. destruct c; cbn [call]; try exact H.
  - unfold create_emitter. cbn [new_queue snd processors].
    apply Forall_app. split; [exact H|]. apply Forall_singleton.
    split; [reflexivity|]. left. auto.
  - unfold create_consumer. destruct (EventBus.subscribe _ _). exact H.
  - cbn [run_task processors]. apply Forall_forall. intros p Hin.
    apply list_elem_of_lookup in Hin as [j Hj].
    rewrite list_lookup_alter in Hj. rewrite Forall_forall in H.
    destruct (decide (i = j)) as [->|Hne].
    + destruct (processors self !! j) as [p0|] eqn:E; [|discriminate].
      simpl in Hj. inversion Hj; subst p. apply processor_ok_step. apply H.
      apply list_elem_of_lookup. eauto.
    + apply H. apply list_elem_of_lookup. eauto.
  - unfold close. destruct (stop_all_ok _ H) as (_ & Hs & _).
    destruct (stop_all (processors self)) as [[e|] ps]; [exact Hs|constructor].
Qed.

Lemma processors_ok_run (calls : list Call) (self : Manager) :
  Forall processor_ok (processors self) ->
  Forall processor_ok (processors (run self calls)).
Proof.
  revert self. induction calls as [|c calls IH]; intros self H; [exact H|].
  apply IH, processors_ok_call, H.
Qed.

(** X26. Nothing sent through an emitter of [create_emitter] is ever
    published. Its processor emits through a [TransportEventEmitter] on
    the [EventBus], which has no [send_event]: the first event the task
    takes raises AttributeError and ends the task. So after any calls the
    bus is what the calls of [start_run], [end_run] and [create_consumer]
    alone make of it, and every processor has either taken no event or
    taken one and failed with AttributeError. *)
Theorem emitter_events_are_never_published (id : string) (calls : list Call) :
  event_bus (run (init id) calls) = EventBus.run EventBus.init (bus_calls id calls)
  /\ Forall (fun p =>
               (consumed p = 0 /\ task p <> Some (Failed AttributeError)
                /\ forall event items,
                     task p = Some Running ->
                     task (task_step (event :: items) p) = Some (Failed AttributeError))
               \/ (consumed p = 1 /\ task p = Some (Failed AttributeError)))
       (processors (run (init id) calls)).
Proof.
  split; [apply bus_of_run|].
  eapply Forall_impl; [apply processors_ok_run; constructor|].
  intros p [Ht [[Hc Hk] | H]]; [left|right; exact H].
  split; [exact Hc|]. split; [destruct Hk as [-> | ->]; discriminate|].
  intros event items Hr. unfold task_step. rewrite Hr, Ht, Hc. reflexivity.
Qed.

(** [create_emitter] is among the calls. *)
Definition creates_emitter (c : Call) : bool :=
  match c with
  | CreateEmitter => true
  | _ => false
  end.

Lemma processors_length_call (self : Manager) (c : Call) :
  Forall processor_ok (processors self) ->
  length (processors (call self c))
  = length (processors self) + (if creates_emitter c then 1 else 0).
Proof.
  intros H. destruct c; cbn [call creates_emitter]; try (cbn; lia).
  - unfold create_emitter. cbn [new_queue snd processors]. rewrite length_app. reflexivity.
  - unfold create_consumer. destruct (EventBus.subscribe _ _). cbn. lia.
  - cbn [run_task processors]. rewrite length_alter. lia.
  - unfold close. destruct (stop_all_ok _ H) as (Hf & _ & Hl).
    destruct (stop_all (processors self)) as [[e|] ps]; cbn [fst snd processors] in *;
      [lia|]. destruct (processors self); [reflexivity|discriminate].
Qed.

Lemma processors_length_run (calls : list Call) (self : Manager) :
  Forall processor_ok (processors self) ->
  length (processors (run self calls))
  = length (processors self) + length (List.filter creates_emitter calls).
Proof.
  revert self. induction calls as [|c calls IH]; intros self H; [simpl; lia|].
  rewrite manager_run_cons, IH by (apply processors_ok_call; exact H).
  rewrite (processors_length_call self c H). cbn [List.filter].
  destruct (creates_emitter c); simpl; lia.
Qed.

(** X27. [EventManager.close] fails as soon as one emitter was created:
    stopping the first processor closes its emitter, which calls [close]
    on the [EventBus], and the bus has no such method. The AttributeError
    leaves [close] before [self.processors.clear()], so the list keeps one
    processor per [create_emitter] ever called. Without emitters [close]
    returns. *)
Theorem close_raises_once_an_emitter_exists (id : string) (calls : list Call) :
  fst (close (run (init id) calls))
  = (if existsb creates_emitter calls then Some AttributeError else None)
  /\ length (processors (snd (close (run (init id) calls))))
     = length (List.filter creates_emitter calls)
  /\ length (processors (run (init id) calls))
     = length (List.filter creates_emitter calls).
Proof.
  assert (Hok : Forall processor_ok (processors (run (init id) calls)))
    by (apply processors_ok_run; constructor).
  assert (Hlen : length (processors (run (init id) calls))
                 = length (List.filter creates_emitter calls))
    by (rewrite processors_length_run by constructor; reflexivity).
  assert (Hex : existsb creates_emitter calls
                = match List.filter creates_emitter calls with [] => false | _ => true end).
  { clear. induction calls as [|c calls IH]; [reflexivity|].
    cbn [existsb List.filter]. destruct (creates_emitter c); [reflexivity|exact IH]. }
  destruct (stop_all_ok _ Hok) as (Hf & _ & Hl). unfold close.
  destruct (stop_all (processors (run (init id) calls))) as [[e|] ps] eqn:Es;
    cbn [fst snd processors] in *.
  - split; [|split; [lia|exact Hlen]]. rewrite Hex.
    destruct (processors (run (init id) calls)); [discriminate|].
    destruct (List.filter creates_emitter calls); [discriminate|]. exact Hf.
  - destruct (processors (run (init id) calls)); [|discriminate].
    rewrite Hex. destruct (List.filter creates_emitter calls); [|discriminate].
    repeat split.
Qed.

(** ** Consumers of the manager *)

(** The run events the calls publish; [id] is the current run id. *)
Fixpoint run_events (id : string) (calls : list Call) : list BaseEvent :=
  match calls with
  | [] => []
  | StartRun id' :: calls' => run_started id' :: run_events id' calls'
  | EndRun :: calls' => run_finished id :: run_events id calls'
  | _ :: calls' => run_events id calls'
  end.

Lemma published_bus_calls (q : nat) (id : string) (calls : list Call) :
  EventBus.published_while_subscribed q (bus_calls id calls) = run_events id calls.
Proof.
  revert id. induction calls as [|c calls IH]; intros id; [reflexivity|].
  destruct c; cbn [bus_calls run_events EventBus.published_while_subscribed];
    rewrite ?IH; reflexivity.
Qed.

Lemma filter_true {A} (l : list A) : List.filter (fun _ => true) l = l.
Proof. induction l as [|x l IH]; [reflexivity|]. cbn. rewrite IH. reflexivity. Qed.

(** X28. A consumer made by [create_consumer()] without filter sees every
    run event, for good: the manager has no way to unsubscribe it. After
    any calls that follow, its queue holds one RUN_STARTED per
    [start_run], with the id of that run, and one RUN_FINISHED per
    [end_run], with the id of the latest [start_run] before it, or, when
    there was none, with the id made by the constructor, which no
    RUN_STARTED announced. *)
Theorem manager_consumer_sees_every_run_event
    (id : string) (before calls : list Call) :
  exists q,
    fst (create_consumer EventBus.PyNone (run (init id) before))
    = Ret (EventBus.mkConsumer q EventBus.PyNone)
    /\ received
         (EventBus.queues
            (event_bus (run (snd (create_consumer EventBus.PyNone (run (init id) before)))
                          calls))) q
       = run_events (run_id (run (init id) before)) calls.
Proof.
  set (m := run (init id) before).
  assert (Hok : EventBusFacts.bus_ok (event_bus m)).
  { subst m. rewrite bus_of_run. apply EventBusFacts.bus_ok_run, EventBusFacts.bus_ok_init. }
  exists (next_queue (EventBus.queues (event_bus m))).
  unfold create_consumer.
  destruct (EventBus.subscribe EventBus.PyNone (event_bus m)) as [r bus] eqn:E.
  pose proof (EventBusFacts.subscribe_hashable EventBus.PyNone None (event_bus m) eq_refl) as Hs.
  rewrite E in Hs. inversion Hs; subst r bus. cbn [fst snd]. split; [reflexivity|].
  rewrite bus_of_run. cbn [event_bus run_id].
  pose proof (SubscriptionFacts.subscribed_queue EventBus.PyNone None (event_bus m)
                (bus_calls (run_id m) calls) Hok eq_refl) as Hq.
  rewrite (EventBusFacts.subscribe_hashable EventBus.PyNone None (event_bus m) eq_refl) in Hq.
  cbn [snd] in Hq. rewrite Hq, published_bus_calls.
  apply filter_true.
Qed.

End EventManagerFacts.
